(** * Chemical-mechanism solver: Arrhenius reactions and the CVODE interface

    A shallow embedding of [src/rxns/rxn_arrhenius.c] and
    [src/phlex_solver.c].

    - A C [int] is a [Z]; the counters of this code stay far below 2^31 on
      any record that fits in memory, so no wrap-around is written out.
    - A C array is a list indexed by a C [int]; an access outside the array
      (undefined behaviour in C) is a fault, [None].
    - [realtype] is the SUNDIALS scalar type.  The code is embedded once,
      over the interface [RealType], and read at two instances: IEEE
      binary64 (the SUNDIALS default, Rocq's primitive floats), where every
      definition evaluates, and the real numbers (exact arithmetic).
    - [phlex_solver.c] is read as compiled with [PMC_USE_SUNDIALS]. *)

From Stdlib Require Import ZArith Reals Lra Lia Floats String.
From stdpp Require Import base option list sorting.

Set Default Proof Using "Type".
Local Open Scope Z_scope.

(** ** The scalar type *)

Class RealType : Type := {
  realtype : Type;
  ZERO : realtype;
  ONE : realtype;
  radd : realtype -> realtype -> realtype;
  rsub : realtype -> realtype -> realtype;
  rmul : realtype -> realtype -> realtype;
  rdiv : realtype -> realtype -> realtype;
  (** the C comparison [==]; [!=] is its negation *)
  req : realtype -> realtype -> bool;
  sizeof_realtype : Z }.

Declare Scope RT_scope.
Delimit Scope RT_scope with RT.
Infix "+" := radd : RT_scope.
Infix "-" := rsub : RT_scope.
Infix "*" := rmul : RT_scope.
Infix "/" := rdiv : RT_scope.

Definition rne `{RealType} (x y : realtype) : bool := negb (req x y).

(** Exact arithmetic. *)
Definition Req_b (x y : R) : bool := if Req_dec_T x y then true else false.

Definition exact_real : RealType :=
  {| realtype := R; ZERO := 0%R; ONE := 1%R;
     radd := Rplus; rsub := Rminus; rmul := Rmult; rdiv := Rdiv;
     req := Req_b; sizeof_realtype := 8 |}.

(** IEEE binary64: [==] is the IEEE comparison (a NaN differs from
    everything, the two zeros are equal). *)
Definition binary64 : RealType :=
  {| realtype := float; ZERO := 0%float; ONE := 1%float;
     radd := PrimFloat.add; rsub := PrimFloat.sub;
     rmul := PrimFloat.mul; rdiv := PrimFloat.div;
     req := PrimFloat.eqb; sizeof_realtype := 8 |}.

Definition sizeof_int : Z := 4.

(** ** C arrays and [for] loops *)

(** [a[i]] read. *)
Definition rd {A} (a : list A) (i : Z) : option A :=
  if i <? 0 then None else a !! Z.to_nat i.

(** [a[i] = v]. *)
Definition wr {A} (a : list A) (i : Z) (v : A) : option (list A) :=
  if (0 <=? i) && (i <? Z.of_nat (length a))
  then Some (<[Z.to_nat i := v]> a) else None.

(** [k] iterations of a loop body, the counter starting at [i]. *)
Fixpoint iterate {S} (k : nat) (i : Z) (body : Z -> S -> option S) (s : S)
  : option S :=
  match k with
  | O => Some s
  | S k' => s' ← body i s; iterate k' (i + 1) body s'
  end.

(** [for (i = lo; i < hi; i++) body], for a body that assigns neither [i]
    nor [hi]. *)
Definition for_loop {S} (lo hi : Z) (body : Z -> S -> option S) (s : S)
  : option S :=
  iterate (Z.to_nat (hi - lo)) lo body s.

(** ** rxn_arrhenius.c *)

Section Arrhenius.
Context `{RT : RealType}.

(** The memory a record pointer [rxn_data] gives access to: the integer
    segment read through [int_data] and the floating-point segment read
    through [float_data], which starts right behind it. *)
Record rxn_record : Type := {
  int_seg : list Z;
  float_seg : list realtype }.

Definition _NUM_INT_PROP_ : Z := 2.
Definition _NUM_FLOAT_PROP_ : Z := 7.

Section Macros.
Variable int_data : list Z.
Variable float_data : list realtype.

Definition _NUM_REACT_ : option Z := rd int_data 0.
Definition _NUM_PROD_ : option Z := rd int_data 1.
Definition _A_ : option realtype := rd float_data 0.
Definition _B_ : option realtype := rd float_data 1.
Definition _C_ : option realtype := rd float_data 2.
Definition _D_ : option realtype := rd float_data 3.
Definition _E_ : option realtype := rd float_data 4.
Definition _CONV_ : option realtype := rd float_data 5.
Definition _RATE_CONSTANT_ : option realtype := rd float_data 6.

Definition _REACT_ (x : Z) : option Z :=
  rd int_data (_NUM_INT_PROP_ + x).

Definition _PROD_ (x : Z) : option Z :=
  nr ← _NUM_REACT_; rd int_data (_NUM_INT_PROP_ + nr + x).

Definition _DERIV_ID_ (x : Z) : option Z :=
  nr ← _NUM_REACT_; np ← _NUM_PROD_;
  rd int_data (_NUM_INT_PROP_ + nr + np + x).

Definition _JAC_ID_ (x : Z) : option Z :=
  nr ← _NUM_REACT_; np ← _NUM_PROD_;
  rd int_data (_NUM_INT_PROP_ + 2 * (nr + np) + x).

Definition _yield_ (x : Z) : option realtype :=
  rd float_data (_NUM_FLOAT_PROP_ + x).

Definition _INT_DATA_SIZE_ : option Z :=
  nr ← _NUM_REACT_; np ← _NUM_PROD_;
  Some (_NUM_INT_PROP_ + (nr + 2) * (nr + np)).

Definition _FLOAT_DATA_SIZE_ : option Z :=
  np ← _NUM_PROD_; Some (_NUM_FLOAT_PROP_ + np).

(** [(void* ) &(float_data[_FLOAT_DATA_SIZE_])], where [float_data] is
    [(realtype* ) &(int_data[_INT_DATA_SIZE_])] and [int_data] is the
    pointer [rxn_data]; pointers are byte addresses. *)
Definition next_rxn (rxn_data : Z) : option Z :=
  isz ← _INT_DATA_SIZE_; fsz ← _FLOAT_DATA_SIZE_;
  Some (rxn_data + sizeof_int * isz + sizeof_realtype * fsz).

End Macros.

(** [jac_struct[i][j] = true] through the row pointers. *)
Definition set_flag (jac_struct : list (list bool)) (i j : Z)
  : option (list (list bool)) :=
  row ← rd jac_struct i; row' ← wr row j true; wr jac_struct i row'.

Definition rxn_arrhenius_get_used_jac_elem
    (rxn_data : Z) (rxn : rxn_record) (jac_struct : list (list bool))
  : option (Z * list (list bool)) :=
  let int_data := int_seg rxn in
  let float_data := float_seg rxn in
  nr ← _NUM_REACT_ int_data;
  np ← _NUM_PROD_ int_data;
  jac_struct ← for_loop 0 nr (fun i_ind jac_struct =>
      jac_struct ← for_loop 0 nr (fun i_dep jac_struct =>
          set_flag jac_struct i_dep i_ind) jac_struct;
      for_loop 0 np (fun i_dep jac_struct =>
          set_flag jac_struct i_dep i_ind) jac_struct) jac_struct;
  p ← next_rxn int_data rxn_data;
  Some (p, jac_struct).

(** The SUNDIALS math routines are not part of this repository. *)
Section EnvState.
Variable SUNRexp : realtype -> realtype.
Variable SUNRpowerR : realtype -> realtype -> realtype.
Variable SUNRpowerI : realtype -> Z -> realtype.

Definition _TEMPERATURE_K_ (env_data : list realtype) := rd env_data 0.
Definition _PRESSURE_PA_ (env_data : list realtype) := rd env_data 1.

Definition rxn_arrhenius_update_env_state
    (env_data : list realtype) (rxn_data : Z) (rxn : rxn_record)
  : option (Z * rxn_record) :=
  let int_data := int_seg rxn in
  let float_data := float_seg rxn in
  a ← _A_ float_data;
  c ← _C_ float_data;
  t ← _TEMPERATURE_K_ env_data;
  b ← _B_ float_data;
  powB ← (if req b ZERO then Some ONE
          else d ← _D_ float_data; Some (SUNRpowerR (t / d)%RT b));
  e ← _E_ float_data;
  presE ← (if req e ZERO then Some ONE
           else p ← _PRESSURE_PA_ env_data; Some (ONE + e * p)%RT);
  conv ← _CONV_ float_data;
  p ← _PRESSURE_PA_ env_data;
  nr ← _NUM_REACT_ int_data;
  float_data ← wr float_data 6
    (a * SUNRexp (c / t) * powB * presE
       * SUNRpowerI (conv * p / t) (nr - 1))%RT;
  next ← next_rxn int_data rxn_data;
  Some (next, {| int_seg := int_data; float_seg := float_data |}).

End EnvState.

(** [rate = _RATE_CONSTANT_; for (...) rate *= state[_REACT_(i_spec)];] *)
Definition reaction_rate (int_data : list Z) (float_data : list realtype)
    (state : list realtype) : option realtype :=
  rate ← _RATE_CONSTANT_ float_data;
  nr ← _NUM_REACT_ int_data;
  for_loop 0 nr (fun i_spec rate =>
      r ← _REACT_ int_data i_spec; x ← rd state r; Some (rate * x)%RT) rate.

Definition rxn_arrhenius_calc_deriv_contrib
    (state deriv : list realtype) (rxn_data : Z) (rxn : rxn_record)
  : option (Z * list realtype) :=
  let int_data := int_seg rxn in
  let float_data := float_seg rxn in
  rate ← reaction_rate int_data float_data state;
  deriv ←
    (if rne rate ZERO then
       nr ← _NUM_REACT_ int_data;
       '(i_dep_var, deriv) ← for_loop 0 nr (fun i_spec '(i_dep_var, deriv) =>
           id ← _DERIV_ID_ int_data i_dep_var;
           old ← rd deriv id;
           deriv ← wr deriv id (old - rate)%RT;
           Some (i_dep_var + 1, deriv)) (0, deriv);
       '(i_dep_var, deriv) ← for_loop 0 nr (fun i_spec '(i_dep_var, deriv) =>
           id ← _DERIV_ID_ int_data i_dep_var;
           y ← _yield_ float_data i_spec;
           old ← rd deriv id;
           deriv ← wr deriv id (old + rate * y)%RT;
           Some (i_dep_var + 1, deriv)) (i_dep_var, deriv);
       Some deriv
     else Some deriv);
  next ← next_rxn int_data rxn_data;
  Some (next, deriv).

Definition rxn_arrhenius_calc_jac_contrib
    (state J : list realtype) (rxn_data : Z) (rxn : rxn_record)
  : option (Z * list realtype) :=
  let int_data := int_seg rxn in
  let float_data := float_seg rxn in
  rate ← reaction_rate int_data float_data state;
  J ←
    (if rne rate ZERO then
       nr ← _NUM_REACT_ int_data;
       np ← _NUM_PROD_ int_data;
       '(i_elem, J) ← for_loop 0 nr (fun i_dep acc =>
           for_loop 0 nr (fun i_ind '(i_elem, J) =>
               id ← _JAC_ID_ int_data i_elem;
               r ← _REACT_ int_data i_ind;
               x ← rd state r;
               old ← rd J id;
               J ← wr J id (old - rate / x)%RT;
               Some (i_elem + 1, J)) acc) (0, J);
       '(i_elem, J) ← for_loop 0 np (fun i_dep acc =>
           for_loop 0 nr (fun i_ind '(i_elem, J) =>
               id ← _JAC_ID_ int_data i_elem;
               y ← _yield_ float_data i_dep;
               r ← _REACT_ int_data i_ind;
               x ← rd state r;
               old ← rd J id;
               J ← wr J id (old + y * rate / x)%RT;
               Some (i_elem + 1, J)) acc) (i_elem, J);
       Some J
     else Some J);
  next ← next_rxn int_data rxn_data;
  Some (next, J).

Definition rxn_arrhenius_skip (rxn_data : Z) (rxn : rxn_record) : option Z :=
  next_rxn (int_seg rxn) rxn_data.

End Arrhenius.

(** ** phlex_solver.c *)

Definition PHLEX_SOLVER_SUCCESS : Z := 0.
Definition PHLEX_SOLVER_FAIL : Z := 1.

Definition CHEM_SPEC_UNKNOWN_TYPE : Z := 0.
Definition CHEM_SPEC_VARIABLE : Z := 1.
Definition CHEM_SPEC_CONSTANT : Z := 2.
Definition CHEM_SPEC_PSSA : Z := 3.

Definition EXIT_FAILURE : Z := 1.

(** What [check_flag] writes to [stderr]. *)
Inductive message : Type :=
| returned_null (func_name : string)
| failed_with_flag (func_name : string) (flag : Z).

(** A call returns (with what it wrote to [stderr]), ends the process
    through [exit], or runs into undefined behaviour. *)
Inductive outcome (A : Type) : Type :=
| Returns (a : A) (err : list message)
| Exits (status : Z) (err : list message)
| Undefined.
Arguments Returns {A} a err.
Arguments Exits {A} status err.
Arguments Undefined {A}.

Definition outcome_bind {A B} (k : A -> outcome B) (m : outcome A)
  : outcome B :=
  match m with
  | Returns a err =>
      match k a with
      | Returns b err' => Returns b (err ++ err')
      | Exits st err' => Exits st (err ++ err')
      | Undefined => Undefined
      end
  | Exits st err => Exits st err
  | Undefined => Undefined
  end.

#[export] Instance outcome_mbind : MBind outcome := @outcome_bind.

Definition defined {A} (o : option A) : outcome A :=
  match o with
  | Some a => Returns a []
  | None => Undefined
  end.

(** A [void*] argument of [check_flag]: its address (unsigned, [NULL] is 0)
    and the [int] that a read through it as [int*] gives. *)
Record pointer : Type := {
  address : N;
  pointee : Z }.

(** In [if (err_flag < 0)] the operand [err_flag] is the pointer, not the
    [int] it points to: the comparison is between the address and the null
    address. *)
Definition check_flag (flag_value : pointer) (func_name : string) (opt : Z)
  : outcome Z :=
  if (opt =? 0) && (address flag_value =? 0)%N then
    Returns PHLEX_SOLVER_FAIL [returned_null func_name]
  else if opt =? 1 then
    let err_flag := flag_value in
    if (address err_flag <? 0)%N then
      Returns PHLEX_SOLVER_FAIL [failed_with_flag func_name (pointee err_flag)]
    else Returns PHLEX_SOLVER_SUCCESS []
  else Returns PHLEX_SOLVER_SUCCESS [].

Definition check_flag_fail (flag_value : pointer) (func_name : string)
    (opt : Z) : outcome unit :=
  r ← check_flag flag_value func_name opt;
  if r =? PHLEX_SOLVER_FAIL then Exits EXIT_FAILURE [] else Returns tt [].

Section Solver.
Context `{RT : RealType}.

(** The content of a SUNDIALS sparse matrix ([SM_..._S] accessors). *)
Record SUNMatrix : Type := {
  SM_ROWS_S : Z;
  SM_COLUMNS_S : Z;
  SM_NNZ_S : Z;
  SM_NP_S : Z;
  SM_DATA_S : list realtype;
  SM_INDEXVALS_S : list Z;
  SM_INDEXPTRS_S : list Z }.

(** SUNDIALS' constructor for the [CSC_MAT] layout: [NULL] on a
    non-positive dimension or a negative [NNZ] (every later access through
    it is then a fault), zero-filled arrays otherwise. *)
Definition SUNSparseMatrix (M N NNZ : Z) : option SUNMatrix :=
  if (M <=? 0) || (N <=? 0) || (NNZ <? 0) then None
  else Some {| SM_ROWS_S := M; SM_COLUMNS_S := N; SM_NNZ_S := NNZ;
               SM_NP_S := N;
               SM_DATA_S := replicate (Z.to_nat NNZ) ZERO;
               SM_INDEXVALS_S := replicate (Z.to_nat NNZ) 0;
               SM_INDEXPTRS_S := replicate (Z.to_nat (N + 1)) 0 |}.

Definition set_data (M : SUNMatrix) (i : Z) (v : realtype)
  : option SUNMatrix :=
  d ← wr (SM_DATA_S M) i v;
  Some {| SM_ROWS_S := SM_ROWS_S M; SM_COLUMNS_S := SM_COLUMNS_S M;
          SM_NNZ_S := SM_NNZ_S M; SM_NP_S := SM_NP_S M;
          SM_DATA_S := d; SM_INDEXVALS_S := SM_INDEXVALS_S M;
          SM_INDEXPTRS_S := SM_INDEXPTRS_S M |}.

Definition set_indexval (M : SUNMatrix) (i : Z) (v : Z) : option SUNMatrix :=
  d ← wr (SM_INDEXVALS_S M) i v;
  Some {| SM_ROWS_S := SM_ROWS_S M; SM_COLUMNS_S := SM_COLUMNS_S M;
          SM_NNZ_S := SM_NNZ_S M; SM_NP_S := SM_NP_S M;
          SM_DATA_S := SM_DATA_S M; SM_INDEXVALS_S := d;
          SM_INDEXPTRS_S := SM_INDEXPTRS_S M |}.

Definition set_indexptr (M : SUNMatrix) (i : Z) (v : Z) : option SUNMatrix :=
  d ← wr (SM_INDEXPTRS_S M) i v;
  Some {| SM_ROWS_S := SM_ROWS_S M; SM_COLUMNS_S := SM_COLUMNS_S M;
          SM_NNZ_S := SM_NNZ_S M; SM_NP_S := SM_NP_S M;
          SM_DATA_S := SM_DATA_S M; SM_INDEXVALS_S := SM_INDEXVALS_S M;
          SM_INDEXPTRS_S := d |}.

(** [N_VNew_Serial(length)]: a vector of that many entries.  SUNDIALS
    leaves their values unspecified; they are zeros here, and nothing below
    reads an entry of a new vector before writing it. *)
Definition N_VNew_Serial (length : Z) : list realtype :=
  replicate (Z.to_nat length) ZERO.

(** The packed mechanism: the reaction count, then the records. *)
Record rxn_buffer : Type := {
  n_rxn : Z;
  records : list rxn_record }.

(** [ModelData] without its two borrowed pointers: the array that
    [md->state] points to is the caller's, and is passed along explicitly
    wherever the code reads or writes through that pointer. *)
Record ModelData : Type := {
  n_state_var : Z;
  var_type : list Z;
  rxn_data : rxn_buffer;
  J_init : SUNMatrix }.

(** What the integrator has been configured with. *)
Record CVodeMem : Type := {
  cv_reltol : realtype;
  cv_abstol : list realtype;
  cv_max_steps : Z;
  cv_max_conv_fails : Z }.

Record SolverData : Type := {
  y : list realtype;
  cvode_mem : CVodeMem;
  model_data : ModelData }.

(** What [phlex_solver.c] calls and the source tree does not hold: the
    traversal functions of [rxn_solver.c], and the SUNDIALS calls, each of
    them given by what it returns. *)
Class Collaborators : Type := {
  rxn_get_used_jac_elem :
    rxn_buffer -> list (list bool) -> option (list (list bool));
  rxn_update_env_state : list realtype -> rxn_buffer -> option rxn_buffer;
  rxn_calc_deriv :
    ModelData -> list realtype -> list realtype -> option (list realtype);
  rxn_calc_jac : ModelData -> list realtype -> SUNMatrix -> option SUNMatrix;
  (** the records of a buffer fresh from [malloc] *)
  fresh_records : list rxn_record;
  (** the address of the local variable [flag] *)
  flag_address : N;
  CVodeCreate : N;
  CVodeSetUserData : Z;
  CVodeInit : Z;
  CVodeSVtolerances : Z;
  CVodeSetMaxNumSteps : Z;
  CVodeSetMaxConvFails : Z;
  SUNKLU : N;
  CVDlsSetLinearSolver : Z;
  CVDlsSetJacFn : Z;
  CVodeReInit : CVodeMem -> realtype -> list realtype -> Z;
  (** [CVode(cvode_mem, tout, y, &t, CV_NORMAL)] on the model data and the
      state array its callbacks write: the flag, the vector [y] and the
      state array it leaves *)
  CVode : CVodeMem -> ModelData -> realtype -> list realtype ->
          list realtype -> Z * list realtype * list realtype }.
Context {EXT : Collaborators}.

(** [&flag] *)
Definition addr_of_flag (flag : Z) : pointer :=
  {| address := flag_address; pointee := flag |}.

Definition handle (a : N) : pointer := {| address := a; pointee := 0 |}.

(** [jac_struct[i][j]] *)
Definition flag_at (jac_struct : list (list bool)) (i j : Z) : option bool :=
  row ← rd jac_struct i; rd row j.

(** The outer [n_jac_elem] is declared without a value; the counting loop
    [for (int i=0, n_jac_elem = 0; ...)] declares a second [n_jac_elem],
    local to the loop, and counts into that one.  [n_jac_elem] below is the
    value the outer variable happens to hold. *)
Definition get_jac_init (n_jac_elem : Z) (n_dep_var : Z)
    (rxn_data : rxn_buffer) : option SUNMatrix :=
  let jac_struct :=
    replicate (Z.to_nat n_dep_var) (replicate (Z.to_nat n_dep_var) false) in
  jac_struct ← rxn_get_used_jac_elem rxn_data jac_struct;
  _ ← for_loop 0 n_dep_var (fun i n_jac_elem' =>
        for_loop 0 n_dep_var (fun j n_jac_elem' =>
            b ← flag_at jac_struct i j;
            Some (if b : bool then n_jac_elem' + 1 else n_jac_elem'))
          n_jac_elem') 0;
  M ← SUNSparseMatrix n_dep_var n_dep_var n_jac_elem;
  '(i_elem, M) ← for_loop (S := Z * SUNMatrix) 0 n_dep_var
    (fun i_col '(i_elem, M) =>
      M ← set_indexptr M i_col i_elem;
      for_loop (S := Z * SUNMatrix) 0 n_dep_var (fun i_row '(i_elem, M) =>
          b ← flag_at jac_struct i_col i_row;
          if b : bool then
            M ← set_data M i_elem ONE;
            M ← set_indexval M i_elem i_row;
            Some (i_elem + 1, M)
          else Some (i_elem, M)) (i_elem, M)) (0, M);
  let i_col := Z.max 0 n_dep_var in
  set_indexptr M i_col i_elem.

(** [for (i_spec=0, i_dep_var=0; ...) if (var_type[i_spec]==
    CHEM_SPEC_VARIABLE) NV_Ith_S(y,i_dep_var++) = state[i_spec];] *)
Definition state_to_y (n_state_var : Z) (var_type : list Z)
    (state y : list realtype) : option (list realtype) :=
  '(i_dep_var, y) ← for_loop 0 n_state_var (fun i_spec '(i_dep_var, y) =>
      vt ← rd var_type i_spec;
      if vt =? CHEM_SPEC_VARIABLE then
        x ← rd state i_spec; y ← wr y i_dep_var x; Some (i_dep_var + 1, y)
      else Some (i_dep_var, y)) (0, y);
  Some y.

(** [for (i_spec=0, i_dep_var=0; ...) if (md->var_type[i_spec]==
    CHEM_SPEC_VARIABLE) md->state[i_spec] = NV_DATA_S(y)[i_dep_var++];] *)
Definition y_to_state (n_state_var : Z) (var_type : list Z)
    (y state : list realtype) : option (list realtype) :=
  '(i_dep_var, state) ← for_loop 0 n_state_var (fun i_spec '(i_dep_var, state) =>
      vt ← rd var_type i_spec;
      if vt =? CHEM_SPEC_VARIABLE then
        x ← rd y i_dep_var; state ← wr state i_spec x;
        Some (i_dep_var + 1, state)
      else Some (i_dep_var, state)) (0, state);
  Some state.

(** [for (int i; i<n_state_var; i++) if (var_type[i]==CHEM_SPEC_VARIABLE)
    (n_dep_var)++;] The loop counter is declared without a value; the
    argument [i] is the value it happens to hold. *)
Definition count_dep_var (i : Z) (n_state_var : Z) (var_type : list Z)
  : option Z :=
  for_loop i n_state_var (fun i n_dep_var =>
      vt ← rd var_type i;
      Some (if vt =? CHEM_SPEC_VARIABLE then n_dep_var + 1 else n_dep_var))
    0.

(** [for (int i=0; i<n_state_var; i++) if (var_type[i]==
    CHEM_SPEC_VARIABLE) NV_Ith_S(abstol_nv, i_dep_var++) = abstol[i];] *)
Definition set_abstol (n_state_var : Z) (var_type : list Z)
    (abstol abstol_nv : list realtype) : option (list realtype) :=
  '(i_dep_var, abstol_nv) ←
    for_loop 0 n_state_var (fun i '(i_dep_var, abstol_nv) =>
      vt ← rd var_type i;
      if vt =? CHEM_SPEC_VARIABLE then
        a ← rd abstol i; abstol_nv ← wr abstol_nv i_dep_var a;
        Some (i_dep_var + 1, abstol_nv)
      else Some (i_dep_var, abstol_nv)) (0, abstol_nv);
  Some abstol_nv.

Definition solver_initialize (i : Z) (n_jac_elem : Z)
    (n_state_var : Z) (var_type : list Z) (abstol : list realtype)
    (reltol : realtype) (max_steps max_conv_fails : Z)
    (n_rxn n_int_param n_float_param : Z) : outcome SolverData :=
  n_dep_var ← defined (count_dep_var i n_state_var var_type);
  let y := N_VNew_Serial n_dep_var in
  let rxn_data := {| n_rxn := n_rxn; records := fresh_records |} in
  _ ← check_flag_fail (handle CVodeCreate) "CVodeCreate" 0;
  _ ← check_flag_fail (addr_of_flag CVodeSetUserData) "CVodeSetUserData" 1;
  _ ← check_flag_fail (addr_of_flag CVodeInit) "CVodeInit" 1;
  abstol_nv ← defined
    (set_abstol n_state_var var_type abstol (N_VNew_Serial n_dep_var));
  _ ← check_flag_fail (addr_of_flag CVodeSVtolerances) "CVodeSVtolerances" 1;
  _ ← check_flag_fail (addr_of_flag CVodeSetMaxNumSteps)
        "CVodeSetMaxNumSteps" 1;
  _ ← check_flag_fail (addr_of_flag CVodeSetMaxConvFails)
        "CVodeSetMaxConvFails" 1;
  J ← defined (get_jac_init n_jac_elem n_dep_var rxn_data);
  _ ← check_flag_fail (handle SUNKLU) "SUNKLU" 0;
  _ ← check_flag_fail (addr_of_flag CVDlsSetLinearSolver)
        "CVDlsSetLinearSolver" 1;
  _ ← check_flag_fail (addr_of_flag CVDlsSetJacFn) "CVDlsSetJacFn" 1;
  Returns
    {| y := y;
       cvode_mem := {| cv_reltol := reltol; cv_abstol := abstol_nv;
                       cv_max_steps := max_steps;
                       cv_max_conv_fails := max_conv_fails |};
       model_data := {| n_state_var := n_state_var; var_type := var_type;
                        rxn_data := rxn_data; J_init := J |} |} [].

(** The result: the status, the solver data and the caller's [state]
    array as the call leaves them. *)
Definition solver_run (sd : SolverData) (state env : list realtype)
    (t_initial t_final : realtype)
  : outcome (Z * SolverData * list realtype) :=
  let md := model_data sd in
  y0 ← defined (state_to_y (n_state_var md) (var_type md) state (y sd));
  rxn_data ← defined (rxn_update_env_state env (rxn_data md));
  let md := {| n_state_var := n_state_var md; var_type := var_type md;
               rxn_data := rxn_data; J_init := J_init md |} in
  let flag := CVodeReInit (cvode_mem sd) t_initial y0 in
  _ ← check_flag_fail (addr_of_flag flag) "CVodeReInit" 1;
  let '(flag, y1, state) := CVode (cvode_mem sd) md t_final y0 state in
  r ← check_flag (addr_of_flag flag) "CVode" 1;
  if r =? PHLEX_SOLVER_FAIL then
    Returns (PHLEX_SOLVER_FAIL,
             {| y := y1; cvode_mem := cvode_mem sd; model_data := md |},
             state) []
  else
    y2 ← defined (state_to_y (n_state_var md) (var_type md) state y1);
    Returns (PHLEX_SOLVER_SUCCESS,
             {| y := y2; cvode_mem := cvode_mem sd; model_data := md |},
             state) [].

(** The result: the status, [deriv], and the array behind [md->state]. *)
Definition f (t : realtype) (y deriv : list realtype) (md : ModelData)
    (state : list realtype)
  : option (Z * list realtype * list realtype) :=
  state ← y_to_state (n_state_var md) (var_type md) y state;
  deriv ← for_loop 0 (Z.of_nat (length deriv)) (fun i_spec deriv =>
      wr deriv i_spec ZERO) deriv;
  deriv ← rxn_calc_deriv md state deriv;
  Some (0, deriv, state).

(** [realloc] keeps the old entries; the new ones are overwritten by the
    loop that follows before anything reads them. *)
Definition realloc {A} (a : list A) (n : Z) (fill : A) : list A :=
  take (Z.to_nat n) a ++ replicate (Z.to_nat n - length a)%nat fill.

(** The result: the status, [J], and the array behind [md->state]. *)
Definition Jac (t : realtype) (y deriv : list realtype) (J : SUNMatrix)
    (md : ModelData) (state : list realtype)
  : option (Z * SUNMatrix * list realtype) :=
  state ← y_to_state (n_state_var md) (var_type md) y state;
  let nnz := SM_NNZ_S (J_init md) in
  let shorter := SM_NNZ_S J <? nnz in
  let J := {| SM_ROWS_S := SM_ROWS_S J; SM_COLUMNS_S := SM_COLUMNS_S J;
              SM_NNZ_S := nnz; SM_NP_S := SM_NP_S J;
              SM_DATA_S := if shorter then realloc (SM_DATA_S J) nnz ZERO
                           else SM_DATA_S J;
              SM_INDEXVALS_S := if shorter
                                then realloc (SM_INDEXVALS_S J) nnz 0
                                else SM_INDEXVALS_S J;
              SM_INDEXPTRS_S := SM_INDEXPTRS_S J |} in
  J ← for_loop 0 (SM_NNZ_S J) (fun i J =>
      J ← set_data J i ZERO;
      v ← rd (SM_INDEXVALS_S (J_init md)) i;
      set_indexval J i v) J;
  J ← for_loop 0 (SM_NP_S J + 1) (fun i J =>
      v ← rd (SM_INDEXPTRS_S (J_init md)) i;
      set_indexptr J i v) J;
  J ← rxn_calc_jac md state J;
  Some (0, J, state).

End Solver.

(** ** Reference notions for the statements *)

(** The number of [CHEM_SPEC_VARIABLE] entries of a type array. *)
Fixpoint count_variable (var_type : list Z) : Z :=
  match var_type with
  | [] => 0
  | vt :: var_type =>
      (if vt =? CHEM_SPEC_VARIABLE then 1 else 0) + count_variable var_type
  end.

(** The dependent-variable index of state entry [i]: the number of
    variable entries before it. *)
Definition dep_index (var_type : list Z) (i : Z) : Z :=
  count_variable (take (Z.to_nat i) var_type).

(** The rate law of the specification, in exact arithmetic:
    A exp(C/T) (T/D)^B (1 + E P) (conv P/T)^(n_react - 1). *)
Definition arrhenius_rate_law (A B C D E conv T P : R) (n_react : Z) : R :=
  (A * exp (C / T) * Rpower (T / D) B * (1 + E * P)
   * powerRZ (conv * P / T) (n_react - 1))%R.

(** The concentrations [conc] with that of reactant [ind] replaced. *)
Definition conc_with (conc : Z -> R) (ind : Z) (x : R) (i : Z) : R :=
  if i =? ind then x else conc i.

(** The counting loop of [get_jac_init], taken by itself: it counts the
    flags into the [n_jac_elem] that it declares,
    [for (int i=0, n_jac_elem = 0; i<n_dep_var; i++)
       for (int j=0; j<n_dep_var; j++)
         if (jac_struct[i][j]==true) n_jac_elem++;] *)
Definition count_jac_elem (n_dep_var : Z) (jac_struct : list (list bool))
  : option Z :=
  for_loop 0 n_dep_var (fun i n_jac_elem' =>
      for_loop 0 n_dep_var (fun j n_jac_elem' =>
          b ← flag_at jac_struct i j;
          Some (if b : bool then n_jac_elem' + 1 else n_jac_elem'))
        n_jac_elem') 0.

Section Layout.
Context `{RT : RealType}.

(** What the copy from [y] into the state array leaves: every variable
    entry holds the entry of [y] with its dependent-variable index, every
    other entry is as before. *)
Definition written_from_y (n : Z) (var_type : list Z)
    (y state state' : list realtype) : Prop :=
  length state' = length state
  /\ (forall i vt, 0 <= i < n -> rd var_type i = Some vt ->
        rd state' i = if vt =? CHEM_SPEC_VARIABLE
                      then rd y (dep_index var_type i) else rd state i)
  /\ (forall i, n <= i -> rd state' i = rd state i).

(** A sparse matrix whose arrays have the sizes its fields announce. *)
Definition shaped (M : SUNMatrix) : Prop :=
  0 <= SM_NNZ_S M /\ 0 <= SM_NP_S M
  /\ Z.of_nat (length (SM_DATA_S M)) = SM_NNZ_S M
  /\ Z.of_nat (length (SM_INDEXVALS_S M)) = SM_NNZ_S M
  /\ Z.of_nat (length (SM_INDEXPTRS_S M)) = SM_NP_S M + 1.

(** What the copy from the state array into [y] leaves. *)
Definition written_from_state (n : Z) (var_type : list Z)
    (state y y' : list realtype) : Prop :=
  length y' = length y
  /\ (forall i, 0 <= i < n -> rd var_type i = Some CHEM_SPEC_VARIABLE ->
        rd y' (dep_index var_type i) = rd state i)
  /\ (forall j, dep_index var_type n <= j -> rd y' j = rd y j).

(** The rows that the usage matrix flags in column [col], in ascending
    order: the rows [r] with the flag (row [r], column [col]) set. *)
Definition flagged_rows (jac_struct : list (list bool)) (n col : Z)
  : list Z :=
  filter (fun r => flag_at jac_struct r col = Some true) (seqZ 0 n).

(** The row indices that a column-compressed matrix stores for column
    [col]: the entries of the index array from the column's pointer up to
    the next column's. *)
Definition stored_rows (M : SUNMatrix) (col : Z) : option (list Z) :=
  first ← rd (SM_INDEXPTRS_S M) col;
  last ← rd (SM_INDEXPTRS_S M) (col + 1);
  Some (take (Z.to_nat (last - first))
          (drop (Z.to_nat first) (SM_INDEXVALS_S M))).

(** The columns that the usage matrix flags in row [row], in ascending
    order. *)
Definition flagged_columns (jac_struct : list (list bool)) (n row : Z)
  : list Z :=
  filter (fun c => flag_at jac_struct row c = Some true) (seqZ 0 n).

(** The indices [get_jac_init] has stored when it starts on column
    [i_col]. *)
Definition stored_before (jac_struct : list (list bool)) (n i_col : Z)
  : list Z :=
  c ← seqZ 0 i_col; flagged_columns jac_struct n c.

(** The matrix of [get_jac_init] on its way: created with [NNZ] places
    for [n] columns, with the indices [stored] and the column pointers
    [ptrs] written so far. *)
Definition under_construction (NNZ n : Z) (stored ptrs : list Z)
  : SUNMatrix :=
  {| SM_ROWS_S := n; SM_COLUMNS_S := n; SM_NNZ_S := NNZ; SM_NP_S := n;
     SM_DATA_S := replicate (length stored) ONE
                  ++ replicate (Z.to_nat NNZ - length stored) ZERO;
     SM_INDEXVALS_S := stored
                       ++ replicate (Z.to_nat NNZ - length stored) 0;
     SM_INDEXPTRS_S := ptrs
                       ++ replicate (Z.to_nat (n + 1) - length ptrs) 0 |}.

(** The bytes a record occupies in the packed buffer. *)
Definition record_bytes (rxn : rxn_record) : Z :=
  sizeof_int * Z.of_nat (length (int_seg rxn))
  + sizeof_realtype * Z.of_nat (length (float_seg rxn)).

(** A record whose two segments have the sizes its two counts announce. *)
Definition well_sized (rxn : rxn_record) : bool :=
  match rd (int_seg rxn) 0, rd (int_seg rxn) 1 with
  | Some nr, Some np =>
      (0 <=? nr) && (0 <=? np)
      && (Z.of_nat (length (int_seg rxn))
            =? _NUM_INT_PROP_ + (nr + 2) * (nr + np))
      && (Z.of_nat (length (float_seg rxn)) =? _NUM_FLOAT_PROP_ + np)
  | _, _ => false
  end.

(** An accumulation step [a[slot] = g (a[slot])], and what a sequence of
    them makes of the entry [slot] that held [v]. *)
Definition apply_updates (us : list (Z * (realtype -> realtype)))
    (slot : Z) (v : realtype) : realtype :=
  foldl (fun v u => if u.1 =? slot then u.2 v else v) v us.

(** Array [a'] is array [a] after the accumulation steps [us]. *)
Definition accumulated (us : list (Z * (realtype -> realtype)))
    (a a' : list realtype) : Prop :=
  length a' = length a
  /\ forall slot v, rd a slot = Some v ->
       rd a' slot = Some (apply_updates us slot v).

(** The rate of a record with rate constant [k] whose [nr] reactants have
    the concentrations [conc 0], [conc 1], ...: the rate constant times the
    concentrations, multiplied in from the left. *)
Definition mass_action_rate (k : realtype) (conc : Z -> realtype) (nr : Z)
  : realtype :=
  foldl (fun rate i => rate * conc i)%RT k (seqZ 0 nr).

(** The Jacobian terms of a record, as the claim lists them: for every
    dependent reactant and every independent reactant, [rate / conc ind] is
    subtracted from the slot of the pair; for every dependent product and
    every independent reactant, [yield dep * rate / conc ind] is added to
    the slot of the pair.  The slot of the [e]-th pair, rows of reactants
    first, each row in column order, is [jac_id e]. *)
Definition jac_terms (nr np : Z) (jac_id : Z -> Z)
    (conc yield : Z -> realtype) (rate : realtype)
  : list (Z * (realtype -> realtype)) :=
  (dep ← seqZ 0 nr; ind ← seqZ 0 nr;
     [(jac_id (dep * nr + ind), fun v => (v - rate / conc ind)%RT)])
  ++ (dep ← seqZ 0 np; ind ← seqZ 0 nr;
        [(jac_id (nr * nr + dep * nr + ind),
          fun v => (v + yield dep * rate / conc ind)%RT)]).

(** The derivative terms of a record, as the code accumulates them: the
    rate is subtracted from the slot that each of the first [nr] derivative
    ids names, and the loop over the yields, which also runs [nr] times,
    adds [rate * yield i] to the slot that the id after those names. *)
Definition deriv_terms (nr : Z) (deriv_id : Z -> Z)
    (yield : Z -> realtype) (rate : realtype)
  : list (Z * (realtype -> realtype)) :=
  (i ← seqZ 0 nr; [(deriv_id i, fun v => (v - rate)%RT)])
  ++ (i ← seqZ 0 nr; [(deriv_id (nr + i), fun v => (v + rate * yield i)%RT)]).

(** The packed mechanism buffer is a contiguous region of memory: a
    sequence of cells, each an [int] or a [realtype]. *)
Inductive cell : Type :=
| int_cell (n : Z)
| real_cell (x : realtype).

Definition sizeof_cell (c : cell) : Z :=
  match c with
  | int_cell _ => sizeof_int
  | real_cell _ => sizeof_realtype
  end.

Definition region_bytes (cells : list cell) : Z :=
  foldr (fun c n => sizeof_cell c + n) 0 cells.

(** The cell that starts at address [a] in a region stored from address
    [base] on. *)
Fixpoint load (cells : list cell) (base a : Z) : option cell :=
  match cells with
  | [] => None
  | c :: cells =>
      if a =? base then Some c else load cells (base + sizeof_cell c) a
  end.

(** [*(int* ) a] and [*(realtype* ) a] *)
Definition load_int (cells : list cell) (base a : Z) : option Z :=
  c ← load cells base a;
  match c with int_cell n => Some n | real_cell _ => None end.

Definition load_real (cells : list cell) (base a : Z) : option realtype :=
  c ← load cells base a;
  match c with real_cell x => Some x | int_cell _ => None end.

(** The record that a record pointer gives access to, as every operation
    takes it up: [int *int_data = (int* ) rxn_data;
    realtype *float_data = (realtype* ) &(int_data[_INT_DATA_SIZE_]);], the
    integer segment being [_INT_DATA_SIZE_] integers and the real segment
    [_FLOAT_DATA_SIZE_] reals, by the counts read from the record. *)
Definition record_at (cells : list cell) (base rxn_data : Z)
  : option rxn_record :=
  nr ← load_int cells base rxn_data;
  np ← load_int cells base (rxn_data + sizeof_int);
  let isz := _NUM_INT_PROP_ + (nr + 2) * (nr + np) in
  let fsz := _NUM_FLOAT_PROP_ + np in
  int_data ← mapM (fun i => load_int cells base (rxn_data + sizeof_int * i))
                  (seqZ 0 isz);
  float_data ← mapM (fun j => load_real cells base
                                (rxn_data + sizeof_int * isz
                                 + sizeof_realtype * j))
                    (seqZ 0 fsz);
  Some {| int_seg := int_data; float_seg := float_data |}.

(** Modelled from the spec: the traversal loops of [rxn_solver.c] are not
    in the source tree.  The buffer holds "one header (reaction count)
    followed by a sequence of self-delimiting reaction records. No global
    index; traversal is pointer-chasing": the count is read from the
    header, the cursor starts behind it, and every step hands the record at
    the cursor to the operation and moves the cursor to the pointer that
    the operation returns.  The operation threads a state of its own (the
    usage matrix, the derivative, ...); an operation that writes to its
    record writes where no later step reads, and the records it leaves are
    collected in that state.  The result is the final cursor, the records
    visited, and the final state. *)
Definition traverse {S} (advance : Z -> rxn_record -> S -> option (Z * S))
    (cells : list cell) (base : Z) (s : S)
  : option (Z * list rxn_record * S) :=
  n_rxn ← load_int cells base base;
  for_loop 0 n_rxn (fun _ '(rxn_data, visited, s) =>
      rxn ← record_at cells base rxn_data;
      '(next, s) ← advance rxn_data rxn s;
      Some (next, visited ++ [rxn], s))
    (base + sizeof_int, [], s).

(** The buffer of a mechanism: the reaction count, then the records, each
    as its integers followed by its reals. *)
Definition pack_record (rxn : rxn_record) : list cell :=
  (int_cell <$> int_seg rxn) ++ (real_cell <$> float_seg rxn).

Definition pack (n_rxn : Z) (rxns : list rxn_record) : list cell :=
  int_cell n_rxn :: (rxns ≫= pack_record).

(** An index inside an array. *)
Definition within {A} (a : list A) (i : Z) : bool :=
  (0 <=? i) && (i <? Z.of_nat (length a)).

(** The arrays that an operation is handed are large enough for a record:
    the species of its reactants are entries of the state array, its
    derivative ids entries of the derivative, its Jacobian ids entries of
    the Jacobian data, and the flags it sets are flags of the usage
    matrix. *)
Definition species_within (state : list realtype) (rxn : rxn_record)
  : bool :=
  match _NUM_REACT_ (int_seg rxn) with
  | Some nr =>
      forallb (fun i => from_option (within state) false
                          (_REACT_ (int_seg rxn) i)) (seqZ 0 nr)
  | None => false
  end.

Definition deriv_ids_within (deriv : list realtype) (rxn : rxn_record)
  : bool :=
  match _NUM_REACT_ (int_seg rxn), _NUM_PROD_ (int_seg rxn) with
  | Some nr, Some np =>
      forallb (fun e => from_option (within deriv) false
                          (_DERIV_ID_ (int_seg rxn) e)) (seqZ 0 (nr + np))
  | _, _ => false
  end.

Definition jac_ids_within (J : list realtype) (rxn : rxn_record) : bool :=
  match _NUM_REACT_ (int_seg rxn), _NUM_PROD_ (int_seg rxn) with
  | Some nr, Some np =>
      forallb (fun e => from_option (within J) false
                          (_JAC_ID_ (int_seg rxn) e))
        (seqZ 0 (nr * (nr + np)))
  | _, _ => false
  end.

Definition marks_within (jac_struct : list (list bool)) (rxn : rxn_record)
  : bool :=
  match _NUM_REACT_ (int_seg rxn), _NUM_PROD_ (int_seg rxn) with
  | Some nr, Some np =>
      forallb (fun i =>
          forallb (fun j => bool_decide (is_Some (flag_at jac_struct i j)))
            (seqZ 0 nr)) (seqZ 0 (Z.max nr np))
  | _, _ => false
  end.

(** The record has a yield for every reactant: the second loop of
    [rxn_arrhenius_calc_deriv_contrib] reads one yield per reactant. *)
Definition yields_cover_reactants (rxn : rxn_record) : bool :=
  match _NUM_REACT_ (int_seg rxn), _NUM_PROD_ (int_seg rxn) with
  | Some nr, Some np => nr <=? np
  | _, _ => false
  end.

(** The integers and the reals that the records of a mechanism hold. *)
Definition int_count (rxns : list rxn_record) : Z :=
  foldr (fun rxn n => Z.of_nat (length (int_seg rxn)) + n) 0 rxns.

Definition float_count (rxns : list rxn_record) : Z :=
  foldr (fun rxn n => Z.of_nat (length (float_seg rxn)) + n) 0 rxns.

(** The address behind the buffer that [solver_initialize] allocates, when
    it is stored at [base]:
    [malloc(n_int_param * sizeof(int) + n_float_param * sizeof(realtype))].
    Its first [int] is the reaction count and the first record is at
    [&(ptr[1])]. *)
Definition buffer_end (base n_int_param n_float_param : Z) : Z :=
  base + n_int_param * sizeof_int + n_float_param * sizeof_realtype.

(** Modelled from the spec: the marking pass of [rxn_solver.c], for a
    mechanism of Arrhenius records: "for every record, call its mark used
    elements operation; advance to the next record". *)
Fixpoint mark_all (rxn_data : Z) (rxns : list rxn_record)
    (jac_struct : list (list bool)) : option (list (list bool)) :=
  match rxns with
  | [] => Some jac_struct
  | rxn :: rxns =>
      '(next, jac_struct) ←
        rxn_arrhenius_get_used_jac_elem rxn_data rxn jac_struct;
      mark_all next rxns jac_struct
  end.

End Layout.

(** ** Concrete inputs (binary64) *)

Definition record64 (i : list Z) (x : list float) : @rxn_record binary64 :=
  @Build_rxn_record binary64 i x.

(** One reactant (species 0), two products (species 1 and 2), rate
    constant 1, both yields 1. *)
Definition one_to_two : @rxn_record binary64 :=
  record64 [1; 2;  0;  1; 2;  0; 1; 2;  0; 1; 2]
           [1; 0; 0; 1; 0; 1; 1;  1; 1]%float.

(** Two reactants (species 0 and 1), one product (species 2), rate
    constant 1, yield 1. *)
Definition two_to_one : @rxn_record binary64 :=
  record64 [2; 1;  0; 1;  2;  0; 1; 2;  0; 1; 2; 3; 4; 5]
           [1; 0; 0; 1; 0; 1; 1;  1]%float.

(** The same record with the memory behind it in view: the next real in
    the buffer is 0.5. *)
Definition two_to_one_followed : @rxn_record binary64 :=
  record64 [2; 1;  0; 1;  2;  0; 1; 2;  0; 1; 2; 3; 4; 5]
           [1; 0; 0; 1; 0; 1; 1;  1;  0.5]%float.

(** Two reactants (species 0 and 1), two products (species 2 and 3), rate
    constant 2^600, both yields 1. *)
Definition two_to_two_fast : @rxn_record binary64 :=
  record64 [2; 2;  0; 1;  2; 3;  0; 1; 2; 3;  0; 1; 2; 3; 4; 5; 6; 7]
           [1; 0; 0; 1; 0; 1; 0x1p+600;  1; 1]%float.

(** Collaborators for a mechanism of Arrhenius records; every SUNDIALS
    setup call succeeds, and [CVode] returns [cvode_flag], halves the
    entries of [y] and leaves the state array as it is. *)
Definition collaborators64 (cvode_flag : Z) : @Collaborators binary64 :=
  {| rxn_get_used_jac_elem := fun buf js => mark_all 0 (records buf) js;
     rxn_update_env_state := fun _ buf => Some buf;
     rxn_calc_deriv := fun _ _ deriv => Some deriv;
     rxn_calc_jac := fun _ _ J => Some J;
     fresh_records := [];
     flag_address := 4096%N;
     CVodeCreate := 8192%N;
     CVodeSetUserData := 0;
     CVodeInit := 0;
     CVodeSVtolerances := 0;
     CVodeSetMaxNumSteps := 0;
     CVodeSetMaxConvFails := 0;
     SUNKLU := 12288%N;
     CVDlsSetLinearSolver := 0;
     CVDlsSetJacFn := 0;
     CVodeReInit := fun _ _ _ => 0;
     CVode := fun _ _ _ y state =>
       (cvode_flag, (fun x => x * 0.5)%float <$> y, state) |}.

(** The same collaborators, except that [CVodeCreate] returns [NULL]. *)
Definition collaborators64_no_cvode : @Collaborators binary64 :=
  {| rxn_get_used_jac_elem := fun buf js => mark_all 0 (records buf) js;
     rxn_update_env_state := fun _ buf => Some buf;
     rxn_calc_deriv := fun _ _ deriv => Some deriv;
     rxn_calc_jac := fun _ _ J => Some J;
     fresh_records := [];
     flag_address := 4096%N;
     CVodeCreate := 0%N;
     CVodeSetUserData := 0;
     CVodeInit := 0;
     CVodeSVtolerances := 0;
     CVodeSetMaxNumSteps := 0;
     CVodeSetMaxConvFails := 0;
     SUNKLU := 12288%N;
     CVDlsSetLinearSolver := 0;
     CVDlsSetJacFn := 0;
     CVodeReInit := fun _ _ _ => 0;
     CVode := fun _ _ _ y state => (0, y, state) |}.

Definition solver_data64 : @SolverData binary64 :=
  @Build_SolverData binary64 [0%float]
    (@Build_CVodeMem binary64 1%float [1%float] 10 10)
    (@Build_ModelData binary64 1 [CHEM_SPEC_VARIABLE]
       (@Build_rxn_buffer binary64 0 [])
       (@Build_SUNMatrix binary64 1 1 0 1 [] [] [0; 0])).

(** Three state entries, the middle one constant; an empty mechanism. *)
Definition J_empty64 : @SUNMatrix binary64 :=
  @Build_SUNMatrix binary64 2 2 0 2 [] [] [0; 0; 0].

Definition model_data64 : @ModelData binary64 :=
  @Build_ModelData binary64 3
    [CHEM_SPEC_VARIABLE; CHEM_SPEC_CONSTANT; CHEM_SPEC_VARIABLE]
    (@Build_rxn_buffer binary64 0 []) J_empty64.

Definition solver_data64_3 : @SolverData binary64 :=
  @Build_SolverData binary64 [0; 0]%float
    (@Build_CVodeMem binary64 1%float [1; 1]%float 10 10) model_data64.

(** * Properties *)

(** ** Arrays and loops *)

Section ArrayFacts.
Context {A : Type}.
Implicit Types (a : list A) (i j : Z) (v x : A).

Lemma rd_Some a i x :
  rd a i = Some x <-> 0 <= i /\ a !! Z.to_nat i = Some x.
Proof.
  unfold rd. destruct (Z.ltb_spec i 0); split; try intros [? ?]; try lia;
    auto; discriminate.
Qed.

Lemma rd_in_range a i : 0 <= i < Z.of_nat (length a) -> is_Some (rd a i).
Proof.
  intros Hi. unfold rd. destruct (Z.ltb_spec i 0); [lia|].
  apply lookup_lt_is_Some. lia.
Qed.

Lemma rd_range a i x : rd a i = Some x -> 0 <= i < Z.of_nat (length a).
Proof.
  intros [Hi Hx]%rd_Some. apply lookup_lt_Some in Hx. lia.
Qed.

Lemma wr_in_range a i v :
  0 <= i < Z.of_nat (length a) -> wr a i v = Some (<[Z.to_nat i := v]> a).
Proof.
  intros Hi. unfold wr.
  destruct (Z.leb_spec 0 i); [|lia].
  destruct (Z.ltb_spec i (Z.of_nat (length a))); [done|lia].
Qed.

Lemma wr_Some a i v a' :
  wr a i v = Some a' ->
  0 <= i < Z.of_nat (length a) /\ a' = <[Z.to_nat i := v]> a.
Proof.
  unfold wr. destruct (Z.leb_spec 0 i); simpl; [|discriminate].
  destruct (Z.ltb_spec i (Z.of_nat (length a))); [|discriminate].
  intros [= <-]. split; [lia|done].
Qed.

Lemma wr_length a i v a' : wr a i v = Some a' -> length a' = length a.
Proof. intros [_ ->]%wr_Some. apply length_insert. Qed.

Lemma rd_wr_same a i v a' : wr a i v = Some a' -> rd a' i = Some v.
Proof.
  intros [Hi ->]%wr_Some. apply rd_Some. split; [lia|].
  apply list_lookup_insert_eq. lia.
Qed.

Lemma rd_wr_other a i j v a' :
  wr a i v = Some a' -> i <> j -> rd a' j = rd a j.
Proof.
  intros [Hi ->]%wr_Some Hne. unfold rd.
  destruct (Z.ltb_spec j 0); [done|].
  apply list_lookup_insert_ne. lia.
Qed.

End ArrayFacts.

Section LoopFacts.
Context {S : Type}.
Implicit Types (body : Z -> S -> option S) (s : S) (lo hi i : Z).

Lemma for_loop_done lo hi body s : hi <= lo -> for_loop lo hi body s = Some s.
Proof.
  intros H. unfold for_loop. by replace (Z.to_nat (hi - lo)) with O by lia.
Qed.

Lemma for_loop_first lo hi body s :
  lo < hi -> for_loop lo hi body s = body lo s ≫= for_loop (lo + 1) hi body.
Proof.
  intros H. unfold for_loop.
  replace (Z.to_nat (hi - lo)) with (Datatypes.S (Z.to_nat (hi - (lo + 1))))
    by lia.
  done.
Qed.

Lemma iterate_S k i body s :
  iterate (Datatypes.S k) i body s = body i s ≫= iterate k (i + 1) body.
Proof. done. Qed.

Lemma iterate_last k i body s :
  iterate (Datatypes.S k) i body s
  = iterate k i body s ≫= body (i + Z.of_nat k).
Proof.
  revert i s. induction k as [|k IH]; intros i s.
  - simpl. replace (i + Z.of_nat 0) with i by lia. by destruct (body i s).
  - rewrite (iterate_S (Datatypes.S k)), (iterate_S k).
    destruct (body i s) as [s'|]; [|done].
    change (iterate (Datatypes.S k) (i + 1) body s'
            = iterate k (i + 1) body s'
              ≫= body (i + Z.of_nat (Datatypes.S k))).
    rewrite IH. f_equal. f_equal. lia.
Qed.

Lemma for_loop_last lo hi body s :
  lo <= hi ->
  for_loop lo (hi + 1) body s = for_loop lo hi body s ≫= body hi.
Proof.
  intros H. unfold for_loop.
  replace (Z.to_nat (hi + 1 - lo)) with (Datatypes.S (Z.to_nat (hi - lo)))
    by lia.
  rewrite iterate_last. by replace (lo + Z.of_nat (Z.to_nat (hi - lo))) with hi by lia.
Qed.

(** The invariant rule: the loop returns, in a state the invariant holds
    of. *)
Lemma for_loop_invariant (I : Z -> S -> Prop) lo hi body s :
  lo <= hi -> I lo s ->
  (forall i s, lo <= i < hi -> I i s ->
     exists s', body i s = Some s' /\ I (i + 1) s') ->
  exists s', for_loop lo hi body s = Some s' /\ I hi s'.
Proof.
  intros Hle H0 Hstep.
  assert (forall k : nat, Z.of_nat k <= hi - lo ->
    exists s', for_loop lo (lo + Z.of_nat k) body s = Some s'
               /\ I (lo + Z.of_nat k) s') as Hk.
  { induction k as [|k IH]; intros Hb.
    - exists s. rewrite for_loop_done by lia.
      by replace (lo + Z.of_nat 0) with lo by lia.
    - destruct IH as (s1 & Hrun & HI); [lia|].
      destruct (Hstep (lo + Z.of_nat k) s1) as (s2 & Hb2 & HI2); [lia|done|].
      exists s2. replace (lo + Z.of_nat (Datatypes.S k)) with (lo + Z.of_nat k + 1) by lia.
      rewrite for_loop_last by lia. rewrite Hrun. simpl. done. }
  destruct (Hk (Z.to_nat (hi - lo))) as (s' & Hrun & HI); [lia|].
  replace (lo + Z.of_nat (Z.to_nat (hi - lo))) with hi in * by lia. eauto.
Qed.

End LoopFacts.

Lemma seqZ_one m : seqZ m 1 = [m].
Proof. reflexivity. Qed.

Lemma seqZ_bind_last {A} (g : Z -> list A) n :
  0 <= n -> seqZ 0 (n + 1) ≫= g = (seqZ 0 n ≫= g) ++ g n.
Proof.
  intros Hn. rewrite (seqZ_app 0 n 1), bind_app, seqZ_one by lia.
  f_equal. simpl. by rewrite app_nil_r.
Qed.

Lemma seqZ_foldl_last {A} (g : A -> Z -> A) a n :
  0 <= n -> foldl g a (seqZ 0 (n + 1)) = g (foldl g a (seqZ 0 n)) n.
Proof.
  intros Hn. by rewrite (seqZ_app 0 n 1), foldl_app, seqZ_one by lia.
Qed.

(** ** The integer flag check (C4) *)

Lemma check_flag_int_check flag_value func_name :
  check_flag flag_value func_name 1 = Returns PHLEX_SOLVER_SUCCESS [].
Proof.
  unfold check_flag. simpl.
  destruct (address flag_value <? 0)%N eqn:Hlt; [|done].
  apply N.ltb_lt in Hlt. lia.
Qed.

Lemma check_flag_fail_int_check flag_value func_name :
  check_flag_fail flag_value func_name 1 = Returns tt [].
Proof. unfold check_flag_fail. by rewrite check_flag_int_check. Qed.

Lemma solver_run_never_fails `{RT : RealType} {EXT : Collaborators}
    sd state env t_initial t_final status sd' state' err :
  solver_run sd state env t_initial t_final
    = Returns (status, sd', state') err ->
  status = PHLEX_SOLVER_SUCCESS.
Proof.
  unfold solver_run.
  destruct (state_to_y _ _ state (y sd)) as [y0|]; [|done].
  destruct (rxn_update_env_state env _) as [buf|]; [|done].
  cbn [defined mbind outcome_mbind outcome_bind].
  rewrite check_flag_fail_int_check.
  destruct (CVode _ _ _ _ _) as [[flag y1] state1].
  rewrite check_flag_int_check.
  cbn [defined mbind outcome_mbind outcome_bind Z.eqb PHLEX_SOLVER_SUCCESS
       PHLEX_SOLVER_FAIL].
  destruct (state_to_y _ _ state1 y1) as [y2|]; [|done].
  cbn. congruence.
Qed.

(** C4 (the code departs from the claim).  With [opt] = 1 and a flag of -1,
    [check_flag] prints nothing and returns [PHLEX_SOLVER_SUCCESS],
    [check_flag_fail] returns instead of exiting, and [solver_run] returns
    [PHLEX_SOLVER_SUCCESS] although [CVode] returned -1. *)
Theorem check_flag_misses_negative_flag :
  check_flag {| address := 4096; pointee := -1 |} "CVode" 1
  = Returns PHLEX_SOLVER_SUCCESS []
  /\ check_flag_fail {| address := 4096; pointee := -1 |} "CVodeInit" 1
     = Returns tt []
  /\ solver_run (EXT := collaborators64 (-1)) solver_data64
       [5%float] [300%float; 101325%float] 0%float 1%float
     = Returns (PHLEX_SOLVER_SUCCESS,
                @Build_SolverData binary64 [5%float]
                  (cvode_mem solver_data64) (model_data solver_data64),
                [5%float]) [].
Proof. repeat split; vm_compute; reflexivity. Qed.

(** ** The dependent-variable count (C5) *)

(** C5 (the code departs from the claim).  When the counter [i] of the
    counting loop, which is declared without a value, holds 1, a state with
    a single variable entry is counted as having no dependent variable, and
    filling the tolerance vector then writes outside it. *)
Theorem count_dep_var_starts_anywhere :
  count_dep_var 1 1 [CHEM_SPEC_VARIABLE] = Some 0
  /\ count_variable [CHEM_SPEC_VARIABLE] = 1
  /\ solver_initialize (EXT := collaborators64 0) 1 0
       1 [CHEM_SPEC_VARIABLE] [1%float] 1%float 10 10 0 1 0
     = Undefined.
Proof. repeat split; vm_compute; reflexivity. Qed.

(** ** The derivative contribution (C1) *)

(** C1 (the code departs from the claim).  The production loop runs once
    per reactant, not once per product.  For one reactant at concentration
    2 and two products, with rate constant and yields 1, the second
    product receives nothing.  For the two-reactant, one-product record with
    concentrations 2 and 3 the loop makes a second pass, which reads a yield
    behind the record's last one; when the real found there is 0.5, the pass
    adds 6 * 0.5 to the slot that the record's first Jacobian id names, here
    the slot of the first reactant, which ends at -3 instead of -6. *)
Theorem deriv_contrib_production_loop :
  rxn_arrhenius_calc_deriv_contrib (RT := binary64)
    [2; 0; 0]%float [0; 0; 0]%float 0 one_to_two
  = Some (116, [-2; 2; 0]%float)
  /\ rxn_arrhenius_calc_deriv_contrib (RT := binary64)
       [2; 3; 0]%float [0; 0; 0]%float 0 two_to_one
     = None
  /\ rxn_arrhenius_calc_deriv_contrib (RT := binary64)
       [2; 3; 0]%float [0; 0; 0]%float 0 two_to_one_followed
     = Some (120, [-3; -6; 6]%float).
Proof. repeat split; vm_compute; reflexivity. Qed.

(** ** The sparse structure (C2) *)

(** C2 (the code departs from the claim).  For the record with one
    reactant and two products the marking pass sets the flags (row 0,
    column 0) and (row 1, column 0): column 0 has rows 0 and 1, column 1 has
    none.  [get_jac_init] emits row 0 in column 0 and row 0 in column 1,
    and its [NNZ] field is whatever the outer [n_jac_elem] held; when that
    is 0, the first entry is written outside the arrays. *)
Theorem get_jac_init_transposed :
  let marked := [[true; false]; [true; false]] in
  let M := @Build_SUNMatrix binary64 2 2 5 2
             [1; 1; 0; 0; 0]%float [0; 0; 0; 0; 0] [0; 1; 2] in
  mark_all (RT := binary64) 0 [one_to_two] (replicate 2 (replicate 2 false))
  = Some marked
  /\ get_jac_init (EXT := collaborators64 0) 5 2
       (@Build_rxn_buffer binary64 1 [one_to_two])
     = Some M
  /\ flagged_rows marked 2 0 = [0; 1] /\ stored_rows M 0 = Some [0]
  /\ flagged_rows marked 2 1 = [] /\ stored_rows M 1 = Some [0]
  /\ get_jac_init (EXT := collaborators64 0) 0 2
       (@Build_rxn_buffer binary64 1 [one_to_two])
     = None.
Proof. cbv zeta. repeat split; vm_compute; reflexivity. Qed.

(** *** What [get_jac_init] stores, for any usage matrix *)

Lemma wr_next {A} (l : list A) k d v i :
  i = Z.of_nat (length l) -> (0 < k)%nat ->
  wr (l ++ replicate k d) i v = Some ((l ++ [v]) ++ replicate (k - 1) d).
Proof.
  intros -> Hk. rewrite wr_in_range.
  - f_equal. rewrite Nat2Z.id. destruct k as [|k]; [lia|].
    replace (length l) with (length l + 0)%nat at 1 by lia.
    rewrite insert_app_r. simpl. rewrite Nat.sub_0_r.
    by rewrite <- app_assoc.
  - rewrite length_app, length_replicate. lia.
Qed.

Section GetJacInit.
Context `{RT : RealType} {EXT : Collaborators}.
Variables (NNZ n : Z) (jac_struct : list (list bool)).
Hypothesis Hn : 0 < n.
Hypothesis Hrows : Z.of_nat (length jac_struct) = n.
Hypothesis Hcols : Forall (fun row => Z.of_nat (length row) = n) jac_struct.
Hypothesis Hroom : Z.of_nat (length (stored_before jac_struct n n)) <= NNZ.

Lemma flag_at_in_range i j :
  0 <= i < n -> 0 <= j < n -> is_Some (flag_at jac_struct i j).
Proof using Hrows Hcols.
  intros Hi Hj. unfold flag_at.
  destruct (rd_in_range jac_struct i) as [row Hrow]; [lia|].
  rewrite Hrow. simpl. apply rd_in_range.
  apply rd_Some in Hrow as [_ Hrow%list_elem_of_lookup_2].
  rewrite Forall_forall in Hcols. rewrite (Hcols row Hrow). done.
Qed.

Lemma flagged_columns_next c r b :
  0 <= r -> flag_at jac_struct c r = Some b ->
  filter (fun r => flag_at jac_struct c r = Some true) (seqZ 0 (r + 1))
  = filter (fun r => flag_at jac_struct c r = Some true) (seqZ 0 r)
    ++ (if b then [r] else []).
Proof.
  clear Hn Hrows Hcols Hroom.
  intros Hr Hb. rewrite (seqZ_app 0 r 1) by lia. change (0 + r) with r.
  rewrite seqZ_one, filter_app. f_equal. destruct b.
  - by rewrite filter_cons_True.
  - rewrite filter_cons_False; [done|]. cbn beta. congruence.
Qed.

Lemma flagged_columns_prefix c r :
  0 <= r <= n ->
  (length (filter (fun r => flag_at jac_struct c r = Some true) (seqZ 0 r))
   <= length (flagged_columns jac_struct n c))%nat.
Proof.
  clear Hn Hrows Hcols Hroom.
  intros Hr. unfold flagged_columns.
  assert (seqZ 0 n = seqZ 0 r ++ seqZ (0 + r) (n - r)) as ->
    by (rewrite <- seqZ_app by lia; f_equal; lia).
  rewrite filter_app, length_app. lia.
Qed.

Lemma stored_before_next c :
  0 <= c ->
  stored_before jac_struct n (c + 1)
  = stored_before jac_struct n c ++ flagged_columns jac_struct n c.
Proof.
  clear Hn Hrows Hcols Hroom.
  intros Hc. unfold stored_before. by rewrite seqZ_bind_last.
Qed.

Lemma stored_before_prefix c :
  0 <= c <= n ->
  exists rest,
    stored_before jac_struct n n = stored_before jac_struct n c ++ rest.
Proof.
  clear Hn Hrows Hcols Hroom.
  intros Hc. unfold stored_before.
  assert (seqZ 0 n = seqZ 0 c ++ seqZ (0 + c) (n - c)) as ->
    by (rewrite <- seqZ_app by lia; f_equal; lia).
  rewrite bind_app. eauto.
Qed.

Lemma store_index stored ptrs r :
  (length stored < Z.to_nat NNZ)%nat ->
  (M ← set_data (under_construction NNZ n stored ptrs)
         (Z.of_nat (length stored)) ONE;
   set_indexval M (Z.of_nat (length stored)) r)
  = Some (under_construction NNZ n (stored ++ [r]) ptrs).
Proof.
  clear Hn Hrows Hcols Hroom.
  intros Hlt. unfold set_data, set_indexval, under_construction.
  cbn [SM_DATA_S SM_INDEXVALS_S SM_INDEXPTRS_S SM_ROWS_S SM_COLUMNS_S
       SM_NNZ_S SM_NP_S].
  rewrite wr_next; [|by rewrite length_replicate|lia].
  cbn [mbind option_bind SM_DATA_S SM_INDEXVALS_S SM_INDEXPTRS_S SM_ROWS_S
       SM_COLUMNS_S SM_NNZ_S SM_NP_S].
  rewrite wr_next; [|done|lia]. cbn [mbind option_bind].
  rewrite length_app. simpl. rewrite <- replicate_S_end.
  replace (length stored + 1)%nat with (S (length stored)) by lia.
  replace (Z.to_nat NNZ - length stored - 1)%nat
    with (Z.to_nat NNZ - S (length stored))%nat by lia.
  done.
Qed.

Lemma store_pointer stored ptrs i v :
  i = Z.of_nat (length ptrs) -> (length ptrs < Z.to_nat (n + 1))%nat ->
  set_indexptr (under_construction NNZ n stored ptrs) i v
  = Some (under_construction NNZ n stored (ptrs ++ [v])).
Proof.
  clear Hn Hrows Hcols Hroom.
  intros -> Hlt. unfold set_indexptr, under_construction.
  cbn [SM_DATA_S SM_INDEXVALS_S SM_INDEXPTRS_S SM_ROWS_S SM_COLUMNS_S
       SM_NNZ_S SM_NP_S].
  rewrite wr_next; [|done|lia]. cbn [mbind option_bind].
  rewrite length_app. simpl.
  replace (Z.to_nat (n + 1) - length ptrs - 1)%nat
    with (Z.to_nat (n + 1) - (length ptrs + 1))%nat by lia.
  done.
Qed.

(** The column pointers written before column [i_col]. *)
Local Abbreviation pointers_before i_col :=
  ((fun c => Z.of_nat (length (stored_before jac_struct n c)))
     <$> seqZ 0 i_col).

Lemma pointers_before_next c :
  0 <= c ->
  pointers_before (c + 1)
  = pointers_before c
    ++ [Z.of_nat (length (stored_before jac_struct n c))].
Proof.
  clear Hn Hrows Hcols Hroom.
  intros Hc. rewrite (seqZ_app 0 c 1), fmap_app by lia.
  change (0 + c) with c. by rewrite seqZ_one.
Qed.

(** The inner loop: the indices flagged in [jac_struct[i_col]] are
    appended. *)
Lemma compress_column c stored ptrs :
  0 <= c < n ->
  (length (stored ++ flagged_columns jac_struct n c) <= Z.to_nat NNZ)%nat ->
  for_loop (S := Z * SUNMatrix) 0 n (fun i_row '(i_elem, M) =>
      b ← flag_at jac_struct c i_row;
      if b : bool then
        M ← set_data M i_elem ONE;
        M ← set_indexval M i_elem i_row;
        Some (i_elem + 1, M)
      else Some (i_elem, M))
    (Z.of_nat (length stored), under_construction NNZ n stored ptrs)
  = Some (Z.of_nat (length (stored ++ flagged_columns jac_struct n c)),
          under_construction NNZ n
            (stored ++ flagged_columns jac_struct n c) ptrs).
Proof using Hn Hrows Hcols.
  clear Hroom. intros Hc Hroom.
  set (upto r := filter (fun r => flag_at jac_struct c r = Some true)
                   (seqZ 0 r)).
  edestruct (for_loop_invariant
    (fun r (s : Z * SUNMatrix) =>
       s = (Z.of_nat (length (stored ++ upto r)),
            under_construction NNZ n (stored ++ upto r) ptrs)) 0 n)
    as (s & -> & ->); [lia| | |done].
  - unfold upto. simpl. by rewrite app_nil_r.
  - intros r s Hr ->. cbn beta iota.
    destruct (flag_at_in_range c r) as [b Hb]; [lia|lia|].
    rewrite Hb. cbn [mbind option_bind].
    assert (upto (r + 1) = upto r ++ (if b then [r] else [])) as Hnext
      by (apply flagged_columns_next; [lia|done]).
    pose proof (flagged_columns_prefix c (r + 1) ltac:(lia)) as Hpre.
    fold (upto (r + 1)) in Hpre. rewrite Hnext, length_app in Hpre.
    rewrite Hnext. rewrite length_app in Hroom.
    destruct b.
    + simpl in Hpre.
      assert (length (stored ++ upto r) < Z.to_nat NNZ)%nat as Hlt
        by (rewrite length_app; lia).
      pose proof (store_index (stored ++ upto r) ptrs r Hlt) as Hstore.
      destruct (set_data _ _ ONE) as [M1|]; [|discriminate Hstore].
      cbn [mbind option_bind] in *. rewrite Hstore.
      cbn [mbind option_bind].
      eexists. split; [done|]. rewrite !app_assoc, !length_app. simpl.
      do 2 f_equal. lia.
    + eexists. split; [done|]. by rewrite app_nil_r.
Qed.

(** The loop over the columns. *)
Lemma compress_columns :
  for_loop (S := Z * SUNMatrix) 0 n (fun i_col '(i_elem, M) =>
      M ← set_indexptr M i_col i_elem;
      for_loop (S := Z * SUNMatrix) 0 n (fun i_row '(i_elem, M) =>
          b ← flag_at jac_struct i_col i_row;
          if b : bool then
            M ← set_data M i_elem ONE;
            M ← set_indexval M i_elem i_row;
            Some (i_elem + 1, M)
          else Some (i_elem, M)) (i_elem, M))
    (0, under_construction NNZ n [] [])
  = Some (Z.of_nat (length (stored_before jac_struct n n)),
          under_construction NNZ n (stored_before jac_struct n n)
            (pointers_before n)).
Proof using Hn Hrows Hcols Hroom.
  edestruct (for_loop_invariant
    (fun c (s : Z * SUNMatrix) =>
       s = (Z.of_nat (length (stored_before jac_struct n c)),
            under_construction NNZ n (stored_before jac_struct n c)
              (pointers_before c))) 0 n)
    as (s & -> & ->); [lia|done| |done].
  intros c s Hc ->. cbn beta iota.
  destruct (stored_before_prefix (c + 1)) as [rest Hrest]; [lia|].
  rewrite Hrest, length_app in Hroom.
  rewrite (stored_before_next c) in * by lia.
  rewrite store_pointer by (rewrite length_fmap, length_seqZ; lia).
  cbn [mbind option_bind]. rewrite <- pointers_before_next by lia.
  rewrite compress_column by lia. eauto.
Qed.

Lemma count_loop_returns :
  is_Some (for_loop 0 n (fun i n_jac_elem' =>
      for_loop 0 n (fun j n_jac_elem' =>
          b ← flag_at jac_struct i j;
          Some (if b : bool then n_jac_elem' + 1 else n_jac_elem'))
        n_jac_elem') 0).
Proof using Hn Hrows Hcols.
  clear Hroom.
  edestruct (for_loop_invariant (fun (_ _ : Z) => True) 0 n)
    as (c & -> & _); [lia|done| |done].
  intros i c Hi _. cbn beta.
  edestruct (for_loop_invariant (fun (_ _ : Z) => True) 0 n)
    as (c' & -> & _); [lia|done| |by eexists].
  intros j c' Hj _. cbn beta.
  destruct (flag_at_in_range i j) as [b ->]; [lia|lia|]. by eexists.
Qed.

Lemma pointers_before_lookup c m :
  0 <= c < m ->
  rd (pointers_before m) c
  = Some (Z.of_nat (length (stored_before jac_struct n c))).
Proof.
  clear Hn Hrows Hcols Hroom.
  intros Hc. unfold rd. destruct (Z.ltb_spec c 0); [lia|].
  rewrite list_lookup_fmap, lookup_seqZ_lt by lia. simpl.
  by rewrite Z2Nat.id by lia.
Qed.

(** Whatever the usage matrix, [get_jac_init] stores in column [c] the
    indices [r] with [jac_struct[c][r]] set: the columns flagged in row
    [c], not the rows flagged in column [c].  The [NNZ] field is the value
    the outer [n_jac_elem] held, which has to leave room for the flags. *)
Lemma get_jac_init_stores rxn_data :
  rxn_get_used_jac_elem rxn_data
    (replicate (Z.to_nat n) (replicate (Z.to_nat n) false))
  = Some jac_struct ->
  exists M,
    get_jac_init NNZ n rxn_data = Some M
    /\ SM_NNZ_S M = NNZ
    /\ (forall c, 0 <= c < n ->
          stored_rows M c = Some (flagged_columns jac_struct n c))
    /\ (forall e,
          0 <= e < Z.of_nat (length (stored_before jac_struct n n)) ->
          rd (SM_DATA_S M) e = Some ONE).
Proof using Hn Hrows Hcols Hroom.
  intros Hmark. unfold get_jac_init. rewrite Hmark.
  cbn [mbind option_bind].
  destruct count_loop_returns as [cnt ->]. cbn [mbind option_bind].
  assert (SUNSparseMatrix n n NNZ = Some (under_construction NNZ n [] []))
    as ->.
  { unfold SUNSparseMatrix, under_construction.
    destruct (Z.leb_spec n 0); [lia|].
    destruct (Z.ltb_spec NNZ 0); [lia|]. simpl.
    by rewrite !Nat.sub_0_r. }
  cbn [mbind option_bind]. rewrite compress_columns.
  cbn [mbind option_bind]. rewrite Z.max_r by lia.
  rewrite store_pointer by (rewrite length_fmap, length_seqZ; lia).
  rewrite <- pointers_before_next by lia.
  eexists. split; [done|]. split; [done|]. split.
  - intros c Hc. unfold stored_rows, under_construction.
    cbn [SM_INDEXPTRS_S SM_INDEXVALS_S].
    rewrite length_fmap, length_seqZ, Nat.sub_diag. simpl.
    rewrite app_nil_r, !pointers_before_lookup by lia.
    cbn [mbind option_bind]. f_equal.
    destruct (stored_before_prefix (c + 1)) as [rest ->]; [lia|].
    rewrite (stored_before_next c) by lia.
    rewrite length_app.
    replace (Z.to_nat
               (Z.of_nat (length (stored_before jac_struct n c)
                          + length (flagged_columns jac_struct n c))
                - Z.of_nat (length (stored_before jac_struct n c))))
      with (length (flagged_columns jac_struct n c)) by lia.
    rewrite Nat2Z.id, <- !app_assoc, drop_app_length.
    by rewrite take_app_length.
  - intros e He. unfold under_construction. cbn [SM_DATA_S].
    apply rd_Some. split; [lia|].
    rewrite lookup_app_l by (rewrite length_replicate; lia).
    apply lookup_replicate_2. lia.
Qed.

End GetJacInit.

(** ** The state / dependent-variable mapping *)

Lemma count_variable_app l1 l2 :
  count_variable (l1 ++ l2) = count_variable l1 + count_variable l2.
Proof.
  induction l1 as [|v l1 IH]; simpl; [done|]. rewrite IH. lia.
Qed.

Lemma count_variable_nonneg l : 0 <= count_variable l.
Proof.
  induction l as [|v l IH]; simpl; [done|].
  destruct (v =? CHEM_SPEC_VARIABLE); lia.
Qed.

Lemma dep_index_0 var_type : dep_index var_type 0 = 0.
Proof. done. Qed.

Lemma dep_index_next var_type i vt :
  rd var_type i = Some vt ->
  dep_index var_type (i + 1)
  = dep_index var_type i + (if vt =? CHEM_SPEC_VARIABLE then 1 else 0).
Proof.
  intros [Hi Hvt]%rd_Some. unfold dep_index.
  replace (Z.to_nat (i + 1)) with (Datatypes.S (Z.to_nat i)) by lia.
  rewrite (take_S_r _ _ _ Hvt), count_variable_app. simpl. lia.
Qed.

Lemma dep_index_mono var_type i j :
  i <= j -> dep_index var_type i <= dep_index var_type j.
Proof.
  intros Hij. unfold dep_index.
  replace (Z.to_nat j) with (Z.to_nat i + (Z.to_nat j - Z.to_nat i))%nat
    by lia.
  rewrite <- take_take_drop, count_variable_app.
  pose proof (count_variable_nonneg
    (take (Z.to_nat j - Z.to_nat i) (drop (Z.to_nat i) var_type))). lia.
Qed.

Lemma dep_index_nonneg var_type i : 0 <= dep_index var_type i.
Proof. apply count_variable_nonneg. Qed.

(** The mapping preserves the order of the variable entries. *)
Lemma dep_index_strict var_type i j :
  rd var_type i = Some CHEM_SPEC_VARIABLE -> i < j ->
  dep_index var_type i < dep_index var_type j.
Proof.
  intros Hi Hij. pose proof (dep_index_next _ _ _ Hi) as Hn. simpl in Hn.
  pose proof (dep_index_mono var_type (i + 1) j). lia.
Qed.

Lemma dep_index_all var_type n :
  Z.of_nat (length var_type) <= n ->
  dep_index var_type n = count_variable var_type.
Proof. intros Hn. unfold dep_index. rewrite take_ge; [done|lia]. Qed.

(** Started at 0, the counting loop counts the variable entries. *)
Lemma count_dep_var_from_zero n var_type :
  0 <= n <= Z.of_nat (length var_type) ->
  count_dep_var 0 n var_type = Some (dep_index var_type n).
Proof.
  intros Hn. unfold count_dep_var.
  edestruct (for_loop_invariant
    (fun i (c : Z) => c = dep_index var_type i) 0 n)
    as (c & -> & ->); [lia|done| |done].
  intros i c Hi ->. cbn beta.
  destruct (rd_in_range var_type i) as [vt Hvt]; [lia|].
  rewrite Hvt. cbn [mbind option_bind]. eexists. split; [done|].
  rewrite (dep_index_next _ _ _ Hvt).
  destruct (vt =? CHEM_SPEC_VARIABLE); lia.
Qed.

Section Mapping.
Context `{RT : RealType}.
Implicit Types (state y : list realtype) (var_type : list Z).

Lemma y_to_state_spec n var_type y state :
  0 <= n <= Z.of_nat (length var_type) ->
  n <= Z.of_nat (length state) ->
  dep_index var_type n <= Z.of_nat (length y) ->
  exists state', y_to_state n var_type y state = Some state'
                 /\ written_from_y n var_type y state state'.
Proof.
  intros Hn Hst Hy. unfold y_to_state.
  edestruct (for_loop_invariant
    (fun k (s : Z * list realtype) =>
       s.1 = dep_index var_type k
       /\ written_from_y k var_type y state s.2) 0 n)
    as ([idv st'] & -> & _ & Hw); [lia| | |by eexists].
  - simpl. split; [done|]. split; [done|]. split; [intros; lia|done].
  - intros k [idv st] Hk [Hidv (Hlen & Hlo & Hhi)]. simpl in *.
    destruct (rd_in_range var_type k) as [vt Hvt]; [lia|].
    rewrite Hvt. simpl. rewrite (dep_index_next _ _ _ Hvt).
    destruct (vt =? CHEM_SPEC_VARIABLE) eqn:Hv.
    + pose proof (dep_index_next _ _ _ Hvt) as Hnext. rewrite Hv in Hnext.
      pose proof (dep_index_mono var_type (k + 1) n ltac:(lia)).
      pose proof (dep_index_nonneg var_type k).
      destruct (rd_in_range y idv) as [x Hx]; [lia|]. rewrite Hx. simpl.
      rewrite (wr_in_range st k x) by lia. simpl.
      eexists. split; [done|]. simpl. split; [lia|].
      assert (wr st k x = Some (<[Z.to_nat k:=x]> st)) as Hwr
        by (apply wr_in_range; lia).
      split; [by rewrite length_insert|]. split.
      * intros i vt' Hi Hvt'. destruct (decide (i = k)) as [->|Hne].
        -- rewrite (rd_wr_same _ _ _ _ Hwr).
           rewrite Hvt in Hvt'. injection Hvt' as <-. by rewrite Hv, <- Hidv.
        -- rewrite (rd_wr_other _ _ _ _ _ Hwr) by done.
           apply Hlo; [lia|done].
      * intros i Hi. rewrite (rd_wr_other _ _ _ _ _ Hwr) by lia.
        apply Hhi. lia.
    + eexists. split; [done|]. simpl. split; [lia|].
      split; [done|]. split.
      * intros i vt' Hi Hvt'. destruct (decide (i = k)) as [->|Hne].
        -- rewrite Hvt in Hvt'. injection Hvt' as <-. rewrite Hv.
           apply Hhi. lia.
        -- apply Hlo; [lia|done].
      * intros i Hi. apply Hhi. lia.
Qed.

Lemma state_to_y_spec n var_type state y :
  0 <= n <= Z.of_nat (length var_type) ->
  n <= Z.of_nat (length state) ->
  dep_index var_type n <= Z.of_nat (length y) ->
  exists y', state_to_y n var_type state y = Some y'
             /\ written_from_state n var_type state y y'.
Proof.
  intros Hn Hst Hy. unfold state_to_y.
  edestruct (for_loop_invariant
    (fun k (s : Z * list realtype) =>
       s.1 = dep_index var_type k
       /\ written_from_state k var_type state y s.2) 0 n)
    as ([idv y'] & -> & _ & Hw); [lia| | |by eexists].
  - simpl. split; [done|]. split; [done|]. split; [intros; lia|done].
  - intros k [idv yc] Hk [Hidv (Hlen & Hlo & Hhi)]. simpl in *.
    destruct (rd_in_range var_type k) as [vt Hvt]; [lia|].
    rewrite Hvt. simpl. rewrite (dep_index_next _ _ _ Hvt).
    destruct (vt =? CHEM_SPEC_VARIABLE) eqn:Hv.
    + apply Z.eqb_eq in Hv. subst vt.
      pose proof (dep_index_next _ _ _ Hvt) as Hnext. simpl in Hnext.
      pose proof (dep_index_mono var_type (k + 1) n ltac:(lia)).
      pose proof (dep_index_nonneg var_type k).
      destruct (rd_in_range state k) as [x Hx]; [lia|]. rewrite Hx. simpl.
      assert (wr yc idv x = Some (<[Z.to_nat idv:=x]> yc)) as Hwr
        by (apply wr_in_range; lia).
      rewrite Hwr. simpl.
      eexists. split; [done|]. simpl. split; [lia|].
      split; [by rewrite length_insert|]. split.
      * intros i Hi Hvi. destruct (decide (i = k)) as [->|Hne].
        -- rewrite <- Hidv, (rd_wr_same _ _ _ _ Hwr). done.
        -- pose proof (dep_index_strict var_type i k Hvi ltac:(lia)).
           rewrite (rd_wr_other _ _ _ _ _ Hwr) by lia.
           apply Hlo; [lia|done].
      * intros j Hj. rewrite (rd_wr_other _ _ _ _ _ Hwr) by lia.
        apply Hhi. lia.
    + eexists. split; [done|]. simpl. split; [lia|].
      split; [done|]. split.
      * intros i Hi Hvi. destruct (decide (i = k)) as [->|Hne].
        -- rewrite Hvt in Hvi. injection Hvi as ->. done.
        -- apply Hlo; [lia|done].
      * intros j Hj. apply Hhi.
        pose proof (dep_index_mono var_type k (k + 1)). lia.
Qed.

(** The tolerance loop is the same copy, from [abstol]: with a vector of
    the right size every variable entry's tolerance lands at its
    dependent-variable index. *)
Lemma set_abstol_spec n var_type (abstol : list realtype) :
  0 <= n <= Z.of_nat (length var_type) ->
  n <= Z.of_nat (length abstol) ->
  exists abstol_nv,
    set_abstol n var_type abstol (N_VNew_Serial (dep_index var_type n))
      = Some abstol_nv
    /\ written_from_state n var_type abstol
         (N_VNew_Serial (dep_index var_type n)) abstol_nv.
Proof.
  intros Hn Ha.
  apply (state_to_y_spec n var_type abstol
           (N_VNew_Serial (dep_index var_type n)) Hn Ha).
  unfold N_VNew_Serial. rewrite length_replicate.
  pose proof (dep_index_nonneg var_type n). lia.
Qed.

End Mapping.

(** ** The callbacks and the state array (C9) *)

Section Callbacks.
Context `{RT : RealType} {EXT : Collaborators}.

Lemma zero_fill_returns (deriv : list realtype) :
  is_Some (for_loop 0 (Z.of_nat (length deriv))
             (fun i_spec deriv => wr deriv i_spec ZERO) deriv).
Proof.
  edestruct (for_loop_invariant
    (fun (_ : Z) (d : list realtype) => length d = length deriv)
    0 (Z.of_nat (length deriv))) as (d & -> & _); [lia|done| |done].
  intros i d Hi Hd. cbn beta. rewrite wr_in_range by lia.
  eexists. split; [done|]. by rewrite length_insert.
Qed.

Lemma restamp_returns (J0 : SUNMatrix) (J_init : SUNMatrix) :
  shaped J_init -> SM_NNZ_S J0 = SM_NNZ_S J_init ->
  SM_NP_S J0 = SM_NP_S J_init ->
  SM_NNZ_S J_init <= Z.of_nat (length (SM_DATA_S J0)) ->
  SM_NNZ_S J_init <= Z.of_nat (length (SM_INDEXVALS_S J0)) ->
  Z.of_nat (length (SM_INDEXPTRS_S J0)) = SM_NP_S J0 + 1 ->
  is_Some (
    J ← for_loop 0 (SM_NNZ_S J0) (fun i J =>
        J ← set_data J i ZERO;
        v ← rd (SM_INDEXVALS_S J_init) i;
        set_indexval J i v) J0;
    for_loop 0 (SM_NP_S J + 1) (fun i J =>
        v ← rd (SM_INDEXPTRS_S J_init) i;
        set_indexptr J i v) J).
Proof.
  intros (Hnnz & Hnp & Hd & Hv & Hp) Ennz Enp Ld Lv Lp.
  set (Inv := fun (_ : Z) (J : SUNMatrix) =>
    SM_NP_S J = SM_NP_S J_init
    /\ SM_NNZ_S J_init <= Z.of_nat (length (SM_DATA_S J))
    /\ SM_NNZ_S J_init <= Z.of_nat (length (SM_INDEXVALS_S J))
    /\ Z.of_nat (length (SM_INDEXPTRS_S J)) = SM_NP_S J_init + 1).
  edestruct (for_loop_invariant Inv 0 (SM_NNZ_S J0))
    as (J1 & -> & E1 & I1); [lia| | |].
  - unfold Inv. repeat split; lia.
  - intros i J Hi (E & Id & Iv & Ip). cbn beta. unfold set_data.
    rewrite wr_in_range by lia. simpl.
    destruct (rd_in_range (SM_INDEXVALS_S J_init) i) as [v ->]; [lia|].
    simpl. unfold set_indexval. simpl. rewrite wr_in_range by lia. simpl.
    eexists. split; [done|]. unfold Inv. simpl.
    rewrite !length_insert. done.
  - simpl. rewrite E1.
    edestruct (for_loop_invariant Inv 0 (SM_NP_S J_init + 1))
      as (J2 & -> & _); [lia|done| |done].
    intros i J Hi (E & Id & Iv & Ip). cbn beta.
    destruct (rd_in_range (SM_INDEXPTRS_S J_init) i) as [v ->]; [lia|].
    simpl. unfold set_indexptr. rewrite wr_in_range by lia. simpl.
    eexists. split; [done|]. unfold Inv. simpl.
    rewrite !length_insert. done.
Qed.

Lemma realloc_length {A} (a : list A) n fill :
  0 <= n -> Z.of_nat (length a) <= n ->
  Z.of_nat (length (realloc a n fill)) = n.
Proof.
  intros Hn Ha. unfold realloc.
  rewrite length_app, length_take, length_replicate. lia.
Qed.

(** C9.  Every call of [f] and of [Jac] returns with the state array
    rewritten: each entry of type [CHEM_SPEC_VARIABLE] holds the entry of
    the solver vector [y] with its dependent-variable index, and every
    other entry (constant, PSSA, unknown) holds what it held. *)
Theorem callbacks_write_state t (y deriv : list realtype) J md state :
  0 <= n_state_var md <= Z.of_nat (length (var_type md)) ->
  n_state_var md <= Z.of_nat (length state) ->
  dep_index (var_type md) (n_state_var md) <= Z.of_nat (length y) ->
  shaped J -> shaped (J_init md) -> SM_NP_S J = SM_NP_S (J_init md) ->
  (forall st dv, is_Some (rxn_calc_deriv md st dv)) ->
  (forall st M, is_Some (rxn_calc_jac md st M)) ->
  (exists deriv' state',
     f t y deriv md state = Some (0, deriv', state')
     /\ written_from_y (n_state_var md) (var_type md) y state state')
  /\ (exists J' state',
        Jac t y deriv J md state = Some (0, J', state')
        /\ written_from_y (n_state_var md) (var_type md) y state state').
Proof.
  intros Hn Hst Hy HJ Hinit Hnp Hderiv Hjac.
  destruct (y_to_state_spec _ _ y state Hn Hst Hy) as (state' & Hrun & Hw).
  split.
  - unfold f. rewrite Hrun. simpl.
    destruct (zero_fill_returns deriv) as [d0 ->]. simpl.
    destruct (Hderiv state' d0) as [d1 ->]. simpl. eauto.
  - unfold Jac. rewrite Hrun. simpl.
    destruct HJ as (HJ1 & HJ2 & HJ3 & HJ4 & HJ5).
    pose proof Hinit as (Hi1 & Hi2 & Hi3 & Hi4 & Hi5).
    match goal with
    | |- context [for_loop 0 _ _ ?M ≫= _] =>
        destruct (restamp_returns M (J_init md)) as [J2 HJ2run]
    end; simpl; try done.
    + destruct (Z.ltb_spec (SM_NNZ_S J) (SM_NNZ_S (J_init md)));
        [rewrite realloc_length|]; lia.
    + destruct (Z.ltb_spec (SM_NNZ_S J) (SM_NNZ_S (J_init md)));
        [rewrite realloc_length|]; lia.
    + simpl in HJ2run.
      match type of HJ2run with
      | (?a ≫= ?k) = Some J2 =>
          destruct a as [J1|] eqn:Ea; [|discriminate]
      end.
      simpl in *. rewrite HJ2run. simpl.
      destruct (Hjac state' J2) as [J3 ->]. simpl. eauto.
Qed.

End Callbacks.

Lemma callbacks_write_state_witness :
  (exists deriv' state',
     f (EXT := collaborators64 0) 0%float [10; 30]%float [4; 4]%float
       model_data64 [1; 2; 3]%float = Some (0, deriv', state')
     /\ written_from_y (RT := binary64) 3 (var_type model_data64)
          [10; 30]%float [1; 2; 3]%float state')
  /\ (exists J' state',
        Jac (EXT := collaborators64 0) 0%float [10; 30]%float [4; 4]%float
          J_empty64 model_data64 [1; 2; 3]%float = Some (0, J', state')
        /\ written_from_y (RT := binary64) 3 (var_type model_data64)
             [10; 30]%float [1; 2; 3]%float state').
Proof.
  apply (callbacks_write_state (EXT := collaborators64 0)).
  - simpl. lia.
  - simpl. lia.
  - vm_compute. discriminate.
  - repeat split; simpl; lia.
  - repeat split; simpl; lia.
  - reflexivity.
  - intros st dv. simpl. by eexists.
  - intros st M. simpl. by eexists.
Defined.

(** ** The copy after the integration (C10) *)

Section Run.
Context `{RT : RealType} {EXT : Collaborators}.
#[local] Arguments check_flag : simpl never.
#[local] Arguments check_flag_fail : simpl never.

(** C10.  When [solver_run] gets past [CVode], its last loop copies the
    state array, as [CVode] and its callbacks left it, into the solver
    vector: [solver_run] returns [PHLEX_SOLVER_SUCCESS], the state array is
    the one [CVode] left, entry for entry, and each dependent variable of
    [y], which held the integrated solution, holds the state entry it is
    mapped to. *)
Theorem solver_run_copies_state_into_y sd (state env : list realtype)
    t_initial t_final :
  let md := model_data sd in
  0 <= n_state_var md <= Z.of_nat (length (var_type md)) ->
  n_state_var md <= Z.of_nat (length state) ->
  dep_index (var_type md) (n_state_var md) <= Z.of_nat (length (y sd)) ->
  is_Some (rxn_update_env_state env (rxn_data md)) ->
  (forall mem md' t y0 st,
     length (CVode mem md' t y0 st).1.2 = length y0
     /\ length (CVode mem md' t y0 st).2 = length st) ->
  exists y0 md' sd',
    state_to_y (n_state_var md) (var_type md) state (y sd) = Some y0
    /\ let '(flag, y1, state1) :=
         CVode (cvode_mem sd) md' t_final y0 state in
       solver_run sd state env t_initial t_final
       = Returns (PHLEX_SOLVER_SUCCESS, sd', state1) []
       /\ written_from_state (n_state_var md) (var_type md) state1 y1 (y sd').
Proof.
  intros md Hn Hst Hy [buf Hbuf] Hcv. unfold solver_run. fold md.
  destruct (state_to_y_spec _ _ state (y sd) Hn Hst Hy)
    as (y0 & Hy0 & Hlen0 & _).
  rewrite Hy0, Hbuf. simpl. rewrite check_flag_fail_int_check. simpl.
  exists y0, {| n_state_var := n_state_var md; var_type := var_type md;
                rxn_data := buf; J_init := J_init md |}.
  match goal with
  | |- context [CVode ?m ?d ?t ?a ?b] =>
      pose proof (Hcv m d t a b) as [Hl1 Hl2];
      destruct (CVode m d t a b) as [[flag y1] state1] eqn:Ecv
  end.
  simpl in Hl1, Hl2. rewrite check_flag_int_check. simpl.
  destruct (state_to_y_spec (n_state_var md) (var_type md) state1 y1)
    as (y2 & Hy2 & Hw); [done|lia|lia|].
  rewrite Hy2. simpl. eexists. split; [done|].
  split; [done|]. exact Hw.
Qed.

End Run.

Lemma solver_run_copies_state_into_y_witness :
  exists y0 md' sd',
    state_to_y (RT := binary64) 3 (var_type model_data64)
      [1; 2; 3]%float [0; 0]%float = Some y0
    /\ let '(flag, y1, state1) :=
         CVode (Collaborators := collaborators64 0)
           (cvode_mem solver_data64_3) md' 1%float y0 [1; 2; 3]%float in
       solver_run (EXT := collaborators64 0) solver_data64_3
         [1; 2; 3]%float [300; 101325]%float 0%float 1%float
       = Returns (PHLEX_SOLVER_SUCCESS, sd', state1) []
       /\ written_from_state (RT := binary64) 3 (var_type model_data64)
            state1 y1 (y sd').
Proof.
  apply (solver_run_copies_state_into_y (EXT := collaborators64 0)
           solver_data64_3 [1; 2; 3]%float [300; 101325]%float
           0%float 1%float).
  - simpl. lia.
  - simpl. lia.
  - vm_compute. discriminate.
  - simpl. by eexists.
  - intros. simpl. by rewrite length_fmap.
Defined.

(** ** Advancing over a record *)

(** Inversion of a successful run of binds. *)
Ltac unbind H :=
  repeat match type of H with
  | (?a ≫= _) = Some _ =>
      let E := fresh "E" in
      destruct a as [?|] eqn:E; [|discriminate H]; cbn [mbind option_bind] in H
  | (let '(_, _) := ?p in _) = Some _ => destruct p
  | (if ?b then _ else _) ≫= _ = Some _ => destruct b
  end.

Section Advance.
Context `{RT : RealType}.
Variable SUNRexp : realtype -> realtype.
Variable SUNRpowerR : realtype -> realtype -> realtype.
Variable SUNRpowerI : realtype -> Z -> realtype.
Implicit Types (rxn : rxn_record) (rxn_data next : Z).

Lemma next_rxn_counts int_data rxn_data nr np :
  _NUM_REACT_ int_data = Some nr -> _NUM_PROD_ int_data = Some np ->
  next_rxn int_data rxn_data
  = Some (rxn_data + sizeof_int * (_NUM_INT_PROP_ + (nr + 2) * (nr + np))
          + sizeof_realtype * (_NUM_FLOAT_PROP_ + np)).
Proof.
  intros Hr Hp. unfold next_rxn, _INT_DATA_SIZE_, _FLOAT_DATA_SIZE_.
  by rewrite Hr, Hp.
Qed.

Lemma get_used_jac_elem_next rxn_data rxn jac_struct next jac_struct' :
  rxn_arrhenius_get_used_jac_elem rxn_data rxn jac_struct
    = Some (next, jac_struct') ->
  rxn_arrhenius_skip rxn_data rxn = Some next.
Proof.
  unfold rxn_arrhenius_get_used_jac_elem, rxn_arrhenius_skip. intros H.
  unbind H. by injection H as <- _.
Qed.

Lemma update_env_state_next env_data rxn_data rxn next rxn' :
  rxn_arrhenius_update_env_state SUNRexp SUNRpowerR SUNRpowerI
    env_data rxn_data rxn = Some (next, rxn') ->
  rxn_arrhenius_skip rxn_data rxn = Some next.
Proof.
  unfold rxn_arrhenius_update_env_state, rxn_arrhenius_skip. intros H.
  unbind H. by injection H as <- _.
Qed.

Lemma calc_deriv_contrib_next state deriv rxn_data rxn next deriv' :
  rxn_arrhenius_calc_deriv_contrib state deriv rxn_data rxn
    = Some (next, deriv') ->
  rxn_arrhenius_skip rxn_data rxn = Some next.
Proof.
  unfold rxn_arrhenius_calc_deriv_contrib, rxn_arrhenius_skip. intros H.
  unbind H. by injection H as <- _.
Qed.

Lemma calc_jac_contrib_next state J rxn_data rxn next J' :
  rxn_arrhenius_calc_jac_contrib state J rxn_data rxn = Some (next, J') ->
  rxn_arrhenius_skip rxn_data rxn = Some next.
Proof.
  unfold rxn_arrhenius_calc_jac_contrib, rxn_arrhenius_skip. intros H.
  unbind H. by injection H as <- _.
Qed.

Lemma well_sized_counts rxn :
  well_sized rxn = true ->
  exists nr np,
    _NUM_REACT_ (int_seg rxn) = Some nr /\ _NUM_PROD_ (int_seg rxn) = Some np
    /\ 0 <= nr /\ 0 <= np
    /\ Z.of_nat (length (int_seg rxn))
       = _NUM_INT_PROP_ + (nr + 2) * (nr + np)
    /\ Z.of_nat (length (float_seg rxn)) = _NUM_FLOAT_PROP_ + np.
Proof.
  unfold well_sized, _NUM_REACT_, _NUM_PROD_.
  destruct (rd (int_seg rxn) 0) as [nr|]; [|done].
  destruct (rd (int_seg rxn) 1) as [np|]; [|done].
  intros H. exists nr, np.
  apply andb_prop in H as [H H4]. apply andb_prop in H as [H H3].
  apply andb_prop in H as [H1 H2].
  repeat split; try done; lia.
Qed.

Lemma update_env_state_returns env_data rxn_data rxn :
  well_sized rxn = true -> 2 <= Z.of_nat (length env_data) ->
  exists rxn',
    rxn_arrhenius_update_env_state SUNRexp SUNRpowerR SUNRpowerI
      env_data rxn_data rxn = Some (rxn_data + record_bytes rxn, rxn').
Proof.
  intros (nr & np & Hr & Hp & Hnr & Hnp & Hi & Hf)%well_sized_counts Henv.
  unfold rxn_arrhenius_update_env_state, _A_, _B_, _C_, _D_, _E_, _CONV_,
    _TEMPERATURE_K_, _PRESSURE_PA_.
  unfold _NUM_FLOAT_PROP_ in Hf.
  destruct (rd_in_range (float_seg rxn) 0) as [a ->]; [lia|].
  destruct (rd_in_range (float_seg rxn) 1) as [b ->]; [lia|].
  destruct (rd_in_range (float_seg rxn) 2) as [c ->]; [lia|].
  destruct (rd_in_range (float_seg rxn) 3) as [d ->]; [lia|].
  destruct (rd_in_range (float_seg rxn) 4) as [e ->]; [lia|].
  destruct (rd_in_range (float_seg rxn) 5) as [conv ->]; [lia|].
  destruct (rd_in_range env_data 0) as [t ->]; [lia|].
  destruct (rd_in_range env_data 1) as [p ->]; [lia|].
  rewrite Hr. cbn [mbind option_bind].
  destruct (req b ZERO), (req e ZERO); cbn [mbind option_bind];
    rewrite wr_in_range by lia; cbn [mbind option_bind];
    rewrite (next_rxn_counts _ _ _ _ Hr Hp); cbn [mbind option_bind];
    eexists; do 2 f_equal; unfold record_bytes; rewrite Hi, Hf;
    unfold _NUM_FLOAT_PROP_; lia.
Qed.

End Advance.

(** ** The Jacobian contribution (C3) *)

Section Accumulation.
Context `{RT : RealType}.
Implicit Types (us : list (Z * (realtype -> realtype))).
Implicit Types (a : list realtype).

Lemma accumulated_nil a : accumulated [] a a.
Proof. split; [done|]. intros slot v Hv. done. Qed.

Lemma apply_updates_app us1 us2 slot v :
  apply_updates (us1 ++ us2) slot v
  = apply_updates us2 slot (apply_updates us1 slot v).
Proof. unfold apply_updates. by rewrite foldl_app. Qed.

(** One more step: [a'[slot] = g (a'[slot])]. *)
Lemma accumulated_step us a a' slot g :
  accumulated us a a' -> 0 <= slot < Z.of_nat (length a) ->
  exists old a'',
    rd a' slot = Some old /\ wr a' slot (g old) = Some a''
    /\ accumulated (us ++ [(slot, g)]) a a''.
Proof.
  intros [Hlen Hacc] Hslot.
  destruct (rd_in_range a slot Hslot) as [v Hv].
  pose proof (Hacc slot v Hv) as Hold.
  assert (wr a' slot (g (apply_updates us slot v))
          = Some (<[Z.to_nat slot := g (apply_updates us slot v)]> a'))
    as Hwr by (apply wr_in_range; lia).
  eexists _, _. split; [done|]. split; [done|]. split.
  - by rewrite length_insert.
  - intros s w Hw. rewrite apply_updates_app. simpl.
    destruct (Z.eqb_spec slot s) as [<-|Hne].
    + rewrite (rd_wr_same _ _ _ _ Hwr). congruence.
    + rewrite (rd_wr_other _ _ _ _ _ Hwr) by done. by apply Hacc.
Qed.

Lemma apply_updates_untouched us slot v :
  (forall u, u ∈ us -> u.1 <> slot) -> apply_updates us slot v = v.
Proof.
  revert v. induction us as [|u us IH]; intros v Hne; [done|].
  unfold apply_updates. simpl.
  destruct (Z.eqb_spec u.1 slot) as [Heq|_].
  - exfalso. by apply (Hne u); [left|].
  - apply IH. intros u' Hu'. apply Hne. by right.
Qed.

(** A slot that a single step of the sequence names. *)
Lemma apply_updates_unique us slot g v :
  NoDup (us.*1) -> (slot, g) ∈ us -> apply_updates us slot v = g v.
Proof.
  intros Hnd (us1 & us2 & ->)%list_elem_of_split.
  rewrite fmap_app, fmap_cons in Hnd.
  apply NoDup_app in Hnd as (_ & Hdis & Hnd2).
  apply NoDup_cons in Hnd2 as [Hnot _]. simpl in Hdis, Hnot.
  rewrite apply_updates_app, (apply_updates_untouched us1).
  - unfold apply_updates at 1. simpl. rewrite Z.eqb_refl.
    apply apply_updates_untouched. intros u Hu Heq. apply Hnot.
    rewrite <- Heq. by apply list_elem_of_fmap_2.
  - intros u Hu Heq. apply (Hdis u.1); [by apply list_elem_of_fmap_2|].
    rewrite Heq. left.
Qed.

(** The slots of a block of rows, in the order of the steps. *)
Lemma row_slots (slot_of : Z -> Z) (h : Z -> realtype -> realtype) c n :
  0 <= n ->
  (seqZ 0 n ≫= fun ind => [(slot_of (c + ind), h ind)]).*1
  = slot_of <$> seqZ c n.
Proof.
  revert n. apply natlike_ind; [done|]. intros n Hn IH.
  unfold Z.succ. rewrite seqZ_bind_last, fmap_app, IH by done.
  rewrite (seqZ_app c n 1), fmap_app, seqZ_one by lia. done.
Qed.

Lemma rows_slots (slot_of : Z -> Z) (h : Z -> Z -> realtype -> realtype)
    c nr rows :
  0 <= nr -> 0 <= rows ->
  (seqZ 0 rows ≫= fun dep => seqZ 0 nr ≫= fun ind =>
     [(slot_of (c + dep * nr + ind), h dep ind)]).*1
  = slot_of <$> seqZ c (rows * nr).
Proof.
  intros Hnr. revert rows. apply natlike_ind; [done|]. intros rows Hrows IH.
  unfold Z.succ. rewrite seqZ_bind_last, fmap_app, IH by done.
  rewrite (row_slots slot_of (h rows) (c + rows * nr)) by done.
  replace ((rows + 1) * nr) with (rows * nr + nr) by lia.
  rewrite (seqZ_app c (rows * nr) nr), fmap_app by nia. done.
Qed.

End Accumulation.

Section JacContrib.
Context `{RT : RealType}.
Variables (int_data : list Z) (float_data state J : list realtype).
Variables (nr np : Z) (k : realtype).
Variables (jac_id : Z -> Z) (conc yield : Z -> realtype).
Hypothesis Hnr : _NUM_REACT_ int_data = Some nr.
Hypothesis Hnp : _NUM_PROD_ int_data = Some np.
Hypothesis Hk : _RATE_CONSTANT_ float_data = Some k.
Hypothesis Hconc : forall i, 0 <= i < nr ->
  exists r, _REACT_ int_data i = Some r /\ rd state r = Some (conc i).

Lemma reaction_rate_mass_action :
  reaction_rate int_data float_data state
  = Some (mass_action_rate k conc nr).
Proof using Hnr Hk Hconc.
  unfold reaction_rate. rewrite Hk, Hnr. cbn [mbind option_bind].
  destruct (Z.le_gt_cases nr 0) as [Hle|Hgt].
  { rewrite for_loop_done by done. unfold mass_action_rate.
    by rewrite seqZ_nil. }
  edestruct (for_loop_invariant
    (fun i (rate : realtype) => rate = mass_action_rate k conc i) 0 nr)
    as (rate & -> & ->); [lia|done| |done].
  intros i rate Hi ->. cbn beta.
  destruct (Hconc i Hi) as (r & -> & Hx). cbn [mbind option_bind].
  rewrite Hx. cbn [mbind option_bind]. eexists. split; [done|].
  unfold mass_action_rate. by rewrite seqZ_foldl_last by lia.
Qed.

Hypothesis Hjac : forall e, 0 <= e < nr * (nr + np) ->
  _JAC_ID_ int_data e = Some (jac_id e)
  /\ 0 <= jac_id e < Z.of_nat (length J).
Hypothesis Hyield : forall i, 0 <= i < np ->
  _yield_ float_data i = Some (yield i).

Local Abbreviation rate := (mass_action_rate k conc nr).

(** The body of the row loops: one pass over the columns. *)
Lemma jac_row (term : Z -> realtype -> realtype)
    (body : Z -> Z * list realtype -> option (Z * list realtype))
    us e0 Jc :
  0 <= nr -> 0 <= e0 -> e0 + nr <= nr * (nr + np) ->
  (forall ind e Jc, 0 <= ind < nr -> e0 <= e < e0 + nr ->
     forall old Jc', rd Jc (jac_id e) = Some old ->
       wr Jc (jac_id e) (term ind old) = Some Jc' ->
       body ind (e, Jc) = Some (e + 1, Jc')) ->
  accumulated us J Jc ->
  exists Jc',
    for_loop 0 nr body (e0, Jc) = Some (e0 + nr, Jc')
    /\ accumulated
         (us ++ (ind ← seqZ 0 nr; [(jac_id (e0 + ind), term ind)])) J Jc'.
Proof using Hjac.
  intros H0 He0 Hend Hbody Hacc.
  edestruct (for_loop_invariant
    (fun ind (s : Z * list realtype) =>
       s.1 = e0 + ind
       /\ accumulated
            (us ++ (ind' ← seqZ 0 ind; [(jac_id (e0 + ind'), term ind')]))
            J s.2) 0 nr body (e0, Jc))
    as ([e Jc'] & Hrun & He & Hres); [lia| | |].
  - simpl. split; [lia|]. by rewrite app_nil_r.
  - intros ind [e Jc1] Hind [He Hacc1]. simpl in He, Hacc1. subst e.
    destruct (Hjac (e0 + ind)) as [_ Hrange]; [lia|].
    destruct (accumulated_step _ _ _ (jac_id (e0 + ind)) (term ind)
                Hacc1 Hrange) as (old & Jc2 & Hold & Hwr & Hacc2).
    exists (e0 + ind + 1, Jc2). split.
    + by apply (Hbody ind (e0 + ind) Jc1 Hind ltac:(lia) old Jc2).
    + simpl. split; [lia|].
      rewrite seqZ_bind_last, app_assoc by lia. done.
  - simpl in He. subst e. eauto.
Qed.

(** The nested loops over the rows [0 .. rows) whose first pair is number
    [e0]. *)
Lemma jac_rows (term : Z -> Z -> realtype -> realtype)
    (body : Z -> Z -> Z * list realtype -> option (Z * list realtype))
    rows us e0 Jc :
  0 <= nr -> 0 <= rows -> 0 <= e0 -> e0 + rows * nr <= nr * (nr + np) ->
  (forall dep ind e Jc, 0 <= dep < rows -> 0 <= ind < nr ->
     e0 <= e < e0 + rows * nr ->
     forall old Jc', rd Jc (jac_id e) = Some old ->
       wr Jc (jac_id e) (term dep ind old) = Some Jc' ->
       body dep ind (e, Jc) = Some (e + 1, Jc')) ->
  accumulated us J Jc ->
  exists Jc',
    for_loop 0 rows (fun dep acc => for_loop 0 nr (body dep) acc) (e0, Jc)
    = Some (e0 + rows * nr, Jc')
    /\ accumulated
         (us ++ (dep ← seqZ 0 rows; ind ← seqZ 0 nr;
                   [(jac_id (e0 + dep * nr + ind), term dep ind)])) J Jc'.
Proof using Hjac.
  intros H0 Hrows He0 Hend Hbody Hacc.
  edestruct (for_loop_invariant
    (fun dep (s : Z * list realtype) =>
       s.1 = e0 + dep * nr
       /\ accumulated
            (us ++ (dep' ← seqZ 0 dep; ind ← seqZ 0 nr;
                      [(jac_id (e0 + dep' * nr + ind), term dep' ind)]))
            J s.2) 0 rows
    (fun dep acc => for_loop 0 nr (body dep) acc) (e0, Jc))
    as ([e Jc'] & Hrun & He & Hres); [lia| | |].
  - simpl. split; [lia|]. by rewrite app_nil_r.
  - intros dep [e Jc1] Hdep [He Hacc1]. simpl in He, Hacc1. subst e.
    cbn beta.
    match type of Hacc1 with
    | accumulated ?u _ _ =>
        destruct (jac_row (term dep) (body dep) u (e0 + dep * nr) Jc1)
          as (Jc2 & Hrun & Hacc2); [lia|nia|nia| |exact Hacc1|]
    end.
    { intros ind e Jc3 Hind He old Jc4 Hold Hwr.
      apply (Hbody dep ind e Jc3 Hdep Hind ltac:(nia) old Jc4); done. }
    exists (e0 + dep * nr + nr, Jc2). split; [done|].
    simpl. split; [lia|].
    rewrite seqZ_bind_last, app_assoc by lia. done.
  - simpl in He. subst e. eauto.
Qed.

(** The call returns, with the terms of [jac_terms] accumulated. *)
Lemma calc_jac_contrib_accumulates rxn_data :
  0 <= nr -> 0 <= np -> rne rate ZERO = true ->
  exists J',
    rxn_arrhenius_calc_jac_contrib state J rxn_data
      {| int_seg := int_data; float_seg := float_data |}
    = Some (rxn_data
            + sizeof_int * (_NUM_INT_PROP_ + (nr + 2) * (nr + np))
            + sizeof_realtype * (_NUM_FLOAT_PROP_ + np), J')
    /\ accumulated (jac_terms nr np jac_id conc yield rate) J J'.
Proof using Hnr Hnp Hk Hconc Hjac Hyield.
  intros H0r H0p Hrate. unfold rxn_arrhenius_calc_jac_contrib.
  cbn [int_seg float_seg]. rewrite reaction_rate_mass_action.
  cbn [mbind option_bind]. rewrite Hrate, Hnr, Hnp.
  cbn [mbind option_bind].
  destruct (jac_rows (fun _ ind v => v - rate / conc ind)%RT
    (fun (i_dep i_ind : Z) '(i_elem, Jc) =>
       id ← _JAC_ID_ int_data i_elem;
       r ← _REACT_ int_data i_ind;
       x ← rd state r;
       old ← rd Jc id;
       Jc ← wr Jc id (old - rate / x)%RT;
       Some (i_elem + 1, Jc)) nr [] 0 J)
    as (J1 & Hrun1 & Hacc1); [done|done|lia|nia| |apply accumulated_nil|].
  { intros dep ind e Jc Hdep Hind He old Jc' Hold Hwr.
    destruct (Hjac e) as [-> _]; [nia|].
    destruct (Hconc ind Hind) as (r & Hr & Hx).
    cbn [mbind option_bind]. rewrite Hr. cbn [mbind option_bind].
    rewrite Hx. cbn [mbind option_bind].
    rewrite Hold. cbn [mbind option_bind]. rewrite Hwr. done. }
  rewrite Hrun1. cbn [mbind option_bind].
  match type of Hacc1 with accumulated ?u _ _ => set (us1 := u) in * end.
  destruct (jac_rows (fun dep ind v => v + yield dep * rate / conc ind)%RT
    (fun (i_dep i_ind : Z) '(i_elem, Jc) =>
       id ← _JAC_ID_ int_data i_elem;
       y ← _yield_ float_data i_dep;
       r ← _REACT_ int_data i_ind;
       x ← rd state r;
       old ← rd Jc id;
       Jc ← wr Jc id (old + y * rate / x)%RT;
       Some (i_elem + 1, Jc)) np us1 (0 + nr * nr) J1 H0r H0p)
    as (J2 & Hrun2 & Hacc2); [nia|nia| |exact Hacc1|].
  { intros dep ind e Jc Hdep Hind He old Jc' Hold Hwr.
    destruct (Hjac e) as [-> _]; [nia|].
    destruct (Hconc ind Hind) as (r & Hr & Hx).
    cbn [mbind option_bind]. rewrite (Hyield dep Hdep).
    cbn [mbind option_bind]. rewrite Hr. cbn [mbind option_bind].
    rewrite Hx. cbn [mbind option_bind].
    rewrite Hold. cbn [mbind option_bind]. rewrite Hwr. done. }
  rewrite Hrun2. cbn [mbind option_bind].
  rewrite (next_rxn_counts _ _ _ _ Hnr Hnp). cbn [mbind option_bind].
  exists J2. split; [done|].
  subst us1. simpl in Hacc2.
  match type of Hacc2 with
  | accumulated ?u _ _ =>
      replace (jac_terms nr np jac_id conc yield rate) with u; [done|]
  end.
  unfold jac_terms. f_equal.
Qed.

Lemma jac_terms_slots :
  0 <= nr -> 0 <= np ->
  (jac_terms nr np jac_id conc yield rate).*1
  = jac_id <$> seqZ 0 (nr * (nr + np)).
Proof.
  intros H0r H0p. unfold jac_terms. rewrite fmap_app.
  replace (nr * (nr + np)) with (nr * nr + np * nr) by lia.
  rewrite (seqZ_app 0 (nr * nr) (np * nr)), fmap_app by nia. f_equal.
  - exact (rows_slots jac_id (fun _ ind v => v - rate / conc ind)%RT
             0 nr nr H0r H0r).
  - exact (rows_slots jac_id
             (fun dep ind v => v + yield dep * rate / conc ind)%RT
             (nr * nr) nr np H0r H0p).
Qed.

Lemma jac_terms_reactant dep ind :
  0 <= dep < nr -> 0 <= ind < nr ->
  (jac_id (dep * nr + ind), fun v => (v - rate / conc ind)%RT)
  ∈ jac_terms nr np jac_id conc yield rate.
Proof.
  intros Hdep Hind. unfold jac_terms. apply elem_of_app. left.
  apply list_elem_of_bind. exists dep. split; [|apply elem_of_seqZ; lia].
  apply list_elem_of_bind. exists ind. split; [|apply elem_of_seqZ; lia].
  by apply list_elem_of_singleton.
Qed.

Lemma jac_terms_product dep ind :
  0 <= dep < np -> 0 <= ind < nr ->
  (jac_id (nr * nr + dep * nr + ind),
   fun v => (v + yield dep * rate / conc ind)%RT)
  ∈ jac_terms nr np jac_id conc yield rate.
Proof.
  intros Hdep Hind. unfold jac_terms. apply elem_of_app. right.
  apply list_elem_of_bind. exists dep. split; [|apply elem_of_seqZ; lia].
  apply list_elem_of_bind. exists ind. split; [|apply elem_of_seqZ; lia].
  by apply list_elem_of_singleton.
Qed.

(** C3.  For a record with [nr] reactants and [np] products whose rate
    (the rate constant times the reactant concentrations) is not zero,
    [rxn_arrhenius_calc_jac_contrib] returns the pointer behind the record
    and the Jacobian data with exactly the terms of [jac_terms]
    accumulated: [rate / conc ind] subtracted from the slot of every
    (dependent reactant, independent reactant) pair, and
    [yield dep * rate / conc ind] added to the slot of every (dependent
    product [dep], independent reactant) pair.  No other slot changes, and
    where the pairs have slots of their own each slot holds its old value
    with its one term applied. *)
Theorem calc_jac_contrib_terms rxn_data :
  0 <= nr -> 0 <= np -> rne rate ZERO = true ->
  exists J',
    rxn_arrhenius_calc_jac_contrib state J rxn_data
      {| int_seg := int_data; float_seg := float_data |}
    = Some (rxn_data
            + sizeof_int * (_NUM_INT_PROP_ + (nr + 2) * (nr + np))
            + sizeof_realtype * (_NUM_FLOAT_PROP_ + np), J')
    /\ accumulated (jac_terms nr np jac_id conc yield rate) J J'
    /\ (forall slot,
          (forall e, 0 <= e < nr * (nr + np) -> jac_id e <> slot) ->
          rd J' slot = rd J slot)
    /\ ((forall e e', 0 <= e < nr * (nr + np) -> 0 <= e' < nr * (nr + np) ->
           jac_id e = jac_id e' -> e = e') ->
        (forall dep ind, 0 <= dep < nr -> 0 <= ind < nr ->
           exists v, rd J (jac_id (dep * nr + ind)) = Some v
                     /\ rd J' (jac_id (dep * nr + ind))
                        = Some (v - rate / conc ind)%RT)
        /\ (forall dep ind, 0 <= dep < np -> 0 <= ind < nr ->
              exists v, rd J (jac_id (nr * nr + dep * nr + ind)) = Some v
                        /\ rd J' (jac_id (nr * nr + dep * nr + ind))
                           = Some (v + yield dep * rate / conc ind)%RT)).
Proof using Hnr Hnp Hk Hconc Hjac Hyield.
  intros H0r H0p Hrate.
  destruct (calc_jac_contrib_accumulates rxn_data H0r H0p Hrate)
    as (J' & Hcall & Hacc).
  exists J'. split; [done|]. split; [done|].
  pose proof Hacc as [Hlen Hslot]. split.
  - intros slot Hother. destruct (rd J slot) as [v|] eqn:Hv.
    + rewrite (Hslot slot v Hv). f_equal.
      apply apply_updates_untouched. intros u Hu Heq.
      apply (list_elem_of_fmap_2 fst) in Hu.
      rewrite jac_terms_slots in Hu by done.
      apply list_elem_of_fmap in Hu as (e & He & Hin%elem_of_seqZ).
      apply (Hother e); [lia|congruence].
    + destruct (rd J' slot) as [v'|] eqn:Hv'; [|done].
      apply rd_range in Hv'. rewrite Hlen in Hv'.
      destruct (rd_in_range J slot Hv') as [v Hv2]. congruence.
  - intros Hinj.
    assert (NoDup (jac_terms nr np jac_id conc yield rate).*1) as Hnd.
    { rewrite jac_terms_slots by done.
      apply NoDup_fmap_2_strong; [|apply NoDup_seqZ].
      intros e e' He%elem_of_seqZ He'%elem_of_seqZ. apply Hinj; lia. }
    split.
    + intros dep ind Hdep Hind.
      destruct (Hjac (dep * nr + ind)) as [_ Hrange]; [nia|].
      destruct (rd_in_range J _ Hrange) as [v Hv]. exists v.
      split; [done|]. rewrite (Hslot _ v Hv). f_equal.
      apply (apply_updates_unique _ _
               (fun v => (v - rate / conc ind)%RT) v Hnd).
      by apply jac_terms_reactant.
    + intros dep ind Hdep Hind.
      destruct (Hjac (nr * nr + dep * nr + ind)) as [_ Hrange]; [nia|].
      destruct (rd_in_range J _ Hrange) as [v Hv]. exists v.
      split; [done|]. rewrite (Hslot _ v Hv). f_equal.
      apply (apply_updates_unique _ _
               (fun v => (v + yield dep * rate / conc ind)%RT) v Hnd).
      by apply jac_terms_product.
Qed.

End JacContrib.

Lemma calc_jac_contrib_terms_witness :
  exists J',
    rxn_arrhenius_calc_jac_contrib (RT := binary64)
      [2; 3; 0]%float [0; 0; 0; 0; 0; 0]%float 0 two_to_one
    = Some (120, J')
    /\ rd J' 1 = Some (-2)%float /\ rd J' 4 = Some 3%float.
Proof.
  destruct (calc_jac_contrib_terms (RT := binary64)
           [2; 1;  0; 1;  2;  0; 1; 2;  0; 1; 2; 3; 4; 5]
           [1; 0; 0; 1; 0; 1; 1;  1]%float
           [2; 3; 0]%float [0; 0; 0; 0; 0; 0]%float 2 1 1%float
           (fun e => e) (fun i => if i =? 0 then 2%float else 3%float)
           (fun _ => 1%float))
    with (rxn_data := 0) as (J' & Hcall & _ & _ & Hslots).
  - reflexivity.
  - reflexivity.
  - reflexivity.
  - intros i Hi.
    assert (i = 0 \/ i = 1) as [-> | ->] by lia; eexists; split; reflexivity.
  - intros e He.
    assert (e = 0 \/ e = 1 \/ e = 2 \/ e = 3 \/ e = 4 \/ e = 5)
      as [-> | [-> | [-> | [-> | [-> | ->]]]]] by lia;
      (split; [reflexivity | simpl; lia]).
  - intros i Hi. assert (i = 0) as -> by lia. reflexivity.
  - lia.
  - lia.
  - reflexivity.
  - destruct Hslots as [Hreact Hprod]; [by intros|].
    exists J'. split; [exact Hcall|]. split.
    + destruct (Hreact 0 1) as (v & Hv & Hv'); [lia|lia|].
      injection Hv as <-. exact Hv'.
    + destruct (Hprod 0 0) as (v & Hv & Hv'); [lia|lia|].
      injection Hv as <-. exact Hv'.
Defined.

(** ** The zero-rate skip (C8) *)

Section ZeroRate.
Context `{RT : RealType}.

(** A rate that compares equal to zero: neither array is touched. *)
Lemma zero_rate_skips int_data float_data state deriv J rxn_data nr np rate :
  _NUM_REACT_ int_data = Some nr -> _NUM_PROD_ int_data = Some np ->
  reaction_rate int_data float_data state = Some rate ->
  req rate ZERO = true ->
  let rxn := {| int_seg := int_data; float_seg := float_data |} in
  let next := rxn_data
              + sizeof_int * (_NUM_INT_PROP_ + (nr + 2) * (nr + np))
              + sizeof_realtype * (_NUM_FLOAT_PROP_ + np) in
  rxn_arrhenius_calc_deriv_contrib state deriv rxn_data rxn
    = Some (next, deriv)
  /\ rxn_arrhenius_calc_jac_contrib state J rxn_data rxn = Some (next, J).
Proof.
  intros Hnr Hnp Hrate Hzero rxn next.
  unfold rxn_arrhenius_calc_deriv_contrib, rxn_arrhenius_calc_jac_contrib.
  cbn [int_seg float_seg rxn]. rewrite Hrate. cbn [mbind option_bind].
  unfold rne. rewrite Hzero. cbn [negb mbind option_bind].
  rewrite (next_rxn_counts _ _ _ _ Hnr Hnp). done.
Qed.

End ZeroRate.

(** *** binary64 *)

Lemma finite_SF x :
  is_finite x = true ->
  (exists s, Prim2SF x = S754_zero s)
  \/ (exists s m e, Prim2SF x = S754_finite s m e).
Proof.
  unfold is_finite, is_nan, is_infinity.
  rewrite !FloatAxioms.eqb_spec, abs_spec.
  destruct (Prim2SF x) as [s|s| |s m e]; eauto.
  - by destruct s.
  - done.
Qed.

Lemma zero_SF x : (x =? 0)%float = true -> exists s, Prim2SF x = S754_zero s.
Proof.
  rewrite FloatAxioms.eqb_spec.
  destruct (Prim2SF x) as [s|s| |s m e]; eauto; try done.
  - by destruct s.
  - by destruct s.
Qed.

Lemma SF_zero_eqb x s : Prim2SF x = S754_zero s -> (x =? 0)%float = true.
Proof. intros H. rewrite FloatAxioms.eqb_spec, H. done. Qed.

Lemma mul_finite_zero x y :
  is_finite x = true -> (y =? 0)%float = true -> ((x * y) =? 0)%float = true.
Proof.
  intros Hx [sy Hy]%zero_SF.
  assert (exists s, Prim2SF (x * y) = S754_zero s) as [s Hs].
  { rewrite mul_spec, Hy.
    destruct (finite_SF x Hx) as [(s & ->)|(s & m & e & ->)]; simpl; eauto. }
  by apply SF_zero_eqb in Hs.
Qed.

Lemma mul_zero_finite x y :
  (x =? 0)%float = true -> is_finite y = true -> ((x * y) =? 0)%float = true.
Proof.
  intros [sx Hx]%zero_SF Hy.
  assert (exists s, Prim2SF (x * y) = S754_zero s) as [s Hs].
  { rewrite mul_spec, Hx.
    destruct (finite_SF y Hy) as [(s & ->)|(s & m & e & ->)]; simpl; eauto. }
  by apply SF_zero_eqb in Hs.
Qed.

(** Once a zero concentration has been multiplied into a finite running
    product, the rate stays a zero as long as the later concentrations are
    finite. *)
Lemma mass_action_rate_zero64 (k : float) (conc : Z -> float) nr j :
  0 <= j < nr ->
  is_finite (mass_action_rate (RT := binary64) k conc j) = true ->
  (conc j =? 0)%float = true ->
  (forall i, j < i < nr -> is_finite (conc i) = true) ->
  (mass_action_rate (RT := binary64) k conc nr =? 0)%float = true.
Proof.
  intros Hj Hfin Hzero Hlater.
  assert (forall n : nat, j + 1 + Z.of_nat n <= nr ->
    (mass_action_rate (RT := binary64) k conc (j + 1 + Z.of_nat n) =? 0)%float
    = true) as Hn.
  { induction n as [|n IH]; intros Hle.
    - replace (j + 1 + Z.of_nat 0) with (j + 1) by lia.
      unfold mass_action_rate. rewrite seqZ_foldl_last by lia.
      by apply mul_finite_zero.
    - replace (j + 1 + Z.of_nat (S n)) with (j + 1 + Z.of_nat n + 1) by lia.
      unfold mass_action_rate. rewrite seqZ_foldl_last by lia.
      apply mul_zero_finite; [apply IH; lia|apply Hlater; lia]. }
  specialize (Hn (Z.to_nat (nr - (j + 1))) ltac:(lia)).
  by replace (j + 1 + Z.of_nat (Z.to_nat (nr - (j + 1)))) with nr in Hn
    by lia.
Qed.

(** C8, amended.  In binary64, if a reactant concentration is exactly zero,
    the running product of the rate constant and the concentrations before
    it is finite, and the concentrations after it are finite, then
    [rxn_arrhenius_calc_deriv_contrib] returns the derivative vector as it
    was and [rxn_arrhenius_calc_jac_contrib] returns the Jacobian data as
    they were. *)
Theorem zero_concentration_skips64
    (int_data : list Z) (float_data state deriv J : list float)
    (nr np : Z) (k : float) (conc : Z -> float) (rxn_data j : Z) :
  _NUM_REACT_ int_data = Some nr -> _NUM_PROD_ int_data = Some np ->
  _RATE_CONSTANT_ (RT := binary64) float_data = Some k ->
  (forall i, 0 <= i < nr ->
     exists r, _REACT_ int_data i = Some r /\ rd state r = Some (conc i)) ->
  0 <= j < nr ->
  (conc j =? 0)%float = true ->
  is_finite (mass_action_rate (RT := binary64) k conc j) = true ->
  (forall i, j < i < nr -> is_finite (conc i) = true) ->
  let rxn := @Build_rxn_record binary64 int_data float_data in
  let next := rxn_data
              + sizeof_int * (_NUM_INT_PROP_ + (nr + 2) * (nr + np))
              + 8 * (_NUM_FLOAT_PROP_ + np) in
  rxn_arrhenius_calc_deriv_contrib (RT := binary64) state deriv rxn_data rxn
    = Some (next, deriv)
  /\ rxn_arrhenius_calc_jac_contrib (RT := binary64) state J rxn_data rxn
     = Some (next, J).
Proof.
  intros Hnr Hnp Hk Hconc Hj Hzero Hfin Hlater rxn next.
  apply (zero_rate_skips (RT := binary64) int_data float_data state deriv J
           rxn_data nr np (mass_action_rate (RT := binary64) k conc nr));
    try done.
  - by apply reaction_rate_mass_action.
  - by apply (mass_action_rate_zero64 k conc nr j).
Qed.

Lemma zero_concentration_skips64_witness :
  rxn_arrhenius_calc_deriv_contrib (RT := binary64)
    [2; 0; 0]%float [5; 6; 7]%float 0 two_to_one
  = Some (120, [5; 6; 7]%float)
  /\ rxn_arrhenius_calc_jac_contrib (RT := binary64)
       [2; 0; 0]%float [1; 2; 3; 4; 5; 6]%float 0 two_to_one
     = Some (120, [1; 2; 3; 4; 5; 6]%float).
Proof.
  apply (zero_concentration_skips64
           [2; 1;  0; 1;  2;  0; 1; 2;  0; 1; 2; 3; 4; 5]
           [1; 0; 0; 1; 0; 1; 1;  1]%float
           [2; 0; 0]%float [5; 6; 7]%float [1; 2; 3; 4; 5; 6]%float
           2 1 1%float (fun i => if i =? 0 then 2%float else 0%float) 0 1).
  - reflexivity.
  - reflexivity.
  - reflexivity.
  - intros i Hi.
    assert (i = 0 \/ i = 1) as [-> | ->] by lia; eexists; split; reflexivity.
  - lia.
  - reflexivity.
  - reflexivity.
  - intros i Hi. lia.
Defined.

(** C8 as stated fails in binary64.  The rate constant 2^600 and the
    concentrations 2^600 and 0 are finite and the second reactant's
    concentration is exactly zero, but the running product overflows to
    infinity before the zero is multiplied in, so the rate is a NaN, which
    is not equal to zero: every derivative entry and every Jacobian entry of
    the record is overwritten with a NaN. *)
Lemma zero_concentration_overflow :
  let state := [0x1p+600; 0; 0; 0]%float in
  let zeros n := replicate n 0%float in
  _RATE_CONSTANT_ (RT := binary64) (float_seg two_to_two_fast)
    = Some 0x1p+600%float
  /\ forallb is_finite (0x1p+600%float :: state) = true
  /\ rd state 1 = Some 0%float
  /\ rxn_arrhenius_calc_deriv_contrib (RT := binary64)
       state (zeros 4%nat) 0 two_to_two_fast
     = Some (144, replicate 4 nan)
  /\ rxn_arrhenius_calc_jac_contrib (RT := binary64)
       state (zeros 8%nat) 0 two_to_two_fast
     = Some (144, replicate 8 nan)
  /\ ~ (rxn_arrhenius_calc_deriv_contrib (RT := binary64)
          state (zeros 4%nat) 0 two_to_two_fast = Some (144, zeros 4%nat)
        /\ rxn_arrhenius_calc_jac_contrib (RT := binary64)
             state (zeros 8%nat) 0 two_to_two_fast = Some (144, zeros 8%nat)).
Proof.
  cbv zeta. repeat split; try (vm_compute; reflexivity).
  intros [H _]. vm_compute in H.
  assert (is_nan nan = is_nan 0%float) as Hnan by congruence.
  vm_compute in Hnan. discriminate.
Qed.

(** In exact arithmetic a zero concentration always makes the rate zero. *)
Lemma mass_action_rate_zero_exact (k : R) (conc : Z -> R) nr j :
  0 <= j < nr -> conc j = 0%R ->
  mass_action_rate (RT := exact_real) k conc nr = 0%R.
Proof.
  intros Hj Hzero.
  assert (forall n : nat, j + 1 + Z.of_nat n <= nr ->
    mass_action_rate (RT := exact_real) k conc (j + 1 + Z.of_nat n) = 0%R)
    as Hn.
  { induction n as [|n IH]; intros Hle.
    - replace (j + 1 + Z.of_nat 0) with (j + 1) by lia.
      unfold mass_action_rate. rewrite seqZ_foldl_last by lia.
      simpl. rewrite Hzero. apply Rmult_0_r.
    - replace (j + 1 + Z.of_nat (S n)) with (j + 1 + Z.of_nat n + 1) by lia.
      unfold mass_action_rate. rewrite seqZ_foldl_last by lia.
      fold (mass_action_rate (RT := exact_real) k conc (j + 1 + Z.of_nat n)).
      rewrite IH by lia. apply Rmult_0_l. }
  specialize (Hn (Z.to_nat (nr - (j + 1))) ltac:(lia)).
  by replace (j + 1 + Z.of_nat (Z.to_nat (nr - (j + 1)))) with nr in Hn
    by lia.
Qed.

Lemma zero_concentration_skips_exact
    (int_data : list Z) (float_data state deriv J : list R)
    (nr np : Z) (k : R) (conc : Z -> R) (rxn_data j : Z) :
  _NUM_REACT_ int_data = Some nr -> _NUM_PROD_ int_data = Some np ->
  _RATE_CONSTANT_ (RT := exact_real) float_data = Some k ->
  (forall i, 0 <= i < nr ->
     exists r, _REACT_ int_data i = Some r /\ rd state r = Some (conc i)) ->
  0 <= j < nr -> conc j = 0%R ->
  let rxn := @Build_rxn_record exact_real int_data float_data in
  let next := rxn_data
              + sizeof_int * (_NUM_INT_PROP_ + (nr + 2) * (nr + np))
              + 8 * (_NUM_FLOAT_PROP_ + np) in
  rxn_arrhenius_calc_deriv_contrib (RT := exact_real)
    state deriv rxn_data rxn = Some (next, deriv)
  /\ rxn_arrhenius_calc_jac_contrib (RT := exact_real)
       state J rxn_data rxn = Some (next, J).
Proof.
  intros Hnr Hnp Hk Hconc Hj Hzero rxn next.
  apply (zero_rate_skips (RT := exact_real) int_data float_data state
           deriv J rxn_data nr np
           (mass_action_rate (RT := exact_real) k conc nr)); try done.
  - by apply (reaction_rate_mass_action (RT := exact_real)).
  - rewrite (mass_action_rate_zero_exact k conc nr j) by done.
    simpl. unfold Req_b. by destruct (Req_dec_T 0 0).
Qed.

(** ** The rate constant (C6) *)

Section RateConstant.
(** The SUNDIALS routines, in exact arithmetic: the exponential, the
    power with a real exponent (of a positive base) and the power with an
    integer exponent. *)
Variable SUNRexp : R -> R.
Variable SUNRpowerR : R -> R -> R.
Variable SUNRpowerI : R -> Z -> R.
Hypothesis SUNRexp_exact : forall x, SUNRexp x = exp x.
Hypothesis SUNRpowerR_exact :
  forall b e, (0 < b)%R -> SUNRpowerR b e = Rpower b e.
Hypothesis SUNRpowerI_exact : forall b n, SUNRpowerI b n = powerRZ b n.

Lemma Rpower_zero_exponent x : Rpower x 0 = 1%R.
Proof. unfold Rpower. rewrite Rmult_0_l. apply exp_0. Qed.

(** C6.  In exact arithmetic [rxn_arrhenius_update_env_state] stores the
    value of the rate law as the cached rate constant, whether or not it
    takes the short cuts for [B == 0] and [E == 0], and leaves the rest of
    the record as it is.  (The power with the real exponent [B] needs a
    positive base [T/D] unless [B] is zero.) *)
Theorem update_env_state_rate_law
    (int_data : list Z) (yields rest : list R) (rxn_data nr np : Z)
    (A B C D E conv k0 T P : R) :
  _NUM_REACT_ int_data = Some nr -> _NUM_PROD_ int_data = Some np ->
  B = 0%R \/ (0 < T / D)%R ->
  rxn_arrhenius_update_env_state (RT := exact_real)
    SUNRexp SUNRpowerR SUNRpowerI (T :: P :: rest) rxn_data
    (@Build_rxn_record exact_real int_data
       ([A; B; C; D; E; conv; k0] ++ yields))
  = Some (rxn_data
          + sizeof_int * (_NUM_INT_PROP_ + (nr + 2) * (nr + np))
          + 8 * (_NUM_FLOAT_PROP_ + np),
          @Build_rxn_record exact_real int_data
            ([A; B; C; D; E; conv;
              arrhenius_rate_law A B C D E conv T P nr] ++ yields)).
Proof using SUNRexp_exact SUNRpowerR_exact SUNRpowerI_exact.
  intros Hnr Hnp Hbase. unfold rxn_arrhenius_update_env_state.
  cbn [int_seg float_seg]. rewrite Hnr, (next_rxn_counts _ _ _ _ Hnr Hnp).
  unfold _A_, _B_, _C_, _D_, _E_, _CONV_, _TEMPERATURE_K_, _PRESSURE_PA_,
    rd, wr.
  change (Z.to_nat 0) with 0%nat. change (Z.to_nat 1) with 1%nat.
  change (Z.to_nat 2) with 2%nat. change (Z.to_nat 3) with 3%nat.
  change (Z.to_nat 4) with 4%nat. change (Z.to_nat 5) with 5%nat.
  change (Z.to_nat 6) with 6%nat.
  cbn. unfold Req_b.
  assert (forall powB presE : R,
            powB = Rpower (T / D) B -> presE = (1 + E * P)%R ->
            (A * SUNRexp (C / T) * powB * presE
             * SUNRpowerI (conv * P / T) (nr - 1))%R
            = arrhenius_rate_law A B C D E conv T P nr) as Hlaw.
  { intros powB presE -> ->. unfold arrhenius_rate_law.
    by rewrite SUNRexp_exact, SUNRpowerI_exact. }
  destruct (Req_dec_T B 0) as [HB|HB], (Req_dec_T E 0) as [HE|HE]; cbn;
    (rewrite Hlaw;
     [match goal with
      | |- context [6 <? ?n] => destruct (Z.ltb_spec 6 n); [done|lia]
      end
     |first [by rewrite HB, Rpower_zero_exponent
            |apply SUNRpowerR_exact; by destruct Hbase]
     |first [done | rewrite HE; lra]]).
Qed.

End RateConstant.

Lemma update_env_state_rate_law_witness :
  rxn_arrhenius_update_env_state (RT := exact_real)
    exp (fun b e => if Rlt_dec 0 b then Rpower b e else 0%R) powerRZ
    [300; 101325]%R 0
    (@Build_rxn_record exact_real [1; 1; 0; 1; 0; 1; 0; 1]
       [2; 1; 0; 300; 0; 1; 0; 1]%R)
  = Some (96,
          @Build_rxn_record exact_real [1; 1; 0; 1; 0; 1; 0; 1]
            [2; 1; 0; 300; 0; 1;
             arrhenius_rate_law 2 1 0 300 0 1 300 101325 1; 1]%R).
Proof.
  assert (forall b e : R, (0 < b)%R ->
            (if Rlt_dec 0 b then Rpower b e else 0%R) = Rpower b e) as Hpow.
  { intros b e Hb. destruct (Rlt_dec 0 b); [reflexivity|contradiction]. }
  apply (update_env_state_rate_law
           exp (fun b e => if Rlt_dec 0 b then Rpower b e else 0%R) powerRZ
           (fun x => eq_refl) Hpow (fun b n => eq_refl)
           [1; 1; 0; 1; 0; 1; 0; 1] [1%R] [] 0 1 1
           2%R 1%R 0%R 300%R 0%R 1%R 0%R 300%R 101325%R).
  - reflexivity.
  - reflexivity.
  - right. lra.
Defined.

(** ** Loops that fault *)

Section LoopFaults.
Context {S : Type}.
Implicit Types (body : Z -> S -> option S) (s : S) (lo hi i : Z).

Lemma iterate_split (k1 k2 : nat) i body s :
  iterate (k1 + k2) i body s
  = iterate k1 i body s ≫= iterate k2 (i + Z.of_nat k1) body.
Proof.
  revert i s. induction k1 as [|k1 IH]; intros i s.
  - simpl. by replace (i + Z.of_nat 0) with i by lia.
  - change (Datatypes.S k1 + k2)%nat with (Datatypes.S (k1 + k2)).
    rewrite !iterate_S. destruct (body i s) as [s'|]; [|done].
    cbn [mbind option_bind]. rewrite IH. do 2 f_equal. lia.
Qed.

Lemma for_loop_split lo k hi body s :
  lo <= k <= hi ->
  for_loop lo hi body s = for_loop lo k body s ≫= for_loop k hi body.
Proof.
  intros Hk. unfold for_loop.
  replace (Z.to_nat (hi - lo)) with (Z.to_nat (k - lo) + Z.to_nat (hi - k))%nat
    by lia.
  rewrite iterate_split. do 3 f_equal. lia.
Qed.

(** A loop whose body faults in iteration [k], in every state. *)
Lemma for_loop_fault lo hi body s k :
  lo <= k < hi -> (forall s', body k s' = None) ->
  for_loop lo hi body s = None.
Proof.
  intros Hk Hfault. rewrite (for_loop_split lo k hi) by lia.
  destruct (for_loop lo k body s) as [s'|]; [|done]. cbn [mbind option_bind].
  rewrite for_loop_first by lia. by rewrite Hfault.
Qed.

(** A loop that keeps an invariant up to iteration [k], in which the body
    faults. *)
Lemma for_loop_fault_at (I : Z -> S -> Prop) lo hi body s k :
  lo <= k < hi -> I lo s ->
  (forall i s, lo <= i < k -> I i s ->
     exists s', body i s = Some s' /\ I (i + 1) s') ->
  (forall s, I k s -> body k s = None) ->
  for_loop lo hi body s = None.
Proof.
  intros Hk H0 Hstep Hfault. rewrite (for_loop_split lo k hi) by lia.
  destruct (for_loop_invariant I lo k body s) as (s' & -> & HI);
    [lia|done|done|].
  cbn [mbind option_bind]. rewrite for_loop_first by lia.
  by rewrite (Hfault s' HI).
Qed.

End LoopFaults.

Lemma forallb_seqZ (g : Z -> bool) n i :
  forallb g (seqZ 0 n) = true -> 0 <= i < n -> g i = true.
Proof.
  intros Hall Hi. rewrite forallb_forall in Hall. apply Hall.
  apply list_elem_of_In, elem_of_seqZ. lia.
Qed.

Lemma within_spec {A} (a : list A) i :
  within a i = true -> 0 <= i < Z.of_nat (length a).
Proof. unfold within. lia. Qed.

(** ** The marking operation *)

Section Marking.
Context `{RT : RealType}.
Implicit Types (jac_struct : list (list bool)).

Lemma set_flag_spec jac_struct i j :
  is_Some (flag_at jac_struct i j) ->
  exists jac_struct',
    set_flag jac_struct i j = Some jac_struct'
    /\ forall i' j',
         flag_at jac_struct' i' j'
         = if (i' =? i) && (j' =? j) then Some true
           else flag_at jac_struct i' j'.
Proof.
  unfold flag_at, set_flag. intros [b Hb].
  destruct (rd jac_struct i) as [row|] eqn:Hrow; [|done].
  cbn [mbind option_bind] in *.
  pose proof (rd_range _ _ _ Hb) as Hj. pose proof (rd_range _ _ _ Hrow) as Hi.
  rewrite (wr_in_range row j true Hj). cbn [mbind option_bind].
  assert (wr jac_struct i (<[Z.to_nat j:=true]> row)
          = Some (<[Z.to_nat i:=<[Z.to_nat j:=true]> row]> jac_struct))
    as Hwr by (by apply wr_in_range).
  rewrite Hwr. eexists. split; [done|]. intros i' j'.
  destruct (Z.eqb_spec i' i) as [->|Hne].
  - rewrite (rd_wr_same _ _ _ _ Hwr). cbn [mbind option_bind andb].
    destruct (Z.eqb_spec j' j) as [->|Hnej].
    + apply (rd_wr_same row j true). by apply wr_in_range.
    + rewrite Hrow. cbn [mbind option_bind].
      apply (rd_wr_other row j j' true); [by apply wr_in_range|done].
  - by rewrite (rd_wr_other _ _ _ _ _ Hwr) by done.
Qed.

(** One of the two inner loops: the flags of column [col] in the rows
    before [rows]. *)
Lemma mark_column jac_struct0 jac_struct (P : Z -> Z -> bool) rows col :
  0 <= rows ->
  (forall i, 0 <= i < rows -> is_Some (flag_at jac_struct0 i col)) ->
  (forall i j, flag_at jac_struct i j
               = if P i j then Some true else flag_at jac_struct0 i j) ->
  exists jac_struct',
    for_loop 0 rows (fun i_dep jac_struct => set_flag jac_struct i_dep col)
      jac_struct = Some jac_struct'
    /\ forall i j,
         flag_at jac_struct' i j
         = if P i j || ((0 <=? i) && (i <? rows) && (j =? col))
           then Some true else flag_at jac_struct0 i j.
Proof.
  intros Hrows Hin Hcur.
  edestruct (for_loop_invariant
    (fun k (s : list (list bool)) =>
       forall i j,
         flag_at s i j
         = if P i j || ((0 <=? i) && (i <? k) && (j =? col))
           then Some true else flag_at jac_struct0 i j) 0 rows)
    as (s & Hrun & Hs); [lia| | |by eauto].
  - intros i j. rewrite Hcur.
    replace ((0 <=? i) && (i <? 0)) with false by lia.
    by rewrite orb_false_r.
  - intros k s Hk Hs. cbn beta.
    destruct (set_flag_spec s k col) as (s' & -> & Hs').
    { rewrite Hs. destruct (P k col || _); [done|]. apply Hin. lia. }
    eexists. split; [done|]. intros i j. rewrite Hs', Hs.
    destruct (Z.eqb_spec i k) as [->|Hne], (Z.eqb_spec j col) as [->|Hnc];
      cbn [andb].
    + replace ((0 <=? k) && (k <? k + 1)) with true by lia.
      by rewrite orb_true_r.
    + by rewrite !andb_false_r.
    + replace (i <? k + 1) with (i <? k) by lia. done.
    + by rewrite !andb_false_r.
Qed.

(** The operation sets the flags in the rows before [max nr np] of the
    columns before [nr], and changes no other flag. *)
Lemma get_used_jac_elem_marks rxn_data rxn jac_struct nr np :
  _NUM_REACT_ (int_seg rxn) = Some nr -> _NUM_PROD_ (int_seg rxn) = Some np ->
  0 <= nr -> 0 <= np ->
  (forall i j, 0 <= i < Z.max nr np -> 0 <= j < nr ->
     is_Some (flag_at jac_struct i j)) ->
  exists jac_struct',
    rxn_arrhenius_get_used_jac_elem rxn_data rxn jac_struct
    = Some (rxn_data + sizeof_int * (_NUM_INT_PROP_ + (nr + 2) * (nr + np))
            + sizeof_realtype * (_NUM_FLOAT_PROP_ + np), jac_struct')
    /\ forall i j,
         flag_at jac_struct' i j
         = if (0 <=? i) && (i <? Z.max nr np) && (0 <=? j) && (j <? nr)
           then Some true else flag_at jac_struct i j.
Proof.
  intros Hnr Hnp H0r H0p Hin.
  unfold rxn_arrhenius_get_used_jac_elem. rewrite Hnr, Hnp.
  cbn [mbind option_bind].
  edestruct (for_loop_invariant
    (fun k (s : list (list bool)) =>
       forall i j,
         flag_at s i j
         = if (0 <=? i) && (i <? Z.max nr np) && (0 <=? j) && (j <? k)
           then Some true else flag_at jac_struct i j) 0 nr)
    as (s & -> & Hs); [lia| | |].
  - intros i j.
    destruct (Z.leb_spec 0 j), (Z.ltb_spec j 0);
      rewrite ?andb_false_r; try done; lia.
  - intros k s Hk Hs. cbn beta.
    destruct (mark_column jac_struct s
      (fun i j => (0 <=? i) && (i <? Z.max nr np) && (0 <=? j) && (j <? k))
      nr k) as (s1 & -> & Hs1); [lia| |done|].
    { intros i Hi. apply Hin; lia. }
    cbn [mbind option_bind].
    destruct (mark_column jac_struct s1
      (fun i j => (0 <=? i) && (i <? Z.max nr np) && (0 <=? j) && (j <? k)
                  || (0 <=? i) && (i <? nr) && (j =? k))
      np k) as (s2 & -> & Hs2); [lia| |done|].
    { intros i Hi. apply Hin; lia. }
    eexists. split; [done|]. intros i j. rewrite Hs2.
    match goal with
    | |- (if ?a then _ else _) = (if ?b then _ else _) =>
        replace a with b; [done|]
    end.
    destruct (Z.leb_spec 0 i), (Z.ltb_spec i (Z.max nr np)),
      (Z.leb_spec 0 j), (Z.ltb_spec j (k + 1)), (Z.ltb_spec j k),
      (Z.ltb_spec i nr), (Z.ltb_spec i np), (Z.eqb_spec j k);
      cbn [andb orb]; try done; lia.
  - cbn [mbind option_bind]. rewrite (next_rxn_counts _ _ _ _ Hnr Hnp).
    cbn [mbind option_bind]. eauto.
Qed.

End Marking.

(** ** The derivative contribution, as the code accumulates it *)

Section AccumulateLoop.
Context `{RT : RealType}.

(** A loop that applies one accumulation step per iteration, the steps
    being numbered from [e0]. *)
Lemma accumulate_loop (a0 : list realtype) (slot_of : Z -> Z)
    (term : Z -> realtype -> realtype)
    (body : Z -> Z * list realtype -> option (Z * list realtype))
    us e0 n a :
  0 <= n ->
  (forall i, 0 <= i < n -> 0 <= slot_of (e0 + i) < Z.of_nat (length a0)) ->
  (forall i ac old ac', 0 <= i < n ->
     rd ac (slot_of (e0 + i)) = Some old ->
     wr ac (slot_of (e0 + i)) (term i old) = Some ac' ->
     body i (e0 + i, ac) = Some (e0 + i + 1, ac')) ->
  accumulated us a0 a ->
  exists a',
    for_loop 0 n body (e0, a) = Some (e0 + n, a')
    /\ accumulated (us ++ (i ← seqZ 0 n; [(slot_of (e0 + i), term i)])) a0 a'.
Proof.
  intros Hn Hrange Hbody Hacc.
  edestruct (for_loop_invariant
    (fun i (s : Z * list realtype) =>
       s.1 = e0 + i
       /\ accumulated
            (us ++ (i' ← seqZ 0 i; [(slot_of (e0 + i'), term i')])) a0 s.2)
    0 n body (e0, a)) as ([e a'] & Hrun & He & Hres); [lia| | |].
  - simpl. split; [lia|]. by rewrite app_nil_r.
  - intros i [e ac] Hi [He Hacc1]. simpl in He, Hacc1. subst e.
    destruct (accumulated_step _ _ _ (slot_of (e0 + i)) (term i)
                Hacc1 (Hrange i Hi)) as (old & ac' & Hold & Hwr & Hacc2).
    exists (e0 + i + 1, ac'). split; [by apply (Hbody i ac old ac')|].
    simpl. split; [lia|]. by rewrite seqZ_bind_last, app_assoc by lia.
  - simpl in He. subst e. eauto.
Qed.

End AccumulateLoop.

Section DerivContrib.
Context `{RT : RealType}.
Variables (int_data : list Z) (float_data state deriv : list realtype).
Variables (nr np : Z) (k : realtype).
Variables (deriv_id : Z -> Z) (conc yield : Z -> realtype).
Hypothesis Hnr : _NUM_REACT_ int_data = Some nr.
Hypothesis Hnp : _NUM_PROD_ int_data = Some np.
Hypothesis Hk : _RATE_CONSTANT_ float_data = Some k.
Hypothesis Hconc : forall i, 0 <= i < nr ->
  exists r, _REACT_ int_data i = Some r /\ rd state r = Some (conc i).
Hypothesis Hderiv : forall e, 0 <= e < 2 * nr ->
  _DERIV_ID_ int_data e = Some (deriv_id e)
  /\ 0 <= deriv_id e < Z.of_nat (length deriv).
Hypothesis Hyield : forall i, 0 <= i < nr ->
  _yield_ float_data i = Some (yield i).

Local Abbreviation rate := (mass_action_rate k conc nr).

Lemma calc_deriv_contrib_accumulates rxn_data :
  0 <= nr -> rne rate ZERO = true ->
  exists deriv',
    rxn_arrhenius_calc_deriv_contrib state deriv rxn_data
      {| int_seg := int_data; float_seg := float_data |}
    = Some (rxn_data
            + sizeof_int * (_NUM_INT_PROP_ + (nr + 2) * (nr + np))
            + sizeof_realtype * (_NUM_FLOAT_PROP_ + np), deriv')
    /\ accumulated (deriv_terms nr deriv_id yield rate) deriv deriv'.
Proof using Hnr Hnp Hk Hconc Hderiv Hyield.
  intros H0r Hrate. unfold rxn_arrhenius_calc_deriv_contrib.
  cbn [int_seg float_seg].
  rewrite (reaction_rate_mass_action int_data float_data state nr k conc
             Hnr Hk Hconc).
  cbn [mbind option_bind]. rewrite Hrate, Hnr. cbn [mbind option_bind].
  destruct (accumulate_loop deriv deriv_id (fun _ v => v - rate)%RT
    (fun (i_spec : Z) '(i_dep_var, d) =>
       id ← _DERIV_ID_ int_data i_dep_var;
       old ← rd d id;
       d ← wr d id (old - rate)%RT;
       Some (i_dep_var + 1, d)) [] 0 nr deriv)
    as (d1 & Hrun1 & Hacc1); [done| | |apply accumulated_nil|].
  { intros i Hi. apply Hderiv. lia. }
  { intros i ac old ac' Hi Hold Hwr. cbn beta iota.
    destruct (Hderiv (0 + i)) as [-> _]; [lia|]. cbn [mbind option_bind].
    rewrite Hold. cbn [mbind option_bind]. by rewrite Hwr. }
  rewrite Hrun1. cbn [mbind option_bind].
  match type of Hacc1 with accumulated ?u _ _ => set (us1 := u) in * end.
  destruct (accumulate_loop deriv deriv_id
    (fun i v => v + rate * yield i)%RT
    (fun (i_spec : Z) '(i_dep_var, d) =>
       id ← _DERIV_ID_ int_data i_dep_var;
       y ← _yield_ float_data i_spec;
       old ← rd d id;
       d ← wr d id (old + rate * y)%RT;
       Some (i_dep_var + 1, d)) us1 (0 + nr) nr d1)
    as (d2 & Hrun2 & Hacc2); [done| | |exact Hacc1|].
  { intros i Hi. apply Hderiv. lia. }
  { intros i ac old ac' Hi Hold Hwr. cbn beta iota.
    destruct (Hderiv (0 + nr + i)) as [-> _]; [lia|].
    cbn [mbind option_bind]. rewrite (Hyield i Hi).
    cbn [mbind option_bind]. rewrite Hold. cbn [mbind option_bind].
    by rewrite Hwr. }
  rewrite Hrun2. cbn [mbind option_bind].
  rewrite (next_rxn_counts _ _ _ _ Hnr Hnp). cbn [mbind option_bind].
  exists d2. split; [done|]. subst us1. simpl in Hacc2. exact Hacc2.
Qed.

Lemma deriv_terms_slots :
  0 <= nr ->
  (deriv_terms nr deriv_id yield rate).*1 = deriv_id <$> seqZ 0 (2 * nr).
Proof.
  intros H0r. unfold deriv_terms. rewrite fmap_app.
  replace (2 * nr) with (nr + nr) by lia.
  rewrite (seqZ_app 0 nr nr), fmap_app by lia. f_equal.
  - exact (row_slots deriv_id (fun _ v => v - rate)%RT 0 nr H0r).
  - exact (row_slots deriv_id (fun i v => v + rate * yield i)%RT
             (0 + nr) nr H0r).
Qed.

(** X1.  For a record whose rate is not zero the call returns the pointer
    behind the record and the derivative with the terms of [deriv_terms]
    accumulated: the rate subtracted through each of the first [nr]
    derivative ids, and [rate * yield i], for [i] below the number of
    reactants, added through the id that follows them at distance [i].
    No other slot changes. *)
Theorem calc_deriv_contrib_terms rxn_data :
  0 <= nr -> rne rate ZERO = true ->
  exists deriv',
    rxn_arrhenius_calc_deriv_contrib state deriv rxn_data
      {| int_seg := int_data; float_seg := float_data |}
    = Some (rxn_data
            + sizeof_int * (_NUM_INT_PROP_ + (nr + 2) * (nr + np))
            + sizeof_realtype * (_NUM_FLOAT_PROP_ + np), deriv')
    /\ accumulated (deriv_terms nr deriv_id yield rate) deriv deriv'
    /\ (forall slot,
          (forall e, 0 <= e < 2 * nr -> deriv_id e <> slot) ->
          rd deriv' slot = rd deriv slot)
    /\ ((forall e e', 0 <= e < 2 * nr -> 0 <= e' < 2 * nr ->
           deriv_id e = deriv_id e' -> e = e') ->
        (forall i, 0 <= i < nr ->
           exists v, rd deriv (deriv_id i) = Some v
                     /\ rd deriv' (deriv_id i) = Some (v - rate)%RT)
        /\ (forall i, 0 <= i < nr ->
              exists v, rd deriv (deriv_id (nr + i)) = Some v
                        /\ rd deriv' (deriv_id (nr + i))
                           = Some (v + rate * yield i)%RT)).
Proof using Hnr Hnp Hk Hconc Hderiv Hyield.
  intros H0r Hrate.
  destruct (calc_deriv_contrib_accumulates rxn_data H0r Hrate)
    as (deriv' & Hcall & Hacc).
  exists deriv'. split; [done|]. split; [done|].
  pose proof Hacc as [Hlen Hslot]. split.
  - intros slot Hother. destruct (rd deriv slot) as [v|] eqn:Hv.
    + rewrite (Hslot slot v Hv). f_equal.
      apply apply_updates_untouched. intros u Hu Heq.
      apply (list_elem_of_fmap_2 fst) in Hu.
      rewrite deriv_terms_slots in Hu by done.
      apply list_elem_of_fmap in Hu as (e & He & Hin%elem_of_seqZ).
      apply (Hother e); [lia|congruence].
    + destruct (rd deriv' slot) as [v'|] eqn:Hv'; [|done].
      apply rd_range in Hv'. rewrite Hlen in Hv'.
      destruct (rd_in_range deriv slot Hv') as [v Hv2]. congruence.
  - intros Hinj.
    assert (NoDup (deriv_terms nr deriv_id yield rate).*1) as Hnd.
    { rewrite deriv_terms_slots by done.
      apply NoDup_fmap_2_strong; [|apply NoDup_seqZ].
      intros e e' He%elem_of_seqZ He'%elem_of_seqZ. apply Hinj; lia. }
    split.
    + intros i Hi. destruct (Hderiv i) as [_ Hrange]; [lia|].
      destruct (rd_in_range deriv _ Hrange) as [v Hv]. exists v.
      split; [done|]. rewrite (Hslot _ v Hv). f_equal.
      apply (apply_updates_unique _ _ (fun v => (v - rate)%RT) v Hnd).
      unfold deriv_terms. apply elem_of_app. left.
      apply list_elem_of_bind. exists i. split; [|apply elem_of_seqZ; lia].
      by apply list_elem_of_singleton.
    + intros i Hi. destruct (Hderiv (nr + i)) as [_ Hrange]; [lia|].
      destruct (rd_in_range deriv _ Hrange) as [v Hv]. exists v.
      split; [done|]. rewrite (Hslot _ v Hv). f_equal.
      apply (apply_updates_unique _ _
               (fun v => (v + rate * yield i)%RT) v Hnd).
      unfold deriv_terms. apply elem_of_app. right.
      apply list_elem_of_bind. exists i. split; [|apply elem_of_seqZ; lia].
      by apply list_elem_of_singleton.
Qed.

End DerivContrib.


(** ** Operations on a record of the announced size *)

Section WithinRecord.
Context `{RT : RealType}.
Variables (rxn : rxn_record) (state : list realtype).
Hypothesis Hsized : well_sized rxn = true.
Hypothesis Hspecies : species_within state rxn = true.

Lemma well_sized_rate :
  exists nr np k conc,
    _NUM_REACT_ (int_seg rxn) = Some nr /\ _NUM_PROD_ (int_seg rxn) = Some np
    /\ 0 <= nr /\ 0 <= np
    /\ Z.of_nat (length (int_seg rxn)) = 2 + (nr + 2) * (nr + np)
    /\ Z.of_nat (length (float_seg rxn)) = 7 + np
    /\ _RATE_CONSTANT_ (float_seg rxn) = Some k
    /\ (forall i, 0 <= i < nr ->
          exists r, _REACT_ (int_seg rxn) i = Some r
                    /\ rd state r = Some (conc i))
    /\ reaction_rate (int_seg rxn) (float_seg rxn) state
       = Some (mass_action_rate k conc nr).
Proof using Hsized Hspecies.
  destruct (well_sized_counts rxn Hsized)
    as (nr & np & Hnr & Hnp & H0r & H0p & Hi & Hf).
  unfold _NUM_INT_PROP_, _NUM_FLOAT_PROP_ in *.
  destruct (rd_in_range (float_seg rxn) 6) as [k Hk]; [lia|].
  set (conc := fun i =>
    default ZERO (r ← _REACT_ (int_seg rxn) i; rd state r)).
  assert (forall i, 0 <= i < nr ->
            exists r, _REACT_ (int_seg rxn) i = Some r
                      /\ rd state r = Some (conc i)) as Hconc.
  { intros i Hi'. unfold species_within in Hspecies. rewrite Hnr in Hspecies.
    pose proof (forallb_seqZ _ _ i Hspecies Hi') as Hr. cbn beta in Hr.
    unfold conc. destruct (_REACT_ (int_seg rxn) i) as [r|]; [|done].
    simpl in Hr. apply within_spec in Hr.
    destruct (rd_in_range state r Hr) as [x Hx].
    exists r. cbn [mbind option_bind]. by rewrite Hx. }
  exists nr, np, k, conc. repeat split; try done; try lia.
  by apply reaction_rate_mass_action.
Qed.

(** The Jacobian pass stays within the record, the state and the Jacobian
    data. *)
Lemma calc_jac_contrib_returns (J : list realtype) rxn_data :
  jac_ids_within J rxn = true ->
  exists J',
    rxn_arrhenius_calc_jac_contrib state J rxn_data rxn
    = Some (rxn_data + record_bytes rxn, J')
    /\ length J' = length J.
Proof using Hsized Hspecies.
  intros Hslots.
  destruct well_sized_rate
    as (nr & np & k & conc & Hnr & Hnp & H0r & H0p & Hi & Hf & Hk & Hconc
        & Hrate).
  assert (rxn_data + sizeof_int * (_NUM_INT_PROP_ + (nr + 2) * (nr + np))
          + sizeof_realtype * (_NUM_FLOAT_PROP_ + np)
          = rxn_data + record_bytes rxn) as Hnext
    by (unfold record_bytes, _NUM_INT_PROP_, _NUM_FLOAT_PROP_;
        rewrite Hi, Hf; lia).
  destruct (req (mass_action_rate k conc nr) ZERO) eqn:Hzero.
  - destruct (zero_rate_skips (int_seg rxn) (float_seg rxn) state [] J
                rxn_data nr np _ Hnr Hnp Hrate Hzero) as [_ Hjac].
    cbv zeta in Hjac. rewrite Hnext in Hjac. exists J.
    destruct rxn as [idata fdata]. by split.
  - set (jac_id := fun e => default 0 (_JAC_ID_ (int_seg rxn) e)).
    set (yield := fun i => default ZERO (_yield_ (float_seg rxn) i)).
    destruct (calc_jac_contrib_accumulates (int_seg rxn) (float_seg rxn)
                state J nr np k jac_id conc yield Hnr Hnp Hk Hconc)
      with (rxn_data := rxn_data) as (J' & Hcall & Hlen & _).
    + intros e He. unfold jac_id.
      unfold jac_ids_within in Hslots. rewrite Hnr, Hnp in Hslots.
      pose proof (forallb_seqZ _ _ e Hslots He) as Hid. cbn beta in Hid.
      destruct (_JAC_ID_ (int_seg rxn) e) as [id|]; [|done].
      simpl in Hid. apply within_spec in Hid. done.
    + intros i Hi'. unfold yield, _yield_, _NUM_FLOAT_PROP_.
      destruct (rd_in_range (float_seg rxn) (7 + i)) as [x ->]; [lia|]. done.
    + done.
    + done.
    + unfold rne. by rewrite Hzero.
    + rewrite Hnext in Hcall. exists J'.
      destruct rxn as [idata fdata]. by split.
Qed.

(** So does the derivative pass on a record that has a yield for every
    reactant. *)
Lemma calc_deriv_contrib_returns (deriv : list realtype) rxn_data :
  deriv_ids_within deriv rxn = true ->
  yields_cover_reactants rxn = true ->
  exists deriv',
    rxn_arrhenius_calc_deriv_contrib state deriv rxn_data rxn
    = Some (rxn_data + record_bytes rxn, deriv')
    /\ length deriv' = length deriv.
Proof using Hsized Hspecies.
  intros Hslots Hcover.
  destruct well_sized_rate
    as (nr & np & k & conc & Hnr & Hnp & H0r & H0p & Hi & Hf & Hk & Hconc
        & Hrate).
  unfold yields_cover_reactants in Hcover. rewrite Hnr, Hnp in Hcover.
  apply Z.leb_le in Hcover.
  assert (rxn_data + sizeof_int * (_NUM_INT_PROP_ + (nr + 2) * (nr + np))
          + sizeof_realtype * (_NUM_FLOAT_PROP_ + np)
          = rxn_data + record_bytes rxn) as Hnext
    by (unfold record_bytes, _NUM_INT_PROP_, _NUM_FLOAT_PROP_;
        rewrite Hi, Hf; lia).
  destruct (req (mass_action_rate k conc nr) ZERO) eqn:Hzero.
  - destruct (zero_rate_skips (int_seg rxn) (float_seg rxn) state deriv []
                rxn_data nr np _ Hnr Hnp Hrate Hzero) as [Hd _].
    cbv zeta in Hd. rewrite Hnext in Hd. exists deriv.
    destruct rxn as [idata fdata]. by split.
  - set (deriv_id := fun e => default 0 (_DERIV_ID_ (int_seg rxn) e)).
    set (yield := fun i => default ZERO (_yield_ (float_seg rxn) i)).
    destruct (calc_deriv_contrib_accumulates (int_seg rxn) (float_seg rxn)
                state deriv nr np k deriv_id conc yield Hnr Hnp Hk Hconc)
      with (rxn_data := rxn_data) as (d' & Hcall & Hlen & _).
    + intros e He. unfold deriv_id.
      unfold deriv_ids_within in Hslots. rewrite Hnr, Hnp in Hslots.
      pose proof (forallb_seqZ _ _ e Hslots ltac:(lia)) as Hid.
      cbn beta in Hid.
      destruct (_DERIV_ID_ (int_seg rxn) e) as [id|]; [|done].
      simpl in Hid. apply within_spec in Hid. done.
    + intros i Hi'. unfold yield, _yield_, _NUM_FLOAT_PROP_.
      destruct (rd_in_range (float_seg rxn) (7 + i)) as [x ->]; [lia|]. done.
    + done.
    + unfold rne. by rewrite Hzero.
    + rewrite Hnext in Hcall. exists d'.
      destruct rxn as [idata fdata]. by split.
Qed.

End WithinRecord.

Section MarkWithin.
Context `{RT : RealType}.

(** The marking operation on a usage matrix that has the flags of the
    record: it returns, and the matrix keeps every flag it had. *)
Lemma get_used_jac_elem_returns rxn_data rxn jac_struct :
  well_sized rxn = true -> marks_within jac_struct rxn = true ->
  exists jac_struct',
    rxn_arrhenius_get_used_jac_elem rxn_data rxn jac_struct
    = Some (rxn_data + record_bytes rxn, jac_struct')
    /\ forall i j, is_Some (flag_at jac_struct i j) ->
                   is_Some (flag_at jac_struct' i j).
Proof.
  intros (nr & np & Hnr & Hnp & H0r & H0p & Hi & Hf)%well_sized_counts Hfit.
  unfold marks_within in Hfit. rewrite Hnr, Hnp in Hfit.
  destruct (get_used_jac_elem_marks rxn_data rxn jac_struct nr np
              Hnr Hnp H0r H0p) as (js' & Hcall & Hflags).
  { intros i j Hi' Hj.
    pose proof (forallb_seqZ _ _ i Hfit Hi') as Hrow. cbn beta in Hrow.
    pose proof (forallb_seqZ _ _ j Hrow Hj) as Hflag. cbn beta in Hflag.
    by apply bool_decide_eq_true in Hflag. }
  exists js'. split.
  - rewrite Hcall. do 2 f_equal. unfold record_bytes. rewrite Hi, Hf. lia.
  - intros i j Hsome. rewrite Hflags. by destruct (_ && _).
Qed.

Lemma marks_within_kept jac_struct jac_struct' rxn :
  (forall i j, is_Some (flag_at jac_struct i j) ->
               is_Some (flag_at jac_struct' i j)) ->
  marks_within jac_struct rxn = true -> marks_within jac_struct' rxn = true.
Proof.
  intros Hkept. unfold marks_within.
  destruct (_NUM_REACT_ (int_seg rxn)) as [nr|]; [|done].
  destruct (_NUM_PROD_ (int_seg rxn)) as [np|]; [|done].
  rewrite !forallb_forall. intros Hfit i Hi. specialize (Hfit i Hi).
  rewrite forallb_forall in Hfit |- *. intros j Hj. specialize (Hfit j Hj).
  apply bool_decide_eq_true. apply bool_decide_eq_true in Hfit.
  by apply Hkept.
Qed.

End MarkWithin.

(** ** The packed buffer *)

Section BufferFacts.
Context `{RT : RealType}.
Hypothesis Hreal : 0 < sizeof_realtype.
Implicit Types (cells : list cell) (rxn : rxn_record).

Lemma sizeof_cell_pos (c : cell) : 0 < sizeof_cell c.
Proof using Hreal. destruct c; simpl; [unfold sizeof_int; lia|done]. Qed.

Lemma region_bytes_nonneg cells : 0 <= region_bytes cells.
Proof using Hreal.
  induction cells as [|c cells IH]; simpl; [done|].
  pose proof (sizeof_cell_pos c). lia.
Qed.

Lemma region_bytes_app cells1 cells2 :
  region_bytes (cells1 ++ cells2) = region_bytes cells1 + region_bytes cells2.
Proof.
  clear Hreal. induction cells1 as [|c cells1 IH]; simpl; [done|].
  rewrite IH. lia.
Qed.

Lemma region_bytes_ints (l : list Z) :
  region_bytes (int_cell <$> l) = sizeof_int * Z.of_nat (length l).
Proof.
  clear Hreal. induction l as [|x l IH]; [simpl; lia|].
  rewrite fmap_cons. cbn [region_bytes foldr sizeof_cell length].
  fold (region_bytes (int_cell <$> l)). rewrite IH. lia.
Qed.

Lemma region_bytes_reals (l : list realtype) :
  region_bytes (real_cell <$> l) = sizeof_realtype * Z.of_nat (length l).
Proof.
  clear Hreal. induction l as [|x l IH]; [simpl; lia|].
  rewrite fmap_cons. cbn [region_bytes foldr sizeof_cell length].
  fold (region_bytes (real_cell <$> l)). rewrite IH. lia.
Qed.

Lemma region_bytes_record rxn :
  region_bytes (pack_record rxn) = record_bytes rxn.
Proof.
  clear Hreal. unfold pack_record, record_bytes.
  by rewrite region_bytes_app, region_bytes_ints, region_bytes_reals.
Qed.

(** An address behind a first part of the region is looked up in the
    rest. *)
Lemma load_behind cells1 cells2 base a :
  base + region_bytes cells1 <= a ->
  load (cells1 ++ cells2) base a = load cells2 (base + region_bytes cells1) a.
Proof using Hreal.
  revert base. induction cells1 as [|c cells1 IH]; intros base Ha.
  - simpl. by replace (base + 0) with base by lia.
  - cbn [app load region_bytes foldr] in *.
    fold (region_bytes cells1) in *.
    pose proof (sizeof_cell_pos c). pose proof (region_bytes_nonneg cells1).
    destruct (Z.eqb_spec a base); [lia|].
    rewrite IH by lia. f_equal. lia.
Qed.

Lemma load_int_cell (l : list Z) cells base i :
  0 <= i ->
  load_int ((int_cell <$> l) ++ cells) base (base + sizeof_int * i)
  = if i <? Z.of_nat (length l) then l !! Z.to_nat i
    else load_int cells (base + sizeof_int * Z.of_nat (length l))
           (base + sizeof_int * i).
Proof using Hreal.
  intros Hi. destruct (Z.ltb_spec i (Z.of_nat (length l))) as [Hlt|Hge].
  - revert base i Hi Hlt. induction l as [|x l IH]; intros base i Hi Hlt;
      [simpl in Hlt; lia|].
    unfold load_int. rewrite fmap_cons. cbn [app load sizeof_cell].
    destruct (Z.eqb_spec (base + sizeof_int * i) base) as [Heq|Hne].
    + assert (i = 0) as -> by (unfold sizeof_int in Heq; lia). done.
    + assert (0 < i) as Hpos by (destruct (decide (i = 0)) as [->|];
        [exfalso; apply Hne; lia|lia]).
      replace (base + sizeof_int * i)
        with (base + sizeof_int + sizeof_int * (i - 1)) by lia.
      specialize (IH (base + sizeof_int) (i - 1)). unfold load_int in IH.
      rewrite IH by (simpl in Hlt; lia).
      replace (Z.to_nat i) with (S (Z.to_nat (i - 1))) by lia. done.
  - unfold load_int. rewrite load_behind.
    + by rewrite region_bytes_ints.
    + rewrite region_bytes_ints. unfold sizeof_int. lia.
Qed.

Lemma load_real_cell (l : list realtype) cells base j :
  0 <= j < Z.of_nat (length l) ->
  load_real ((real_cell <$> l) ++ cells) base (base + sizeof_realtype * j)
  = l !! Z.to_nat j.
Proof using Hreal.
  revert base j. induction l as [|x l IH]; intros base j Hj;
    [simpl in Hj; lia|].
  unfold load_real. rewrite fmap_cons. cbn [app load sizeof_cell].
  destruct (Z.eqb_spec (base + sizeof_realtype * j) base) as [Heq|Hne].
  - assert (j = 0) as -> by nia. done.
  - assert (0 < j) as Hpos by (destruct (decide (j = 0)) as [->|];
      [exfalso; apply Hne; lia|lia]).
    replace (base + sizeof_realtype * j)
      with (base + sizeof_realtype + sizeof_realtype * (j - 1)) by lia.
    specialize (IH (base + sizeof_realtype) (j - 1)). unfold load_real in IH.
    rewrite IH by (simpl in Hj; lia).
    replace (Z.to_nat j) with (S (Z.to_nat (j - 1))) by lia. done.
Qed.

Lemma mapM_lookup {A} (g : Z -> option A) (l : list A) :
  (forall i, 0 <= i < Z.of_nat (length l) -> g i = l !! Z.to_nat i) ->
  mapM g (seqZ 0 (Z.of_nat (length l))) = Some l.
Proof.
  clear Hreal. intros Hg. apply mapM_Some_2.
  apply Forall2_same_length_lookup_2.
  - rewrite length_seqZ. lia.
  - intros i x y Hx Hy. apply lookup_seqZ in Hx as [-> Hi].
    rewrite Hg by lia.
    by replace (Z.to_nat (0 + Z.of_nat i)) with i by lia.
Qed.

(** A record of the announced size is read back from where it is
    packed. *)
Lemma record_at_packed before rxn behind base :
  well_sized rxn = true ->
  record_at (before ++ pack_record rxn ++ behind) base
    (base + region_bytes before)
  = Some rxn.
Proof using Hreal.
  intros (nr & np & Hr & Hp & H0r & H0p & Hi & Hf)%well_sized_counts.
  unfold _NUM_REACT_, _NUM_PROD_ in Hr, Hp.
  apply rd_Some in Hr as [_ Hr]. apply rd_Some in Hp as [_ Hp].
  set (p := base + region_bytes before).
  assert (forall i, 0 <= i < Z.of_nat (length (int_seg rxn)) ->
    load_int (before ++ pack_record rxn ++ behind) base (p + sizeof_int * i)
    = int_seg rxn !! Z.to_nat i) as Hint.
  { intros i Hi'. unfold load_int. rewrite load_behind by (unfold p, sizeof_int; lia).
    fold p. unfold pack_record. rewrite <- app_assoc.
    pose proof (load_int_cell (int_seg rxn)
      ((real_cell <$> float_seg rxn) ++ behind) p i ltac:(lia)) as Hl.
    unfold load_int in Hl. rewrite Hl.
    destruct (Z.ltb_spec i (Z.of_nat (length (int_seg rxn)))); [done|lia]. }
  unfold record_at.
  replace p with (p + sizeof_int * 0) at 1 by lia.
  rewrite Hint by (unfold _NUM_INT_PROP_ in Hi; nia).
  rewrite Hr. cbn [mbind option_bind].
  replace (p + sizeof_int) with (p + sizeof_int * 1) by lia.
  rewrite Hint by (unfold _NUM_INT_PROP_ in Hi; nia).
  rewrite Hp. cbn [mbind option_bind].
  rewrite <- Hi, <- Hf.
  rewrite (mapM_lookup _ (int_seg rxn)) by done. cbn [mbind option_bind].
  rewrite (mapM_lookup _ (float_seg rxn)); [by destruct rxn|].
  intros j Hj. unfold load_real.
  assert (0 <= sizeof_realtype * j) as Hoff by nia.
  rewrite load_behind by (unfold p, sizeof_int; lia). fold p.
  unfold pack_record. rewrite <- app_assoc.
  rewrite load_behind by (rewrite region_bytes_ints; lia).
  rewrite region_bytes_ints.
  apply (load_real_cell (float_seg rxn) behind). done.
Qed.

Lemma region_bytes_pack (rxns : list rxn_record) :
  region_bytes (rxns ≫= pack_record)
  = sizeof_int * int_count rxns + sizeof_realtype * float_count rxns.
Proof.
  clear Hreal. induction rxns as [|rxn rxns IH]; [simpl; lia|].
  change ((rxn :: rxns) ≫= pack_record)
    with (pack_record rxn ++ (rxns ≫= pack_record)).
  rewrite region_bytes_app, region_bytes_record, IH.
  change (int_count (rxn :: rxns))
    with (Z.of_nat (length (int_seg rxn)) + int_count rxns).
  change (float_count (rxn :: rxns))
    with (Z.of_nat (length (float_seg rxn)) + float_count rxns).
  unfold record_bytes. lia.
Qed.

(** A pass over a packed mechanism whose operation returns, for every
    record, the pointer behind it: the cursor is at a record in every step,
    the records visited are those of the mechanism, in order, and the pass
    ends at the end of the buffer. *)
Lemma traverse_packed {S} (advance : Z -> rxn_record -> S -> option (Z * S))
    (inv : list rxn_record -> S -> Prop) base (rxns : list rxn_record) s0 :
  Forall (fun rxn => well_sized rxn = true) rxns ->
  inv [] s0 ->
  (forall rxn p visited s, rxn ∈ rxns -> inv visited s ->
     exists s', advance p rxn s = Some (p + record_bytes rxn, s')
                /\ inv (visited ++ [rxn]) s') ->
  exists s',
    traverse advance (pack (Z.of_nat (length rxns)) rxns) base s0
    = Some (buffer_end base (1 + int_count rxns) (float_count rxns),
            rxns, s')
    /\ inv rxns s'.
Proof using Hreal.
  intros Hsized H0 Hadv. rewrite Forall_forall in Hsized.
  unfold traverse, pack, load_int. cbn [load].
  rewrite Z.eqb_refl. cbn [mbind option_bind].
  edestruct (for_loop_invariant
    (fun k (st : Z * list rxn_record * S) =>
       st.1.1 = base + sizeof_int
                + region_bytes (take (Z.to_nat k) rxns ≫= pack_record)
       /\ st.1.2 = take (Z.to_nat k) rxns /\ inv st.1.2 st.2)
    0 (Z.of_nat (length rxns)))
    as ([[p visited] s'] & -> & Hp & Hv & Hs); [lia| | |].
  - simpl. split; [lia|done].
  - intros k [[p visited] s] Hk (Hp & Hv & Hs). simpl in Hp, Hv, Hs.
    cbn beta iota.
    destruct (lookup_lt_is_Some_2 rxns (Z.to_nat k)) as [rxn Hrxn]; [lia|].
    assert (rxn ∈ rxns) as Hin by (by eapply list_elem_of_lookup_2).
    assert (record_at
              (int_cell (Z.of_nat (length rxns)) :: (rxns ≫= pack_record))
              base p = Some rxn) as ->.
    { rewrite <- (take_drop_middle rxns (Z.to_nat k) rxn Hrxn) at 2.
      rewrite bind_app.
      change ((rxn :: drop (Datatypes.S (Z.to_nat k)) rxns) ≫= pack_record)
        with (pack_record rxn
              ++ (drop (Datatypes.S (Z.to_nat k)) rxns ≫= pack_record)).
      rewrite app_comm_cons, Hp.
      replace (base + sizeof_int
               + region_bytes (take (Z.to_nat k) rxns ≫= pack_record))
        with (base + region_bytes
                       (int_cell (Z.of_nat (length rxns))
                        :: (take (Z.to_nat k) rxns ≫= pack_record)))
        by (unfold region_bytes; cbn [foldr sizeof_cell]; lia).
      apply record_at_packed. by apply Hsized. }
    cbn [mbind option_bind].
    destruct (Hadv rxn p visited s Hin Hs) as (s' & -> & Hs').
    cbn [mbind option_bind]. eexists. split; [done|]. simpl.
    replace (Z.to_nat (k + 1)) with (Datatypes.S (Z.to_nat k)) by lia.
    rewrite (take_S_r _ _ _ Hrxn), bind_app, region_bytes_app.
    split; [|split; [by rewrite Hv|done]].
    simpl. rewrite app_nil_r, region_bytes_record. lia.
  - simpl in Hp, Hv, Hs. exists s'.
    rewrite Nat2Z.id, firstn_all in Hp, Hv. subst visited.
    split; [|done]. do 3 f_equal.
    rewrite Hp, region_bytes_pack. unfold buffer_end. lia.
Qed.

End BufferFacts.

(** ** The five operations and the passes over the buffer (C7) *)

Section Passes.
Context `{RT : RealType}.
Variable SUNRexp : realtype -> realtype.
Variable SUNRpowerR : realtype -> realtype -> realtype.
Variable SUNRpowerI : realtype -> Z -> realtype.


End Passes.


(** * Further properties of the code *)

(** ** rxn_arrhenius.c *)

Lemma calc_deriv_contrib_terms_witness :
  exists deriv',
    rxn_arrhenius_calc_deriv_contrib (RT := binary64)
      [2; 0; 0]%float [0; 0; 0]%float 0 one_to_two
    = Some (116, deriv')
    /\ rd deriv' 0 = Some (-2)%float /\ rd deriv' 1 = Some 2%float.
Proof.
  destruct (calc_deriv_contrib_terms (RT := binary64)
           [1; 2;  0;  1; 2;  0; 1; 2;  0; 1; 2]
           [1; 0; 0; 1; 0; 1; 1;  1; 1]%float
           [2; 0; 0]%float [0; 0; 0]%float 1 2 1%float
           (fun e => e) (fun _ => 2%float) (fun _ => 1%float))
    with (rxn_data := 0) as (deriv' & Hcall & _ & _ & Hslots).
  - reflexivity.
  - reflexivity.
  - reflexivity.
  - intros i Hi. assert (i = 0) as -> by lia. eexists. split; reflexivity.
  - intros e He. assert (e = 0 \/ e = 1) as [-> | ->] by lia;
      (split; [reflexivity | simpl; lia]).
  - intros i Hi. assert (i = 0) as -> by lia. reflexivity.
  - lia.
  - reflexivity.
  - destruct Hslots as [Hreact Hprod]; [by intros|].
    exists deriv'. split; [exact Hcall|]. split.
    + destruct (Hreact 0) as (v & Hv & Hv'); [lia|].
      injection Hv as <-. exact Hv'.
    + destruct (Hprod 0) as (v & Hv & Hv'); [lia|].
      injection Hv as <-. exact Hv'.
Defined.

Section RecordBounds.
Context `{RT : RealType}.

(** X2.  On a record of the announced size, with the species and the
    derivative ids inside the arrays, the derivative pass stays within the
    record exactly when the record has at least as many products as
    reactants, or the rate is zero and nothing is accumulated: when the rate
    is not zero its second loop reads one yield per reactant, and the record
    holds one per product. *)
Theorem calc_deriv_contrib_within_record rxn (state deriv : list realtype)
    rxn_data :
  well_sized rxn = true ->
  species_within state rxn = true ->
  deriv_ids_within deriv rxn = true ->
  exists nr np rate,
    _NUM_REACT_ (int_seg rxn) = Some nr /\ _NUM_PROD_ (int_seg rxn) = Some np
    /\ reaction_rate (int_seg rxn) (float_seg rxn) state = Some rate
    /\ (is_Some (rxn_arrhenius_calc_deriv_contrib state deriv rxn_data rxn)
        <-> nr <= np \/ req rate ZERO = true).
Proof.
  intros Hsized Hspecies Hslots.
  destruct (well_sized_rate rxn state Hsized Hspecies)
    as (nr & np & k & conc & Hnr & Hnp & H0r & H0p & Hi & Hf & Hk & Hconc
        & Hrate).
  exists nr, np, (mass_action_rate k conc nr).
  split; [done|]. split; [done|]. split; [done|].
  destruct (req (mass_action_rate k conc nr) ZERO) eqn:Hzero.
  { destruct (zero_rate_skips (int_seg rxn) (float_seg rxn) state deriv []
                rxn_data nr np _ Hnr Hnp Hrate Hzero) as [Hd _].
    cbv zeta in Hd. destruct rxn as [idata fdata].
    cbn [int_seg float_seg] in *.
    rewrite Hd. split; [by right|by eexists]. }
  destruct (Z.le_gt_cases nr np) as [Hle|Hgt].
  - split; [by left|]. intros _.
    destruct (calc_deriv_contrib_returns rxn state Hsized Hspecies deriv
                rxn_data Hslots) as (d' & -> & _); [|by eexists].
    unfold yields_cover_reactants. rewrite Hnr, Hnp. lia.
  - split; [|intros [?|?]; [lia|done]]. intros [res Hres]. exfalso.
    revert Hres. unfold rxn_arrhenius_calc_deriv_contrib. rewrite Hrate.
    cbn [mbind option_bind]. unfold rne. rewrite Hzero, Hnr.
    cbn [negb mbind option_bind].
    destruct (for_loop 0 nr _ (0, deriv)) as [[i_dep_var d1]|]; [|done].
    cbn [mbind option_bind].
    rewrite (for_loop_fault 0 nr _ _ np); [done|lia|].
    intros [i_dep_var' d]. cbn beta iota.
    destruct (_DERIV_ID_ (int_seg rxn) i_dep_var') as [id|]; [|done].
    cbn [mbind option_bind]. unfold _yield_, _NUM_FLOAT_PROP_.
    assert (rd (float_seg rxn) (7 + np) = None) as ->; [|done].
    unfold rd. destruct (Z.ltb_spec (7 + np) 0); [done|].
    apply lookup_ge_None. lia.
Qed.

(** X3.  [rxn_arrhenius_get_used_jac_elem] sets the flags
    [jac_struct[i][j]] with [i] below the larger of the two counts and [j]
    below the number of reactants, the loop counters themselves being the
    indices, and leaves every other flag as it was. *)
Theorem get_used_jac_elem_marks_block rxn_data rxn
    (jac_struct : list (list bool)) nr np :
  _NUM_REACT_ (int_seg rxn) = Some nr -> _NUM_PROD_ (int_seg rxn) = Some np ->
  0 <= nr -> 0 <= np ->
  (0 < nr -> Z.max nr np <= Z.of_nat (length jac_struct)) ->
  Forall (fun row => nr <= Z.of_nat (length row)) jac_struct ->
  exists jac_struct',
    rxn_arrhenius_get_used_jac_elem rxn_data rxn jac_struct
    = Some (rxn_data + sizeof_int * (_NUM_INT_PROP_ + (nr + 2) * (nr + np))
            + sizeof_realtype * (_NUM_FLOAT_PROP_ + np), jac_struct')
    /\ forall i j,
         flag_at jac_struct' i j
         = if (0 <=? i) && (i <? Z.max nr np) && (0 <=? j) && (j <? nr)
           then Some true else flag_at jac_struct i j.
Proof.
  intros Hnr Hnp H0r H0p Hlen Hrow.
  apply get_used_jac_elem_marks; try done.
  intros i j Hi Hj. unfold flag_at.
  destruct (rd_in_range jac_struct i) as [row Hr]; [lia|].
  rewrite Hr. cbn [mbind option_bind]. apply rd_in_range.
  apply rd_Some in Hr as [_ Hr%list_elem_of_lookup_2].
  rewrite Forall_forall in Hrow. specialize (Hrow row Hr). lia.
Qed.

End RecordBounds.

Lemma calc_deriv_contrib_within_record_witness :
  ~ is_Some (rxn_arrhenius_calc_deriv_contrib (RT := binary64)
               [2; 3; 0]%float [0; 0; 0]%float 0 two_to_one).
Proof.
  destruct (calc_deriv_contrib_within_record (RT := binary64) two_to_one
              [2; 3; 0]%float [0; 0; 0]%float 0 eq_refl eq_refl eq_refl)
    as (nr & np & rate & Hnr & Hnp & Hrate & Hiff).
  vm_compute in Hnr, Hnp, Hrate.
  injection Hnr as <-. injection Hnp as <-. injection Hrate as <-.
  intros Hsome. apply Hiff in Hsome as [Hle|Hzero]; [lia|].
  vm_compute in Hzero. discriminate.
Defined.

Lemma get_used_jac_elem_marks_block_witness :
  exists jac_struct',
    rxn_arrhenius_get_used_jac_elem (RT := binary64) 0 one_to_two
      (replicate 3 (replicate 3 false))
    = Some (116, jac_struct')
    /\ flag_at jac_struct' 1 0 = Some true
    /\ flag_at jac_struct' 0 1 = Some false
    /\ flag_at jac_struct' 2 0 = Some false.
Proof.
  destruct (get_used_jac_elem_marks_block (RT := binary64) 0 one_to_two
              (replicate 3 (replicate 3 false)) 1 2 eq_refl eq_refl)
    as (js' & Hcall & Hflags).
  - lia.
  - lia.
  - simpl. lia.
  - repeat constructor; simpl; lia.
  - exists js'. split; [exact Hcall|]. rewrite !Hflags. done.
Defined.

(** *** The rate constant *)

Section EnvFrame.
Context `{RT : RealType}.
Variable SUNRexp : realtype -> realtype.
Variable SUNRpowerR : realtype -> realtype -> realtype.
Variable SUNRpowerI : realtype -> Z -> realtype.

(** The call reads the reals 0 to 5 of the record and writes real 6. *)
Lemma update_env_state_reads env_data rxn_data int_data float_data next rxn' :
  rxn_arrhenius_update_env_state SUNRexp SUNRpowerR SUNRpowerI
    env_data rxn_data {| int_seg := int_data; float_seg := float_data |}
  = Some (next, rxn') ->
  exists k,
    6 < Z.of_nat (length float_data)
    /\ rxn' = {| int_seg := int_data;
                 float_seg := <[6%nat := k]> float_data |}
    /\ forall float_data0,
         length float_data0 = length float_data ->
         (forall i, 0 <= i < 6 -> rd float_data0 i = rd float_data i) ->
         rxn_arrhenius_update_env_state SUNRexp SUNRpowerR SUNRpowerI
           env_data rxn_data
           {| int_seg := int_data; float_seg := float_data0 |}
         = Some (next, {| int_seg := int_data;
                          float_seg := <[6%nat := k]> float_data0 |}).
Proof.
  unfold rxn_arrhenius_update_env_state. cbn [int_seg float_seg].
  unfold _A_, _B_, _C_, _D_, _E_, _CONV_. intros H.
  destruct (rd float_data 0) as [a|] eqn:Ha; [|done].
  destruct (rd float_data 2) as [c|] eqn:Hc; [|done].
  destruct (_TEMPERATURE_K_ env_data) as [t|]; [|done].
  destruct (rd float_data 1) as [b|] eqn:Hb; [|done].
  cbn [mbind option_bind] in H.
  assert (exists powB,
    (if req b ZERO then Some ONE
     else rd float_data 3 ≫= fun d => Some (SUNRpowerR (t / d)%RT b))
    = Some powB) as [powB HpowB].
  { destruct (if req b ZERO then _ else _) as [x|]; [eauto|done]. }
  rewrite HpowB in H. cbn [mbind option_bind] in H.
  destruct (rd float_data 4) as [e|] eqn:He; [|done].
  cbn [mbind option_bind] in H.
  destruct (_PRESSURE_PA_ env_data) as [p|].
  2: { destruct (req e ZERO); cbn [mbind option_bind] in H; [|done].
       by destruct (rd float_data 5). }
  cbn [mbind option_bind] in H.
  destruct (if req e ZERO then _ else _) as [presE|] eqn:HpresE; [|done].
  cbn [mbind option_bind] in H.
  destruct (rd float_data 5) as [conv|] eqn:Hconv; [|done].
  cbn [mbind option_bind] in H.
  destruct (_NUM_REACT_ int_data) as [nr|]; [|done].
  cbn [mbind option_bind] in H.
  destruct (wr float_data 6 _) as [fl'|] eqn:Hwr; [|done].
  cbn [mbind option_bind] in H.
  destruct (next_rxn int_data rxn_data) as [nx|]; [|done].
  cbn [mbind option_bind] in H. injection H as <- <-.
  apply wr_Some in Hwr as [Hlen ->]. eexists. split; [lia|].
  split; [done|]. intros fl0 Hlen0 Hagree.
  rewrite !Hagree, Ha, Hc, Hb, He, Hconv by lia. cbn [mbind option_bind].
  rewrite HpowB. cbn [mbind option_bind]. rewrite HpresE.
  cbn [mbind option_bind]. rewrite wr_in_range by lia. done.
Qed.

(** X4.  [rxn_arrhenius_update_env_state] writes the rate constant and
    nothing else: the integers, the length and every other real of the
    record are as before.  The value it writes does not depend on the rate
    constant that the record held, so a second update for the same
    environment leaves the record as the first did. *)
Theorem update_env_state_overwrites_constant
    env_data rxn_data rxn next rxn' :
  rxn_arrhenius_update_env_state SUNRexp SUNRpowerR SUNRpowerI
    env_data rxn_data rxn = Some (next, rxn') ->
  int_seg rxn' = int_seg rxn
  /\ length (float_seg rxn') = length (float_seg rxn)
  /\ (forall i, i <> 6 -> rd (float_seg rxn') i = rd (float_seg rxn) i)
  /\ (forall k0 float_data0,
        wr (float_seg rxn) 6 k0 = Some float_data0 ->
        rxn_arrhenius_update_env_state SUNRexp SUNRpowerR SUNRpowerI
          env_data rxn_data
          {| int_seg := int_seg rxn; float_seg := float_data0 |}
        = Some (next, rxn'))
  /\ rxn_arrhenius_update_env_state SUNRexp SUNRpowerR SUNRpowerI
       env_data rxn_data rxn' = Some (next, rxn').
Proof.
  destruct rxn as [int_data float_data]. cbn [int_seg float_seg].
  intros (k & Hlen & -> & Hothers)%update_env_state_reads.
  cbn [int_seg float_seg].
  assert (wr float_data 6 k = Some (<[6%nat:=k]> float_data)) as Hwr
    by (apply wr_in_range; lia).
  split; [done|]. split; [by rewrite length_insert|].
  split; [intros i Hi; by apply (rd_wr_other _ _ _ _ _ Hwr)|].
  assert (forall k0 float_data0,
    wr float_data 6 k0 = Some float_data0 ->
    rxn_arrhenius_update_env_state SUNRexp SUNRpowerR SUNRpowerI
      env_data rxn_data
      {| int_seg := int_data; float_seg := float_data0 |}
    = Some (next, {| int_seg := int_data;
                     float_seg := <[6%nat:=k]> float_data |})) as Hany.
  { intros k0 fl0 Hwr0. rewrite (Hothers fl0).
    - apply wr_Some in Hwr0 as [_ ->]. change (Z.to_nat 6) with 6%nat.
      by rewrite list_insert_insert_eq.
    - by apply wr_length in Hwr0.
    - intros i Hi. apply (rd_wr_other _ _ _ _ _ Hwr0). lia. }
  split; [done|]. by apply (Hany k).
Qed.

End EnvFrame.

Lemma update_env_state_overwrites_constant_witness :
  rxn_arrhenius_update_env_state (RT := binary64)
    (fun x => x) (fun x _ => x) (fun x _ => x) [300; 101325]%float 0
    (record64 [1; 2;  0;  1; 2;  0; 1; 2;  0; 1; 2]
              [1; 0; 0; 1; 0; 1; 0;  1; 1]%float)
  = Some (116, record64 [1; 2;  0;  1; 2;  0; 1; 2;  0; 1; 2]
                        [1; 0; 0; 1; 0; 1; 0;  1; 1]%float).
Proof.
  apply (update_env_state_overwrites_constant (RT := binary64)
           (fun x => x) (fun x _ => x) (fun x _ => x)
           [300; 101325]%float 0 one_to_two 116
           (record64 [1; 2;  0;  1; 2;  0; 1; 2;  0; 1; 2]
                     [1; 0; 0; 1; 0; 1; 0;  1; 1]%float)).
  vm_compute. reflexivity.
Defined.

(** *** The Jacobian terms as derivatives of the rate *)

Lemma mass_action_rate_ext `{RT : RealType} (k : realtype)
    (conc conc' : Z -> realtype) n :
  (forall i, 0 <= i < n -> conc i = conc' i) ->
  mass_action_rate k conc n = mass_action_rate k conc' n.
Proof.
  destruct (Z.le_gt_cases n 0) as [Hle|Hgt].
  { intros _. unfold mass_action_rate. by rewrite seqZ_nil. }
  assert (forall m : nat, Z.of_nat m <= n ->
    (forall i, 0 <= i < n -> conc i = conc' i) ->
    mass_action_rate k conc (Z.of_nat m)
    = mass_action_rate k conc' (Z.of_nat m)) as Hm.
  { induction m as [|m IH]; intros Hle Hext; [done|].
    replace (Z.of_nat (S m)) with (Z.of_nat m + 1) by lia.
    unfold mass_action_rate in *. rewrite !seqZ_foldl_last by lia.
    rewrite (Hext (Z.of_nat m)) by lia. f_equal. apply IH; [lia|done]. }
  intros Hext. specialize (Hm (Z.to_nat n) ltac:(lia) Hext).
  by rewrite Z2Nat.id in Hm by lia.
Qed.

Section RateDerivative.
Variables (int_data : list Z) (float_data state : list R).
Variables (nr : Z) (k : R) (react_id : Z -> Z) (conc : Z -> R).
Hypothesis Hnr : _NUM_REACT_ int_data = Some nr.
Hypothesis Hk : _RATE_CONSTANT_ (RT := exact_real) float_data = Some k.
Hypothesis Hreact : forall i, 0 <= i < nr ->
  _REACT_ int_data i = Some (react_id i)
  /\ rd state (react_id i) = Some (conc i).

(** The rate is linear in the concentration of a reactant that the
    record lists once. *)
Lemma mass_action_rate_linear ind x n :
  0 <= ind < n ->
  mass_action_rate (RT := exact_real) k (conc_with conc ind x) n
  = (mass_action_rate (RT := exact_real) k (conc_with conc ind 1) n * x)%R.
Proof.
  clear Hnr Hk Hreact. intros [H0 Hn]. revert n Hn.
  assert (forall m : nat,
    mass_action_rate (RT := exact_real) k (conc_with conc ind x)
      (ind + 1 + Z.of_nat m)
    = (mass_action_rate (RT := exact_real) k (conc_with conc ind 1)
         (ind + 1 + Z.of_nat m) * x)%R) as Hm.
  { induction m as [|m IH].
    - replace (ind + 1 + Z.of_nat 0) with (ind + 1) by lia.
      unfold mass_action_rate. rewrite !seqZ_foldl_last by done.
      fold (mass_action_rate (RT := exact_real) k (conc_with conc ind x) ind).
      fold (mass_action_rate (RT := exact_real) k (conc_with conc ind 1) ind).
      rewrite (mass_action_rate_ext (RT := exact_real) k (conc_with conc ind x)
                 (conc_with conc ind 1) ind).
      + unfold conc_with. rewrite Z.eqb_refl. simpl. ring.
      + intros i Hi. unfold conc_with.
        destruct (Z.eqb_spec i ind); [lia|done].
    - replace (ind + 1 + Z.of_nat (S m)) with (ind + 1 + Z.of_nat m + 1)
        by lia.
      unfold mass_action_rate in *. rewrite !seqZ_foldl_last by lia.
      assert (forall y, conc_with conc ind y (ind + 1 + Z.of_nat m)
                        = conc (ind + 1 + Z.of_nat m)) as Hc.
      { intros y. unfold conc_with.
        destruct (Z.eqb_spec (ind + 1 + Z.of_nat m) ind); [lia|done]. }
      rewrite IH, !Hc. simpl. ring. }
  intros n Hn. specialize (Hm (Z.to_nat (n - (ind + 1)))).
  by replace (ind + 1 + Z.of_nat (Z.to_nat (n - (ind + 1)))) with n in Hm
    by lia.
Qed.

(** X5.  In exact arithmetic the quotient [rate / state[_REACT_(i_ind)]]
    that [rxn_arrhenius_calc_jac_contrib] accumulates is the derivative of
    the rate with respect to the concentration of reactant [i_ind], for a
    reactant that the record lists once and whose concentration is not
    zero: the rate that the code computes from the state array with that
    entry replaced by [x] is a function of [x] whose derivative at the
    entry's value is that quotient. *)
Theorem jac_term_is_rate_derivative ind :
  0 <= ind < nr ->
  (forall i, 0 <= i < nr -> i <> ind -> react_id i <> react_id ind) ->
  conc ind <> 0%R ->
  exists F : R -> R,
    (forall x state',
       wr state (react_id ind) x = Some state' ->
       reaction_rate (RT := exact_real) int_data float_data state'
       = Some (F x))
    /\ F (conc ind) = mass_action_rate (RT := exact_real) k conc nr
    /\ derivable_pt_lim F (conc ind)
         (mass_action_rate (RT := exact_real) k conc nr / conc ind)%R.
Proof using Hnr Hk Hreact.
  intros Hind Honce Hnz.
  exists (fun x => mass_action_rate (RT := exact_real) k
                     (conc_with conc ind x) nr).
  assert (mass_action_rate (RT := exact_real) k
            (conc_with conc ind (conc ind)) nr
          = mass_action_rate (RT := exact_real) k conc nr) as Hsame.
  { apply (mass_action_rate_ext (RT := exact_real)). intros i Hi.
    unfold conc_with. by destruct (Z.eqb_spec i ind) as [->|]. }
  split; [|split; [done|]].
  - intros x state' Hwr.
    apply (reaction_rate_mass_action (RT := exact_real)); [done|done|].
    intros i Hi. destruct (Hreact i Hi) as [Hr Hx].
    exists (react_id i). split; [done|]. unfold conc_with.
    destruct (Z.eqb_spec i ind) as [->|Hne].
    + apply (rd_wr_same _ _ _ _ Hwr).
    + rewrite (rd_wr_other _ _ _ _ _ Hwr); [done|].
      intros Heq. by apply (Honce i Hi Hne).
  - rewrite <- Hsame, (mass_action_rate_linear ind (conc ind) nr Hind).
    intros eps Heps. exists (mkposreal 1 Rlt_0_1). intros h Hh _.
    rewrite (mass_action_rate_linear ind (conc ind + h) nr Hind),
      (mass_action_rate_linear ind (conc ind) nr Hind).
    match goal with
    | |- (Rabs ?e < eps)%R => replace e with 0%R; [by rewrite Rabs_R0|]
    end.
    simpl. field. done.
Qed.

End RateDerivative.

Lemma jac_term_is_rate_derivative_witness :
  exists F : R -> R,
    (forall x state',
       wr [2; 3; 0]%R 0 x = Some state' ->
       reaction_rate (RT := exact_real)
         [2; 1;  0; 1;  2;  0; 1; 2;  0; 1; 2; 3; 4; 5]
         [1; 0; 0; 1; 0; 1; 1;  1]%R state'
       = Some (F x))
    /\ derivable_pt_lim F 2
         (mass_action_rate (RT := exact_real) 1
            (fun i => if i =? 0 then 2 else 3)%R 2 / 2)%R.
Proof.
  destruct (jac_term_is_rate_derivative
              [2; 1;  0; 1;  2;  0; 1; 2;  0; 1; 2; 3; 4; 5]
              [1; 0; 0; 1; 0; 1; 1;  1]%R [2; 3; 0]%R 2 1%R
              (fun i => i) (fun i => if i =? 0 then 2 else 3)%R
              eq_refl eq_refl) with (ind := 0)
    as (F & Hcode & _ & Hderiv).
  - intros i Hi. assert (i = 0 \/ i = 1) as [-> | ->] by lia;
      split; reflexivity.
  - lia.
  - intros i Hi Hne. lia.
  - simpl. lra.
  - exists F. split; [exact Hcode|exact Hderiv].
Defined.

(** ** phlex_solver.c *)

(** X6.  [check_flag] reports a failure in one case only, a [NULL]
    pointer under [opt] = 0, and then writes the function name to [stderr];
    with every other argument, whatever the pointer and whatever the [int]
    behind it, it returns [PHLEX_SOLVER_SUCCESS] and writes nothing.
    [check_flag_fail] exits, with [EXIT_FAILURE], in that case only. *)
Theorem check_flag_reports_null_only flag_value func_name opt :
  check_flag flag_value func_name opt
  = (if (opt =? 0) && (address flag_value =? 0)%N
     then Returns PHLEX_SOLVER_FAIL [returned_null func_name]
     else Returns PHLEX_SOLVER_SUCCESS [])
  /\ check_flag_fail flag_value func_name opt
     = (if (opt =? 0) && (address flag_value =? 0)%N
        then Exits EXIT_FAILURE [returned_null func_name]
        else Returns tt []).
Proof.
  assert (check_flag flag_value func_name opt
          = (if (opt =? 0) && (address flag_value =? 0)%N
             then Returns PHLEX_SOLVER_FAIL [returned_null func_name]
             else Returns PHLEX_SOLVER_SUCCESS [])) as Hcheck.
  { unfold check_flag.
    destruct ((opt =? 0) && (address flag_value =? 0)%N); [done|].
    destruct (opt =? 1); [|done].
    destruct (address flag_value <? 0)%N eqn:Hlt; [|done].
    apply N.ltb_lt in Hlt. lia. }
  split; [done|]. unfold check_flag_fail. rewrite Hcheck.
  by destruct ((opt =? 0) && (address flag_value =? 0)%N).
Qed.

Section Setup.
Context `{RT : RealType} {EXT : Collaborators}.
#[local] Arguments check_flag_fail : simpl never.

Lemma check_flag_fail_handle a func_name :
  check_flag_fail (handle a) func_name 0
  = if (a =? 0)%N then Exits EXIT_FAILURE [returned_null func_name]
    else Returns tt [].
Proof.
  unfold check_flag_fail, check_flag, handle. simpl.
  by destruct (a =? 0)%N.
Qed.

(** X7.  [solver_initialize] ends the process only when [CVodeCreate] or
    [SUNKLU] returns [NULL], then with [EXIT_FAILURE] and with the name of
    that function on [stderr]; no flag that a SUNDIALS set-up call returns
    makes it exit. *)
Theorem solver_initialize_exits_on_null_only
    i n_jac_elem n_state_var var_type (abstol : list realtype) reltol
    max_steps max_conv_fails n_rxn n_int_param n_float_param status err :
  solver_initialize i n_jac_elem n_state_var var_type abstol reltol
    max_steps max_conv_fails n_rxn n_int_param n_float_param
  = Exits status err ->
  status = EXIT_FAILURE
  /\ ((CVodeCreate = 0%N /\ err = [returned_null "CVodeCreate"])
      \/ (CVodeCreate <> 0%N /\ SUNKLU = 0%N
          /\ err = [returned_null "SUNKLU"])).
Proof.
  unfold solver_initialize.
  destruct (count_dep_var i n_state_var var_type) as [n_dep_var|]; [|done].
  cbn [defined mbind outcome_mbind outcome_bind].
  rewrite !check_flag_fail_int_check, !check_flag_fail_handle.
  destruct (N.eqb_spec CVodeCreate 0) as [Hc|Hc].
  { cbn. intros [= <- <-]. split; [done|]. by left. }
  cbn [defined mbind outcome_mbind outcome_bind].
  destruct (set_abstol _ _ _ _) as [abstol_nv|]; [|done].
  cbn [defined mbind outcome_mbind outcome_bind].
  destruct (get_jac_init _ _ _) as [J|]; [|done].
  cbn [defined mbind outcome_mbind outcome_bind].
  destruct (N.eqb_spec SUNKLU 0) as [Hk|Hk]; [|done].
  cbn. intros [= <- <-]. split; [done|]. by right.
Qed.


End Setup.

(** X9.  The counting loop of [solver_initialize] for any value that its
    counter [i], declared without one, may hold: from [n_state_var] on it
    counts nothing, from a negative value it reads before the type array,
    and from a value in between it counts the variable entries from there
    on, so it misses those before. *)
Theorem count_dep_var_any_start i n var_type :
  n <= Z.of_nat (length var_type) ->
  count_dep_var i n var_type
  = if n <=? i then Some 0
    else if i <? 0 then None
    else Some (dep_index var_type n - dep_index var_type i).
Proof.
  intros Hn. unfold count_dep_var.
  destruct (Z.leb_spec n i) as [Hle|Hlt]; [by rewrite for_loop_done|].
  destruct (Z.ltb_spec i 0) as [Hneg|Hpos].
  - apply (for_loop_fault _ _ _ _ i); [lia|]. intros c.
    unfold rd. destruct (Z.ltb_spec i 0); [done|lia].
  - edestruct (for_loop_invariant
      (fun k (c : Z) => c = dep_index var_type k - dep_index var_type i) i n)
      as (c & -> & ->); [lia|lia| |done].
    intros k c Hk ->. cbn beta.
    destruct (rd_in_range var_type k) as [vt Hvt]; [lia|].
    rewrite Hvt. cbn [mbind option_bind]. eexists. split; [done|].
    rewrite (dep_index_next _ _ _ Hvt).
    destruct (vt =? CHEM_SPEC_VARIABLE); lia.
Qed.

Lemma solver_initialize_exits_on_null_only_witness :
  1 = EXIT_FAILURE
  /\ ((CVodeCreate (Collaborators := collaborators64_no_cvode) = 0%N
       /\ [returned_null "CVodeCreate"] = [returned_null "CVodeCreate"])
      \/ (CVodeCreate (Collaborators := collaborators64_no_cvode) <> 0%N
          /\ SUNKLU (Collaborators := collaborators64_no_cvode) = 0%N
          /\ [returned_null "CVodeCreate"] = [returned_null "SUNKLU"])).
Proof.
  apply (solver_initialize_exits_on_null_only
           (EXT := collaborators64_no_cvode)
           0 0 1 [CHEM_SPEC_VARIABLE] [1%float] 1%float 10 10 0 1 0).
  vm_compute. reflexivity.
Defined.


Lemma count_dep_var_any_start_witness :
  count_dep_var 1 3
    [CHEM_SPEC_VARIABLE; CHEM_SPEC_CONSTANT; CHEM_SPEC_VARIABLE]
  = Some 1.
Proof.
  apply (count_dep_var_any_start 1 3
           [CHEM_SPEC_VARIABLE; CHEM_SPEC_CONSTANT; CHEM_SPEC_VARIABLE]).
  simpl. lia.
Defined.

(** *** The copy loops and the call-backs *)

Section RoundTrip.
Context `{RT : RealType}.
Implicit Types (state y : list realtype) (var_type : list Z).

Lemma wr_same_value (a : list realtype) i x :
  rd a i = Some x -> wr a i x = Some a.
Proof.
  intros Hx. pose proof (rd_range _ _ _ Hx) as Hi.
  rewrite wr_in_range by done. f_equal.
  apply rd_Some in Hx as [_ Hx]. by apply list_insert_id.
Qed.

(** A copy into [y] of a state array that agrees with [y] changes
    nothing. *)
Lemma state_to_y_agreeing n var_type state y :
  0 <= n <= Z.of_nat (length var_type) ->
  (forall i, 0 <= i < n -> rd var_type i = Some CHEM_SPEC_VARIABLE ->
     is_Some (rd state i) /\ rd y (dep_index var_type i) = rd state i) ->
  state_to_y n var_type state y = Some y.
Proof.
  intros Hn Hagree. unfold state_to_y.
  edestruct (for_loop_invariant
    (fun k (s : Z * list realtype) => s = (dep_index var_type k, y)) 0 n)
    as (s & -> & ->); [lia|done| |done].
  intros k s Hk ->. cbn beta iota.
  destruct (rd_in_range var_type k) as [vt Hvt]; [lia|].
  rewrite Hvt. cbn [mbind option_bind].
  rewrite (dep_index_next _ _ _ Hvt).
  destruct (Z.eqb_spec vt CHEM_SPEC_VARIABLE) as [->|_].
  - destruct (Hagree k Hk Hvt) as [[x Hx] Hy]. rewrite Hx in *.
    cbn [mbind option_bind]. rewrite (wr_same_value _ _ _ Hy).
    cbn [mbind option_bind]. eauto.
  - eexists. split; [done|]. f_equal. lia.
Qed.

Lemma y_to_state_agreeing n var_type y state :
  0 <= n <= Z.of_nat (length var_type) ->
  (forall i, 0 <= i < n -> rd var_type i = Some CHEM_SPEC_VARIABLE ->
     is_Some (rd state i) /\ rd y (dep_index var_type i) = rd state i) ->
  y_to_state n var_type y state = Some state.
Proof.
  intros Hn Hagree. unfold y_to_state.
  edestruct (for_loop_invariant
    (fun k (s : Z * list realtype) => s = (dep_index var_type k, state)) 0 n)
    as (s & -> & ->); [lia|done| |done].
  intros k s Hk ->. cbn beta iota.
  destruct (rd_in_range var_type k) as [vt Hvt]; [lia|].
  rewrite Hvt. cbn [mbind option_bind].
  rewrite (dep_index_next _ _ _ Hvt).
  destruct (Z.eqb_spec vt CHEM_SPEC_VARIABLE) as [->|_].
  - destruct (Hagree k Hk Hvt) as [[x Hx] Hy]. rewrite Hy, Hx.
    cbn [mbind option_bind]. rewrite (wr_same_value _ _ _ Hx).
    cbn [mbind option_bind]. eauto.
  - eexists. split; [done|]. f_equal. lia.
Qed.

(** X10.  The two copy loops undo each other.  The copy from the state
    array into [y] (the first loop of [solver_run]) followed by the copy
    from [y] into the state array (the first loop of [f] and of [Jac])
    leaves the state array as it was: the first call-back after
    [solver_run] has filled [y] changes nothing in the caller's array.  And
    the copy from [y] into the state array followed by the copy back leaves
    [y] as it was. *)
Theorem state_y_round_trips n var_type state y :
  0 <= n <= Z.of_nat (length var_type) ->
  n <= Z.of_nat (length state) ->
  dep_index var_type n <= Z.of_nat (length y) ->
  (exists y', state_to_y n var_type state y = Some y'
              /\ y_to_state n var_type y' state = Some state)
  /\ (exists state', y_to_state n var_type y state = Some state'
                     /\ state_to_y n var_type state' y = Some y).
Proof.
  intros Hn Hst Hy. split.
  - destruct (state_to_y_spec n var_type state y Hn Hst Hy)
      as (y' & Hrun & Hlen & Hat & _).
    exists y'. split; [done|]. apply y_to_state_agreeing; [done|].
    intros i Hi Hvt. split; [apply rd_in_range; lia|by apply Hat].
  - destruct (y_to_state_spec n var_type y state Hn Hst Hy)
      as (state' & Hrun & Hlen & Hat & _).
    exists state'. split; [done|]. apply state_to_y_agreeing; [done|].
    intros i Hi Hvt. split; [apply rd_in_range; lia|].
    by rewrite (Hat i _ Hi Hvt).
Qed.

End RoundTrip.

Section DerivativeCallback.
Context `{RT : RealType} {EXT : Collaborators}.

Lemma zero_fill (deriv : list realtype) :
  for_loop 0 (Z.of_nat (length deriv))
    (fun i_spec deriv => wr deriv i_spec ZERO) deriv
  = Some (replicate (length deriv) ZERO).
Proof.
  edestruct (for_loop_invariant
    (fun k (d : list realtype) =>
       d = replicate (Z.to_nat k) ZERO ++ drop (Z.to_nat k) deriv)
    0 (Z.of_nat (length deriv))) as (d & -> & ->); [lia|done| |].
  - intros k d Hk ->. cbn beta. rewrite wr_in_range.
    + eexists. split; [done|].
      replace (Z.to_nat k) with (length (replicate (Z.to_nat k) ZERO) + 0)%nat
        at 1 by (rewrite length_replicate; lia).
      rewrite insert_app_r.
      destruct (lookup_lt_is_Some_2 deriv (Z.to_nat k)) as [x Hx]; [lia|].
      rewrite (drop_S _ _ _ Hx). simpl.
      replace (Z.to_nat (k + 1)) with (S (Z.to_nat k)) by lia.
      by rewrite replicate_S_end, <- app_assoc.
    + rewrite length_app, length_replicate, length_drop. lia.
  - rewrite Nat2Z.id, drop_all, app_nil_r. done.
Qed.

(** X11.  [f] hands [rxn_calc_deriv] a derivative of the same length
    with every entry [ZERO], and the state array with the entries of [y]
    copied in; what [deriv] held before the call has no influence, and the
    status that [f] returns is 0. *)
Theorem f_clears_deriv t (y deriv : list realtype) md state state' :
  y_to_state (n_state_var md) (var_type md) y state = Some state' ->
  f t y deriv md state
  = (deriv' ← rxn_calc_deriv md state' (replicate (length deriv) ZERO);
     Some (0, deriv', state')).
Proof.
  intros Hst. unfold f. rewrite Hst. cbn [mbind option_bind].
  rewrite zero_fill. done.
Qed.

End DerivativeCallback.

Lemma state_y_round_trips_witness :
  (exists y', state_to_y (RT := binary64) 3
                [CHEM_SPEC_VARIABLE; CHEM_SPEC_CONSTANT; CHEM_SPEC_VARIABLE]
                [1; 2; 3]%float [0; 0]%float = Some y'
              /\ y_to_state (RT := binary64) 3
                   [CHEM_SPEC_VARIABLE; CHEM_SPEC_CONSTANT;
                    CHEM_SPEC_VARIABLE]
                   y' [1; 2; 3]%float = Some [1; 2; 3]%float)
  /\ (exists state', y_to_state (RT := binary64) 3
                       [CHEM_SPEC_VARIABLE; CHEM_SPEC_CONSTANT;
                        CHEM_SPEC_VARIABLE]
                       [0; 0]%float [1; 2; 3]%float = Some state'
                     /\ state_to_y (RT := binary64) 3
                          [CHEM_SPEC_VARIABLE; CHEM_SPEC_CONSTANT;
                           CHEM_SPEC_VARIABLE]
                          state' [0; 0]%float = Some [0; 0]%float).
Proof.
  apply (state_y_round_trips (RT := binary64) 3
           [CHEM_SPEC_VARIABLE; CHEM_SPEC_CONSTANT; CHEM_SPEC_VARIABLE]
           [1; 2; 3]%float [0; 0]%float).
  - simpl. lia.
  - simpl. lia.
  - vm_compute. discriminate.
Defined.

Lemma f_clears_deriv_witness :
  f (EXT := collaborators64 0) 0%float [10; 30]%float [4; 4]%float
    model_data64 [1; 2; 3]%float
  = Some (0, [0; 0]%float, [10; 2; 30]%float).
Proof.
  apply (f_clears_deriv (EXT := collaborators64 0) 0%float [10; 30]%float
           [4; 4]%float model_data64 [1; 2; 3]%float [10; 2; 30]%float).
  reflexivity.
Defined.

Lemma wr_prefix {A} (done_ a : list A) k v :
  Z.of_nat (length done_) = k -> k < Z.of_nat (length a) ->
  wr (done_ ++ drop (Z.to_nat k) a) k v
  = Some ((done_ ++ [v]) ++ drop (Z.to_nat (k + 1)) a).
Proof.
  intros Hk Hlt. rewrite wr_in_range.
  - f_equal.
    replace (Z.to_nat k) with (length done_ + 0)%nat at 1 by lia.
    rewrite insert_app_r.
    destruct (lookup_lt_is_Some_2 a (Z.to_nat k)) as [x Hx]; [lia|].
    rewrite (drop_S _ _ _ Hx). simpl.
    replace (Z.to_nat (k + 1)) with (S (Z.to_nat k)) by lia.
    by rewrite <- app_assoc.
  - rewrite length_app, length_drop. lia.
Qed.

Section JacReset.
Context `{RT : RealType} {EXT : Collaborators}.

(** The two reset loops of [Jac]: the first [NNZ] data entries are
    cleared and the first [NNZ] indices and all [NP + 1] column pointers are
    copied from [J_init]. *)
Lemma restamp (J0 J_init : SUNMatrix) :
  shaped J_init -> SM_NNZ_S J0 = SM_NNZ_S J_init ->
  SM_NP_S J0 = SM_NP_S J_init ->
  SM_NNZ_S J_init <= Z.of_nat (length (SM_DATA_S J0)) ->
  SM_NNZ_S J_init <= Z.of_nat (length (SM_INDEXVALS_S J0)) ->
  Z.of_nat (length (SM_INDEXPTRS_S J0)) = SM_NP_S J0 + 1 ->
  (J ← for_loop 0 (SM_NNZ_S J0) (fun i J =>
        J ← set_data J i ZERO;
        v ← rd (SM_INDEXVALS_S J_init) i;
        set_indexval J i v) J0;
   for_loop 0 (SM_NP_S J + 1) (fun i J =>
        v ← rd (SM_INDEXPTRS_S J_init) i;
        set_indexptr J i v) J)
  = Some {| SM_ROWS_S := SM_ROWS_S J0; SM_COLUMNS_S := SM_COLUMNS_S J0;
            SM_NNZ_S := SM_NNZ_S J_init; SM_NP_S := SM_NP_S J_init;
            SM_DATA_S := replicate (Z.to_nat (SM_NNZ_S J_init)) ZERO
                         ++ drop (Z.to_nat (SM_NNZ_S J_init)) (SM_DATA_S J0);
            SM_INDEXVALS_S :=
              SM_INDEXVALS_S J_init
              ++ drop (Z.to_nat (SM_NNZ_S J_init)) (SM_INDEXVALS_S J0);
            SM_INDEXPTRS_S := SM_INDEXPTRS_S J_init |}.
Proof.
  intros (Hnnz & Hnp & Hd & Hv & Hp) Ennz Enp Ld Lv Lp.
  set (first k :=
    {| SM_ROWS_S := SM_ROWS_S J0; SM_COLUMNS_S := SM_COLUMNS_S J0;
       SM_NNZ_S := SM_NNZ_S J_init; SM_NP_S := SM_NP_S J_init;
       SM_DATA_S := replicate (Z.to_nat k) ZERO
                    ++ drop (Z.to_nat k) (SM_DATA_S J0);
       SM_INDEXVALS_S := take (Z.to_nat k) (SM_INDEXVALS_S J_init)
                         ++ drop (Z.to_nat k) (SM_INDEXVALS_S J0);
       SM_INDEXPTRS_S := SM_INDEXPTRS_S J0 |}).
  edestruct (for_loop_invariant (fun k J => J = first k) 0 (SM_NNZ_S J0))
    as (J1 & -> & ->); [lia| | |].
  - unfold first. simpl. rewrite <- Ennz, <- Enp. by destruct J0.
  - intros k J Hk ->. cbn beta. unfold set_data, set_indexval, first.
    cbn [SM_DATA_S SM_INDEXVALS_S SM_INDEXPTRS_S SM_ROWS_S SM_COLUMNS_S
         SM_NNZ_S SM_NP_S].
    rewrite wr_prefix by (rewrite ?length_replicate; lia).
    cbn [mbind option_bind SM_DATA_S SM_INDEXVALS_S SM_INDEXPTRS_S SM_ROWS_S
         SM_COLUMNS_S SM_NNZ_S SM_NP_S].
    destruct (rd_in_range (SM_INDEXVALS_S J_init) k) as [v Hv']; [lia|].
    rewrite Hv'. cbn [mbind option_bind].
    rewrite wr_prefix by (rewrite ?length_take; lia).
    cbn [mbind option_bind]. eexists. split; [done|]. f_equal.
    + replace (Z.to_nat (k + 1)) with (S (Z.to_nat k)) by lia.
      by rewrite replicate_S_end.
    + replace (Z.to_nat (k + 1)) with (S (Z.to_nat k)) by lia.
      apply rd_Some in Hv' as [_ Hv']. by rewrite (take_S_r _ _ _ Hv').
  - cbn [mbind option_bind]. unfold first at 1. cbn [SM_NP_S].
    set (second k :=
      {| SM_ROWS_S := SM_ROWS_S J0; SM_COLUMNS_S := SM_COLUMNS_S J0;
         SM_NNZ_S := SM_NNZ_S J_init; SM_NP_S := SM_NP_S J_init;
         SM_DATA_S := SM_DATA_S (first (SM_NNZ_S J0));
         SM_INDEXVALS_S := SM_INDEXVALS_S (first (SM_NNZ_S J0));
         SM_INDEXPTRS_S := take (Z.to_nat k) (SM_INDEXPTRS_S J_init)
                           ++ drop (Z.to_nat k) (SM_INDEXPTRS_S J0) |}).
    edestruct (for_loop_invariant (fun k J => J = second k)
                 0 (SM_NP_S J_init + 1)) as (J2 & -> & ->); [lia|done| |].
    + intros k J Hk ->. cbn beta.
      destruct (rd_in_range (SM_INDEXPTRS_S J_init) k) as [v Hv']; [lia|].
      rewrite Hv'. cbn [mbind option_bind]. unfold set_indexptr, second.
      cbn [SM_DATA_S SM_INDEXVALS_S SM_INDEXPTRS_S SM_ROWS_S SM_COLUMNS_S
           SM_NNZ_S SM_NP_S].
      rewrite wr_prefix by (rewrite ?length_take; lia).
      cbn [mbind option_bind]. eexists. split; [done|]. f_equal.
      replace (Z.to_nat (k + 1)) with (S (Z.to_nat k)) by lia.
      apply rd_Some in Hv' as [_ Hv']. by rewrite (take_S_r _ _ _ Hv').
    + f_equal. unfold second, first.
      cbn [SM_DATA_S SM_INDEXVALS_S SM_INDEXPTRS_S].
      rewrite Ennz. f_equal.
      * f_equal. rewrite take_ge; [done|lia].
      * rewrite take_ge, drop_ge; [by rewrite app_nil_r|lia|lia].
Qed.

(** X12.  Before it calls [rxn_calc_jac], [Jac] gives the matrix [J] the
    pattern of [J_init], whatever [J] held: the [NNZ] field, the column
    pointers and the first [NNZ] row indices are those of [J_init], and the
    first [NNZ] data entries are [ZERO].  The arrays of [J] grow to [NNZ]
    places when they were shorter and are never shortened; the dimensions
    of [J] are kept. *)
Theorem Jac_resets_pattern t (y deriv : list realtype) J md state state' :
  y_to_state (n_state_var md) (var_type md) y state = Some state' ->
  shaped J -> shaped (J_init md) -> SM_NP_S J = SM_NP_S (J_init md) ->
  let nnz := Z.to_nat (SM_NNZ_S (J_init md)) in
  exists J0,
    Jac t y deriv J md state
    = (J' ← rxn_calc_jac md state' J0; Some (0, J', state'))
    /\ SM_ROWS_S J0 = SM_ROWS_S J /\ SM_COLUMNS_S J0 = SM_COLUMNS_S J
    /\ SM_NP_S J0 = SM_NP_S J
    /\ SM_NNZ_S J0 = SM_NNZ_S (J_init md)
    /\ SM_INDEXPTRS_S J0 = SM_INDEXPTRS_S (J_init md)
    /\ take nnz (SM_INDEXVALS_S J0) = SM_INDEXVALS_S (J_init md)
    /\ take nnz (SM_DATA_S J0) = replicate nnz ZERO
    /\ length (SM_DATA_S J0) = length (SM_INDEXVALS_S J0)
    /\ length (SM_DATA_S J0) = (length (SM_DATA_S J) `max` nnz)%nat.
Proof.
  intros Hst HJ Hinit Hnp nnz. unfold Jac. rewrite Hst.
  cbn [mbind option_bind].
  destruct HJ as (HJ1 & HJ2 & HJ3 & HJ4 & HJ5).
  pose proof Hinit as (Hi1 & Hi2 & Hi3 & Hi4 & Hi5).
  match goal with
  | |- context [for_loop 0 _ _ ?M ≫= _] =>
      pose proof (restamp M (J_init md) Hinit) as Hrun
  end.
  cbn [SM_DATA_S SM_INDEXVALS_S SM_INDEXPTRS_S SM_ROWS_S SM_COLUMNS_S
       SM_NNZ_S SM_NP_S] in Hrun |- *.
  eexists. split.
  - match type of Hrun with
    | _ -> _ -> _ -> _ -> _ -> ?lhs = Some ?J0 =>
        assert (lhs = Some J0) as Hrun'
    end.
    { apply Hrun; try done.
      - destruct (Z.ltb_spec (SM_NNZ_S J) (SM_NNZ_S (J_init md)));
          [rewrite realloc_length|]; lia.
      - destruct (Z.ltb_spec (SM_NNZ_S J) (SM_NNZ_S (J_init md)));
          [rewrite realloc_length|]; lia. }
    clear Hrun.
    match type of Hrun' with
    | (?a ≫= ?k) = Some _ =>
        destruct a as [J1|] eqn:Ea; [|discriminate]
    end.
    cbn [mbind option_bind] in Hrun'. cbn [mbind option_bind].
    rewrite Hrun'. cbn [mbind option_bind]. reflexivity.
  - cbn [SM_DATA_S SM_INDEXVALS_S SM_INDEXPTRS_S SM_ROWS_S SM_COLUMNS_S
         SM_NNZ_S SM_NP_S]. fold nnz.
    assert (length (SM_INDEXVALS_S (J_init md)) = nnz) as Hlv by (unfold nnz; lia).
    repeat split; try done.
    + by rewrite take_app_length'.
    + by rewrite take_app_length' by (by rewrite length_replicate).
    + rewrite !length_app, !length_drop, length_replicate, Hlv.
      destruct (Z.ltb_spec (SM_NNZ_S J) (SM_NNZ_S (J_init md))).
      * unfold realloc. rewrite !length_app, !length_take, !length_replicate.
        fold nnz. lia.
      * lia.
    + rewrite !length_app, !length_drop, length_replicate.
      destruct (Z.ltb_spec (SM_NNZ_S J) (SM_NNZ_S (J_init md))).
      * unfold realloc. rewrite !length_app, !length_take, !length_replicate.
        fold nnz. lia.
      * lia.
Qed.

End JacReset.

Lemma Jac_resets_pattern_witness :
  exists J0,
    Jac (EXT := collaborators64 0) 0%float [10; 30]%float [4; 4]%float
      (@Build_SUNMatrix binary64 2 2 1 2 [7%float] [1] [0; 1; 1])
      model_data64 [1; 2; 3]%float
    = Some (0, J0, [10; 2; 30]%float)
    /\ SM_NNZ_S J0 = 0
    /\ SM_INDEXPTRS_S J0 = [0; 0; 0]
    /\ length (SM_DATA_S J0) = 1%nat.
Proof.
  destruct (Jac_resets_pattern (EXT := collaborators64 0) 0%float
              [10; 30]%float [4; 4]%float
              (@Build_SUNMatrix binary64 2 2 1 2 [7%float] [1] [0; 1; 1])
              model_data64 [1; 2; 3]%float [10; 2; 30]%float)
    as (J0 & Hrun & _ & _ & _ & Hnnz & Hptrs & _ & _ & _ & Hlen).
  - reflexivity.
  - repeat split; simpl; lia.
  - repeat split; simpl; lia.
  - reflexivity.
  - exists J0. split; [exact Hrun|]. split; [exact Hnnz|].
    split; [exact Hptrs|exact Hlen].
Defined.

(** A counter that moves from at most [N] to above [N] passes it in one
    step. *)
Lemma first_above (g : Z -> Z) N n :
  0 <= n -> g 0 <= N -> N < g n ->
  exists r, 0 <= r < n /\ g r <= N < g (r + 1).
Proof.
  intros Hn H0. revert n Hn. apply (natlike_ind (fun n => N < g n -> _)).
  - lia.
  - intros n Hn IH Hlt. destruct (Z.le_gt_cases (g n) N) as [Hle|Hgt].
    + exists n. unfold Z.succ in *. split; [lia|done].
    + destruct (IH Hgt) as (r & Hr & Hg). exists r. split; [lia|done].
Qed.

Lemma filter_iff_on {A} (P1 P2 : A -> Prop)
    `{!forall x, Decision (P1 x), !forall x, Decision (P2 x)} (l : list A) :
  (forall x, x ∈ l -> P1 x <-> P2 x) -> filter P1 l = filter P2 l.
Proof.
  induction l as [|a l IH]; intros Hiff; [done|].
  assert (filter P1 l = filter P2 l) as Hl
    by (apply IH; intros x Hx; apply Hiff; by right).
  destruct (decide (P1 a)) as [Ha|Ha].
  - rewrite !filter_cons_True; [by rewrite Hl|by apply Hiff; [left|]|done].
  - rewrite !filter_cons_False; [done| |done].
    intros Ha'. apply Ha. by apply Hiff; [left|].
Qed.

(** *** The matrix of [get_jac_init] *)

Section SparseStructure.
Context `{RT : RealType} {EXT : Collaborators}.
Variables (NNZ n : Z) (jac_struct : list (list bool)).
Hypothesis Hn : 0 < n.
Hypothesis Hrows : Z.of_nat (length jac_struct) = n.
Hypothesis Hcols : Forall (fun row => Z.of_nat (length row) = n) jac_struct.

Local Abbreviation upto c r :=
  (filter (fun r => flag_at jac_struct c r = Some true) (seqZ 0 r)).

Lemma count_jac_elem_counts :
  count_jac_elem n jac_struct
  = Some (Z.of_nat (length (stored_before jac_struct n n))).
Proof using Hn Hrows Hcols.
  unfold count_jac_elem.
  edestruct (for_loop_invariant
    (fun c (cnt : Z) =>
       cnt = Z.of_nat (length (stored_before jac_struct n c))) 0 n)
    as (cnt & -> & ->); [lia|done| |done].
  intros c cnt Hc ->. cbn beta.
  edestruct (for_loop_invariant
    (fun r (cnt : Z) =>
       cnt = Z.of_nat (length (stored_before jac_struct n c ++ upto c r)))
    0 n) as (cnt & -> & ->); [lia| | |].
  - simpl. by rewrite app_nil_r.
  - intros r cnt Hr ->. cbn beta.
    destruct (flag_at_in_range n jac_struct Hrows Hcols c r) as [b Hb];
      [lia|lia|].
    rewrite Hb. cbn [mbind option_bind]. eexists. split; [done|].
    rewrite (flagged_columns_next jac_struct c r b) by (done || lia).
    rewrite !length_app. destruct b; simpl; lia.
  - eexists. split; [done|]. by rewrite (stored_before_next n) by lia.
Qed.

(** The columns before [c], when there is room for their indices. *)
Lemma compress_columns_upto c :
  0 <= c <= n ->
  Z.of_nat (length (stored_before jac_struct n c)) <= NNZ ->
  for_loop (S := Z * SUNMatrix) 0 c (fun i_col '(i_elem, M) =>
      M ← set_indexptr M i_col i_elem;
      for_loop (S := Z * SUNMatrix) 0 n (fun i_row '(i_elem, M) =>
          b ← flag_at jac_struct i_col i_row;
          if b : bool then
            M ← set_data M i_elem ONE;
            M ← set_indexval M i_elem i_row;
            Some (i_elem + 1, M)
          else Some (i_elem, M)) (i_elem, M))
    (0, under_construction NNZ n [] [])
  = Some (Z.of_nat (length (stored_before jac_struct n c)),
          under_construction NNZ n (stored_before jac_struct n c)
            ((fun c => Z.of_nat (length (stored_before jac_struct n c)))
               <$> seqZ 0 c)).
Proof using Hn Hrows Hcols.
  intros Hc Hroom.
  edestruct (for_loop_invariant
    (fun c (s : Z * SUNMatrix) =>
       s = (Z.of_nat (length (stored_before jac_struct n c)),
            under_construction NNZ n (stored_before jac_struct n c)
              ((fun c => Z.of_nat (length (stored_before jac_struct n c)))
                 <$> seqZ 0 c))) 0 c)
    as (s & -> & ->); [lia|done| |done].
  intros c' s Hc' ->. cbn beta iota.
  assert (exists rest, stored_before jac_struct n c
                       = stored_before jac_struct n (c' + 1) ++ rest)
    as [rest Hrest].
  { unfold stored_before.
    assert (seqZ 0 c = seqZ 0 (c' + 1) ++ seqZ (0 + (c' + 1)) (c - (c' + 1)))
      as -> by (rewrite <- seqZ_app by lia; f_equal; lia).
    rewrite bind_app. eauto. }
  rewrite Hrest, length_app in Hroom.
  rewrite (stored_before_next n jac_struct c') in * by lia.
  rewrite store_pointer by (rewrite length_fmap, length_seqZ; lia).
  cbn [mbind option_bind].
  rewrite <- (pointers_before_next n jac_struct) by lia.
  rewrite (compress_column NNZ n jac_struct Hn Hrows Hcols) by lia. eauto.
Qed.

(** The matrix that [get_jac_init] returns when there is room. *)
Lemma get_jac_init_builds rxn_data :
  rxn_get_used_jac_elem rxn_data
    (replicate (Z.to_nat n) (replicate (Z.to_nat n) false))
  = Some jac_struct ->
  Z.of_nat (length (stored_before jac_struct n n)) <= NNZ ->
  get_jac_init NNZ n rxn_data
  = Some (under_construction NNZ n (stored_before jac_struct n n)
            ((fun c => Z.of_nat (length (stored_before jac_struct n c)))
               <$> seqZ 0 (n + 1))).
Proof using Hn Hrows Hcols.
  intros Hmark Hroom. unfold get_jac_init. rewrite Hmark.
  cbn [mbind option_bind].
  pose proof count_jac_elem_counts as Hcount. unfold count_jac_elem in Hcount.
  rewrite Hcount. cbn [mbind option_bind].
  assert (SUNSparseMatrix n n NNZ = Some (under_construction NNZ n [] []))
    as ->.
  { unfold SUNSparseMatrix, under_construction.
    destruct (Z.leb_spec n 0); [lia|].
    destruct (Z.ltb_spec NNZ 0); [lia|]. simpl.
    by rewrite !Nat.sub_0_r. }
  cbn [mbind option_bind]. rewrite (compress_columns_upto n) by lia.
  cbn [mbind option_bind]. rewrite Z.max_r by lia.
  rewrite store_pointer by (rewrite length_fmap, length_seqZ; lia).
  by rewrite <- (pointers_before_next n jac_struct) by lia.
Qed.

Lemma upto_sorted c r :
  0 <= r -> StronglySorted Z.lt (upto c r)
            /\ Forall (fun x => 0 <= x < r) (upto c r).
Proof.
  clear Hn Hrows Hcols.
  revert r. apply natlike_ind; [split; constructor|].
  intros r Hr [IHs IHr]. unfold Z.succ.
  rewrite (seqZ_app 0 r 1), filter_app by lia. change (0 + r) with r.
  rewrite seqZ_one. split.
  - apply StronglySorted_app. split; [|split; [done|]].
    + intros x y Hx Hy. rewrite Forall_forall in IHr.
      apply IHr in Hx. apply list_elem_of_filter in Hy as [_ Hy].
      apply list_elem_of_singleton in Hy. lia.
    + destruct (decide (flag_at jac_struct c r = Some true)).
      * rewrite filter_cons_True by done. repeat constructor.
      * rewrite filter_cons_False by done. constructor.
  - apply Forall_app. split.
    + eapply Forall_impl; [exact IHr|]. intros x Hx. simpl in Hx. lia.
    + rewrite Forall_forall. intros x [_ Hx]%list_elem_of_filter.
      apply list_elem_of_singleton in Hx. lia.
Qed.

Lemma stored_before_mono c c' :
  0 <= c <= c' ->
  (length (stored_before jac_struct n c)
   <= length (stored_before jac_struct n c'))%nat.
Proof.
  clear Hn Hrows Hcols. intros Hc. unfold stored_before.
  assert (seqZ 0 c' = seqZ 0 c ++ seqZ (0 + c) (c' - c)) as ->
    by (rewrite <- seqZ_app by lia; f_equal; lia).
  rewrite bind_app, length_app. lia.
Qed.

Lemma upto_mono c r r' :
  0 <= r <= r' -> (length (upto c r) <= length (upto c r'))%nat.
Proof.
  clear Hn Hrows Hcols. intros Hr.
  assert (seqZ 0 r' = seqZ 0 r ++ seqZ (0 + r) (r' - r)) as ->
    by (rewrite <- seqZ_app by lia; f_equal; lia).
  rewrite filter_app, length_app. lia.
Qed.

(** The inner loop in a column that does not fit: the write of the first
    index without a place is outside the arrays. *)
Lemma compress_column_overflow c stored ptrs :
  0 <= c < n -> 0 <= NNZ ->
  (length stored <= Z.to_nat NNZ)%nat ->
  (Z.to_nat NNZ < length (stored ++ flagged_columns jac_struct n c))%nat ->
  for_loop (S := Z * SUNMatrix) 0 n (fun i_row '(i_elem, M) =>
      b ← flag_at jac_struct c i_row;
      if b : bool then
        M ← set_data M i_elem ONE;
        M ← set_indexval M i_elem i_row;
        Some (i_elem + 1, M)
      else Some (i_elem, M))
    (Z.of_nat (length stored), under_construction NNZ n stored ptrs)
  = None.
Proof using Hn Hrows Hcols.
  intros Hc H0 Hfits Hover.
  destruct (first_above
    (fun r => Z.of_nat (length (stored ++ upto c r))) NNZ n)
    as (r & Hr & Hle & Hgt); [lia| | |].
  { simpl. rewrite app_nil_r. lia. }
  { fold (flagged_columns jac_struct n c). lia. }
  destruct (flag_at_in_range n jac_struct Hrows Hcols c r) as [b Hb];
    [lia|lia|].
  pose proof (flagged_columns_next jac_struct c r b ltac:(lia) Hb) as Hnext.
  rewrite Hnext, !length_app in Hgt. rewrite length_app in Hle.
  destruct b; [|simpl in Hgt; lia]. simpl in Hgt.
  apply (for_loop_fault_at
    (fun r (s : Z * SUNMatrix) =>
       s = (Z.of_nat (length (stored ++ upto c r)),
            under_construction NNZ n (stored ++ upto c r) ptrs)) 0 n _ _ r).
  - lia.
  - simpl. by rewrite app_nil_r.
  - intros i s Hi ->. cbn beta iota.
    destruct (flag_at_in_range n jac_struct Hrows Hcols c i) as [b Hbi];
      [lia|lia|].
    rewrite Hbi. cbn [mbind option_bind].
    pose proof (flagged_columns_next jac_struct c i b ltac:(lia) Hbi) as Hi1.
    pose proof (upto_mono c (i + 1) r ltac:(lia)) as Hpre.
    rewrite Hi1, length_app in Hpre. rewrite Hi1.
    destruct b.
    + simpl in Hpre.
      assert (length (stored ++ upto c i) < Z.to_nat NNZ)%nat as Hlt
        by (rewrite length_app; lia).
      pose proof (store_index NNZ n (stored ++ upto c i) ptrs i Hlt)
        as Hstore.
      destruct (set_data _ _ ONE) as [M1|]; [|discriminate Hstore].
      cbn [mbind option_bind] in *. rewrite Hstore.
      cbn [mbind option_bind].
      eexists. split; [done|]. rewrite !app_assoc, !length_app. simpl.
      do 2 f_equal. lia.
    + eexists. split; [done|]. by rewrite app_nil_r.
  - intros s ->. cbn beta iota. rewrite Hb. cbn [mbind option_bind].
    unfold set_data, under_construction. cbn [SM_DATA_S].
    unfold wr. rewrite !length_app, !length_replicate.
    destruct (Z.ltb_spec (Z.of_nat (length stored + length (upto c r)))
                (Z.of_nat (length stored + length (upto c r)
                           + (Z.to_nat NNZ
                              - (length stored + length (upto c r))))));
      [lia|].
    by rewrite andb_false_r.
Qed.

(** With less room than flags, the first index without a place is written
    behind the arrays. *)
Lemma get_jac_init_overflows rxn_data :
  rxn_get_used_jac_elem rxn_data
    (replicate (Z.to_nat n) (replicate (Z.to_nat n) false))
  = Some jac_struct ->
  NNZ < Z.of_nat (length (stored_before jac_struct n n)) ->
  get_jac_init NNZ n rxn_data = None.
Proof using Hn Hrows Hcols.
  intros Hmark Hover. unfold get_jac_init. rewrite Hmark.
  cbn [mbind option_bind].
  pose proof count_jac_elem_counts as Hcount. unfold count_jac_elem in Hcount.
  rewrite Hcount. cbn [mbind option_bind].
  destruct (Z.lt_ge_cases NNZ 0) as [Hneg|H0].
  { unfold SUNSparseMatrix. destruct (Z.ltb_spec NNZ 0); [|lia].
    by rewrite orb_true_r. }
  assert (SUNSparseMatrix n n NNZ = Some (under_construction NNZ n [] []))
    as ->.
  { unfold SUNSparseMatrix, under_construction.
    destruct (Z.leb_spec n 0); [lia|].
    destruct (Z.ltb_spec NNZ 0); [lia|]. simpl.
    by rewrite !Nat.sub_0_r. }
  cbn [mbind option_bind].
  destruct (first_above
    (fun c => Z.of_nat (length (stored_before jac_struct n c))) NNZ n)
    as (c & Hc & Hle & Hgt); [lia|simpl; lia|lia|].
  rewrite (for_loop_split 0 c n) by lia.
  rewrite (compress_columns_upto c) by lia. cbn [mbind option_bind].
  rewrite for_loop_first by lia. cbn beta iota.
  rewrite store_pointer by (rewrite length_fmap, length_seqZ; lia).
  cbn [mbind option_bind].
  rewrite compress_column_overflow; [done|lia|lia|lia|].
  rewrite <- (stored_before_next n) by lia. lia.
Qed.

(** X13.  When the value that the outer [n_jac_elem] holds leaves room
    for the flags, [get_jac_init] returns a well-formed column-compressed
    matrix: [n_dep_var] rows and columns, arrays of [NNZ] entries and of
    [n_dep_var + 1] column pointers, the first pointer 0, the pointers
    ascending, the last pointer the number of flags that the counting loop
    counts, the indices of every column strictly ascending and below
    [n_dep_var], and the data entry of every stored index [ONE]. *)
Theorem get_jac_init_well_formed rxn_data cnt :
  rxn_get_used_jac_elem rxn_data
    (replicate (Z.to_nat n) (replicate (Z.to_nat n) false))
  = Some jac_struct ->
  count_jac_elem n jac_struct = Some cnt -> cnt <= NNZ ->
  exists M,
    get_jac_init NNZ n rxn_data = Some M
    /\ SM_ROWS_S M = n /\ SM_COLUMNS_S M = n /\ SM_NP_S M = n
    /\ SM_NNZ_S M = NNZ
    /\ Z.of_nat (length (SM_INDEXPTRS_S M)) = n + 1
    /\ Z.of_nat (length (SM_INDEXVALS_S M)) = NNZ
    /\ Z.of_nat (length (SM_DATA_S M)) = NNZ
    /\ rd (SM_INDEXPTRS_S M) 0 = Some 0
    /\ rd (SM_INDEXPTRS_S M) n = Some cnt
    /\ (forall c, 0 <= c < n ->
          exists p q rows,
            rd (SM_INDEXPTRS_S M) c = Some p
            /\ rd (SM_INDEXPTRS_S M) (c + 1) = Some q
            /\ 0 <= p <= q /\ q <= cnt
            /\ stored_rows M c = Some rows
            /\ Z.of_nat (length rows) = q - p
            /\ StronglySorted Z.lt rows
            /\ Forall (fun r => 0 <= r < n) rows)
    /\ (forall e, 0 <= e < cnt -> rd (SM_DATA_S M) e = Some ONE).
Proof using Hn Hrows Hcols.
  intros Hmark Hcount Hroom. rewrite count_jac_elem_counts in Hcount.
  injection Hcount as <-.
  destruct (get_jac_init_stores NNZ n jac_struct Hn Hrows Hcols Hroom
              rxn_data Hmark) as (M & HM & _ & Hstored & Hdata).
  exists M. split; [done|].
  rewrite (get_jac_init_builds rxn_data Hmark Hroom) in HM.
  injection HM as HM.
  assert (SM_INDEXPTRS_S M
          = (fun c => Z.of_nat (length (stored_before jac_struct n c)))
              <$> seqZ 0 (n + 1)) as Hptrs.
  { rewrite <- HM. unfold under_construction. cbn [SM_INDEXPTRS_S].
    by rewrite length_fmap, length_seqZ, Nat.sub_diag, app_nil_r. }
  rewrite Hptrs.
  split; [by rewrite <- HM|]. split; [by rewrite <- HM|].
  split; [by rewrite <- HM|]. split; [by rewrite <- HM|].
  split; [rewrite length_fmap, length_seqZ; lia|].
  split.
  { rewrite <- HM. unfold under_construction. cbn [SM_INDEXVALS_S].
    rewrite length_app, length_replicate. lia. }
  split.
  { rewrite <- HM. unfold under_construction. cbn [SM_DATA_S].
    rewrite !length_app, !length_replicate. lia. }
  split; [by rewrite (pointers_before_lookup n jac_struct 0 (n + 1)) by lia|].
  split; [by rewrite (pointers_before_lookup n jac_struct n (n + 1)) by lia|].
  split; [|done].
  intros c Hc.
  exists (Z.of_nat (length (stored_before jac_struct n c))),
    (Z.of_nat (length (stored_before jac_struct n (c + 1)))),
    (flagged_columns jac_struct n c).
  rewrite !(pointers_before_lookup n jac_struct _ (n + 1)) by lia.
  pose proof (stored_before_mono c (c + 1) ltac:(lia)).
  pose proof (stored_before_mono (c + 1) n ltac:(lia)).
  split; [done|]. split; [done|]. split; [lia|]. split; [lia|].
  split; [by apply Hstored|].
  split; [rewrite (stored_before_next n) by lia; rewrite length_app; lia|].
  apply (upto_sorted c n). lia.
Qed.

(** X14.  [get_jac_init] stores for every column the rows that the usage
    matrix flags in that column exactly when the usage matrix is
    symmetric. *)
Theorem get_jac_init_symmetric rxn_data M :
  rxn_get_used_jac_elem rxn_data
    (replicate (Z.to_nat n) (replicate (Z.to_nat n) false))
  = Some jac_struct ->
  get_jac_init NNZ n rxn_data = Some M ->
  (forall c, 0 <= c < n -> stored_rows M c = Some (flagged_rows jac_struct n c))
  <-> (forall i j, 0 <= i < n -> 0 <= j < n ->
         flag_at jac_struct i j = flag_at jac_struct j i).
Proof using Hn Hrows Hcols.
  intros Hmark HM.
  assert (Z.of_nat (length (stored_before jac_struct n n)) <= NNZ) as Hroom.
  { destruct (Z.le_gt_cases
                (Z.of_nat (length (stored_before jac_struct n n))) NNZ)
      as [|Hover]; [done|].
    rewrite (get_jac_init_overflows rxn_data Hmark) in HM by lia. done. }
  destruct (get_jac_init_stores NNZ n jac_struct Hn Hrows Hcols Hroom
              rxn_data Hmark) as (M' & HM' & _ & Hstored & _).
  rewrite HM in HM'. injection HM' as <-. split.
  - intros Hexp i j Hi Hj.
    pose proof (Hexp i Hi) as Hrows'. rewrite (Hstored i Hi) in Hrows'.
    injection Hrows' as Heq.
    destruct (flag_at_in_range n jac_struct Hrows Hcols i j Hi Hj) as [b Hb].
    destruct (flag_at_in_range n jac_struct Hrows Hcols j i Hj Hi) as [b' Hb'].
    rewrite Hb, Hb'. f_equal.
    assert (j ∈ flagged_columns jac_struct n i <-> j ∈ flagged_rows jac_struct n i)
      as Hiff by (by rewrite Heq).
    unfold flagged_columns, flagged_rows in Hiff.
    rewrite !list_elem_of_filter, !elem_of_seqZ, Hb, Hb' in Hiff.
    destruct b, b'; try done.
    + destruct Hiff as [Hiff _]. destruct Hiff as [Hiff _]; [split; [done|lia]|].
      done.
    + destruct Hiff as [_ Hiff]. destruct Hiff as [Hiff _]; [split; [done|lia]|].
      done.
  - intros Hsym c Hc. rewrite (Hstored c Hc). f_equal.
    unfold flagged_columns, flagged_rows.
    apply filter_iff_on. intros r Hr%elem_of_seqZ.
    by rewrite (Hsym c r) by lia.
Qed.

(** X15.  [get_jac_init] stays within the arrays of the matrix exactly
    when the value that the outer [n_jac_elem] holds is at least the number
    of flags that the counting loop counts; with a smaller value it writes
    the first index without a place behind the arrays. *)
Theorem get_jac_init_needs_room rxn_data cnt :
  rxn_get_used_jac_elem rxn_data
    (replicate (Z.to_nat n) (replicate (Z.to_nat n) false))
  = Some jac_struct ->
  count_jac_elem n jac_struct = Some cnt ->
  is_Some (get_jac_init NNZ n rxn_data) <-> cnt <= NNZ.
Proof using Hn Hrows Hcols.
  intros Hmark Hcount. rewrite count_jac_elem_counts in Hcount.
  injection Hcount as <-. split.
  - intros [M HM].
    destruct (Z.le_gt_cases (Z.of_nat (length (stored_before jac_struct n n)))
                NNZ) as [|Hover]; [done|].
    rewrite (get_jac_init_overflows rxn_data Hmark) in HM by lia. done.
  - intros Hroom. rewrite (get_jac_init_builds rxn_data Hmark Hroom).
    by eexists.
Qed.

End SparseStructure.

Lemma get_jac_init_well_formed_witness :
  exists M,
    get_jac_init (EXT := collaborators64 0) 5 2
      (@Build_rxn_buffer binary64 1 [one_to_two]) = Some M
    /\ rd (SM_INDEXPTRS_S M) 0 = Some 0
    /\ rd (SM_INDEXPTRS_S M) 2 = Some 2
    /\ stored_rows M 0 = Some [0] /\ stored_rows M 1 = Some [0].
Proof.
  destruct (get_jac_init_well_formed (EXT := collaborators64 0) 5 2
              [[true; false]; [true; false]] ltac:(lia) eq_refl
              ltac:(repeat constructor)
              (@Build_rxn_buffer binary64 1 [one_to_two]) 2
              eq_refl eq_refl ltac:(lia))
    as (M & HM & _ & _ & _ & _ & _ & _ & _ & Hfirst & Hlast & _).
  exists M. split; [exact HM|]. split; [exact Hfirst|].
  split; [exact Hlast|].
  vm_compute in HM. injection HM as <-. split; reflexivity.
Defined.

Lemma get_jac_init_symmetric_witness :
  (forall c, 0 <= c < 2 ->
     stored_rows (@Build_SUNMatrix binary64 2 2 5 2
                    [1; 1; 0; 0; 0]%float [0; 0; 0; 0; 0] [0; 1; 2]) c
     = Some (flagged_rows [[true; false]; [true; false]] 2 c))
  <-> (forall i j, 0 <= i < 2 -> 0 <= j < 2 ->
         flag_at [[true; false]; [true; false]] i j
         = flag_at [[true; false]; [true; false]] j i).
Proof.
  apply (get_jac_init_symmetric (EXT := collaborators64 0) 5 2
           [[true; false]; [true; false]] ltac:(lia) eq_refl
           ltac:(repeat constructor)
           (@Build_rxn_buffer binary64 1 [one_to_two])).
  - reflexivity.
  - vm_compute. reflexivity.
Defined.

Lemma get_jac_init_needs_room_witness :
  is_Some (get_jac_init (EXT := collaborators64 0) 1 2
             (@Build_rxn_buffer binary64 1 [one_to_two]))
  <-> 2 <= 1.
Proof.
  apply (get_jac_init_needs_room (EXT := collaborators64 0) 1 2
           [[true; false]; [true; false]] ltac:(lia) eq_refl
           ltac:(repeat constructor)
           (@Build_rxn_buffer binary64 1 [one_to_two]) 2).
  - reflexivity.
  - reflexivity.
Defined.
